(** * The KAM estimation pipeline: a shallow embedding and its properties

    The development follows the Python sources:
    - [generate_combined_data.py]: stream synchronisation ([Sync]);
    - [base_kam_model.py]: field extraction, padding-aware normalisation,
      the train/evaluate contract, masked scoring and leave-subjects-out
      cross-validation ([Kam]).

    numpy arrays are buffers of IEEE-754 binary64 numbers (Rocq's primitive
    floats) living in a heap, addressed through array objects (buffer and
    shape), so that copies, views and in-place assignments are told apart.
    Python exceptions are the [Raise] results of an error monad. *)

From Stdlib Require Import Floats.PrimFloat Floats.SpecFloat Floats.FloatOps.
From Stdlib Require Import Floats.FloatAxioms ZArith Lia.
From Stdlib Require OrderedTypeEx.
From stdpp Require Import base option list strings gmap sorting.

(** ** Python exceptions and results *)

Inductive exn : Set :=
  | KeyError | ValueError | IndexError | AttributeError
  | ZeroDivisionError | NotFittedError | MemoryError.

Inductive result (A : Type) : Type :=
  | Ok (a : A)
  | Raise (e : exn).
Arguments Ok {A} a.
Arguments Raise {A} e.

Definition is_ok {A} (r : result A) : bool :=
  match r with Ok _ => true | Raise _ => false end.

Global Instance result_ret : MRet result := @Ok.
Global Instance result_bind : MBind result := λ A B f r,
  match r with Ok a => f a | Raise e => Raise e end.
Global Instance result_fmap : FMap result := λ A B f r,
  match r with Ok a => Ok (f a) | Raise e => Raise e end.

(** [o] or else the exception [e]: a lookup that raises when it fails. *)
Definition or_raise {A} (e : exn) (o : option A) : result A :=
  match o with Some a => Ok a | None => Raise e end.

(** A [for] loop that collects one value per iteration and stops at the
    first exception. *)
Fixpoint for_each {A B} (f : A → result B) (l : list A) : result (list B) :=
  match l with
  | [] => Ok []
  | x :: l' => y ← f x; ys ← for_each f l'; Ok (y :: ys)
  end.

(** ** Stream synchronisation ([generate_combined_data.py]) *)

Module Sync.

(** A pandas data frame under its default index: the row labelled [i] is
    the [i]-th element of the list. *)
Definition DataFrame (A : Type) : Type := list A.

(** Modelled from the spec: the readers' [crop] is in [wearable_toolkit],
    which is not among the sources. "[crop(stream, lag)] removes the leading
    [lag] samples ... so both streams reference the same physical instant
    zero": the first [start_index] rows are dropped and the remaining rows
    are labelled from zero again. *)
Definition crop {A} (start_index : Z) (df : DataFrame A) : DataFrame A :=
  drop (Z.to_nat start_index) df.

(** [pd.concat([a, b], axis=1)]: an outer join on the row labels; a label
    one frame lacks is filled with missing values in that frame's columns. *)
Definition pd_concat_axis1 {A B} (a : DataFrame A) (b : DataFrame B)
    : DataFrame (option A * option B) :=
  map (λ i, (a !! i, b !! i)) (seq 0 (length a `max` length b)).

(** [df.loc[:stop]]: a slice by label, and label slices include their end
    point. *)
Definition loc_upto {A} (stop : nat) (df : DataFrame A) : DataFrame A :=
  take (S stop) df.

Section sync_and_crop.
Context {Imu Vicon : Type}.

(** The body of [sync_and_crop_data_frame] from "crop redundant data" up
    to the truncation (lines 33-40). [first_event_index] is
    [imu_data.get_first_event_index()] and [vicon_imu_sync_delay] the lag
    [sync_via_correlation] found; both come from [wearable_toolkit]. *)
Definition sync_and_crop_data_frame
    (imu_data : DataFrame Imu) (vicon_data : DataFrame Vicon)
    (first_event_index vicon_imu_sync_delay : Z)
    : DataFrame (option Imu * option Vicon) :=
  let minimum_delay := Z.min (- first_event_index) vicon_imu_sync_delay in
  let vicon_delay := (0 - minimum_delay)%Z in
  let imu_delay := (vicon_imu_sync_delay - minimum_delay)%Z in
  let imu_data := crop imu_delay imu_data in
  let vicon_data := crop vicon_delay vicon_data in
  let min_length := length imu_data `min` length vicon_data in
  let middle_data := pd_concat_axis1 imu_data vicon_data in
  loc_upto min_length middle_data.

(** The two cropped streams, as [sync_and_crop_data_frame] forms them. *)
Definition cropped_imu (imu_data : DataFrame Imu)
    (first_event_index vicon_imu_sync_delay : Z) : DataFrame Imu :=
  crop (vicon_imu_sync_delay
        - Z.min (- first_event_index) vicon_imu_sync_delay)%Z imu_data.
Definition cropped_vicon (vicon_data : DataFrame Vicon)
    (first_event_index vicon_imu_sync_delay : Z) : DataFrame Vicon :=
  crop (0 - Z.min (- first_event_index) vicon_imu_sync_delay)%Z vicon_data.
End sync_and_crop.

End Sync.

(** ** Fold formation of [BaseModel.cross_validation] *)

(** [np.unique] on strings: sorted, each value once. *)
Fixpoint insert_unique (x : string) (l : list string) : list string :=
  match l with
  | [] => [x]
  | y :: l' =>
      if String.eqb x y then l
      else if String.ltb x y then x :: l
      else y :: insert_unique x l'
  end.

Definition np_unique (l : list string) : list string :=
  foldr insert_unique [] l.

(** [np.setdiff1d(ar1, ar2)]: the sorted, unique values of [ar1] that are
    not in [ar2]. *)
Definition setdiff1d (ar1 ar2 : list string) : list string :=
  filter (λ x, x ∉ ar2) (np_unique ar1).

(** [int(np.ceil(n / k))] for [k ≠ 0]. *)
Definition folder_num (n k : nat) : nat :=
  n / k + (if n mod k =? 0 then 0 else 1).

(** The test and train subjects of fold [i_folder] (lines 59-60). *)
Definition test_fold (sub_ids : list string) (test_set_sub_num i_folder : nat)
    : list string :=
  take (test_set_sub_num * (i_folder + 1) - test_set_sub_num * i_folder)
       (drop (test_set_sub_num * i_folder) sub_ids).

Definition train_fold (sub_ids : list string) (test_set_sub_num i_folder : nat)
    : list string :=
  setdiff1d sub_ids (test_fold sub_ids test_set_sub_num i_folder).

(** The folds the loop of [cross_validation] goes through, in order: the
    test subjects and the train subjects of each. *)
Definition cv_folds (sub_ids : list string) (test_set_sub_num : nat)
    : list (list string * list string) :=
  map (λ i_folder, (test_fold sub_ids test_set_sub_num i_folder,
                    train_fold sub_ids test_set_sub_num i_folder))
      (seq 0 (folder_num (length sub_ids) test_set_sub_num)).

(** ** numpy on numbers and on flat buffers *)

Module np.

Definition nan : float := PrimFloat.nan.
Definition isnan (x : float) : bool := PrimFloat.is_nan x.
Definition sqrt (x : float) : float := PrimFloat.sqrt x.
Definition abs (x : float) : float := PrimFloat.abs x.

(** The float64 of a count (exact below 2^53). *)
Fixpoint of_pos (p : positive) : float :=
  match p with
  | xH => 1
  | xO p' => 2 * of_pos p'
  | xI p' => 2 * of_pos p' + 1
  end%float.

Definition of_nat (n : nat) : float :=
  match N.of_nat n with N0 => 0%float | Npos p => of_pos p end.

(** [np.isfinite]: neither [nan] nor infinite. *)
Definition isfinite (x : float) : bool :=
  negb (isnan x) && negb (abs x =? infinity)%float.

(** The sum of a block of 8 to 128 values in numpy's pairwise summation:
    eight running sums, one per position modulo 8, over the groups of eight
    values; the eight sums added two by two; the values after the last
    full group added one by one. *)
Fixpoint add_groups (r a : list float) (groups : nat) : list float :=
  match groups with
  | 0 => r
  | S g => add_groups (zip_with PrimFloat.add r (take 8 a)) (drop 8 a) g
  end.

Definition block_sum (a : list float) : float :=
  let groups := length a / 8 in
  match add_groups (take 8 a) (drop 8 a) (groups - 1) with
  | [r0; r1; r2; r3; r4; r5; r6; r7] =>
      foldl PrimFloat.add (((r0 + r1) + (r2 + r3)) + ((r4 + r5) + (r6 + r7)))%float
            (drop (8 * groups) a)
  | _ => foldl PrimFloat.add (-0)%float a
  end.

(** numpy's pairwise summation of a contiguous array: fewer than 8 values
    are added from left to right (from [-0.0], which keeps the sign of a
    zero), up to 128 values as a block, and more values as the sum of two
    parts, the first of half the values rounded down to a multiple of 8.
    [depth] bounds the number of halvings; the length of the array is more
    than enough. *)
Fixpoint pairwise_sum (depth : nat) (a : list float) : float :=
  if length a <? 8 then foldl PrimFloat.add (-0)%float a
  else if length a <=? 128 then block_sum a
  else
    match depth with
    | 0 => block_sum a
    | S depth' =>
        let n2 := length a / 2 - (length a / 2) mod 8 in
        (pairwise_sum depth' (take n2 a) + pairwise_sum depth' (drop n2 a))%float
    end.

(** [np.add.reduce] over a contiguous float64 array, as [np.sum] and
    [np.mean] use it: 0 for an empty array, the pairwise sum otherwise. *)
Definition sum (l : list float) : float :=
  match l with [] => 0%float | _ => pairwise_sum (length l) l end.

(** [np.mean]; of an empty array it is [0/0], that is [nan] (numpy warns and
    does not raise). *)
Definition mean (l : list float) : float := (sum l / of_nat (length l))%float.

(** [np.maximum] and [np.minimum] propagate [nan]. *)
Definition maximum (a b : float) : float :=
  if isnan a then a else if isnan b then b else if (a <? b)%float then b else a.
Definition minimum (a b : float) : float :=
  if isnan a then a else if isnan b then b else if (b <? a)%float then b else a.

(** [a.max()] and [a.min()]: a reduction without identity, which raises
    [ValueError] on an array without elements. *)
Definition max (l : list float) : result float :=
  match l with [] => Raise ValueError | x :: l' => Ok (foldl maximum x l') end.
Definition min (l : list float) : result float :=
  match l with [] => Raise ValueError | x :: l' => Ok (foldl minimum x l') end.

(** [np.rint]: to the nearest integer, ties to even, by the 2^52 shift. *)
Definition rint (x : float) : float :=
  if (x =? 0)%float then x
  else if (abs x <? 4503599627370496)%float then
    let r := (abs x + 4503599627370496 - 4503599627370496)%float in
    if (x <? 0)%float then (- r)%float else r
  else x.

(** [np.round(x, 3)]: scale by [10^3], [rint], scale back. *)
Definition round3 (x : float) : float := (rint (x * 1000) / 1000)%float.

(** Number of elements of an array of the given shape. *)
Definition size (shape : list nat) : nat := foldr Nat.mul 1 shape.

(** The [n] rows of length [c] of a C-ordered buffer. *)
Fixpoint chunks {A} (c n : nat) (d : list A) : list (list A) :=
  match n with
  | 0 => []
  | S n' => take c d :: chunks c n' (drop c d)
  end.

(** [np.where(w)[0]] (that is, [np.nonzero]): the positions holding [True]. *)
Definition nonzero (w : list bool) : list nat :=
  map fst (filter (λ p, snd p = true) (imap (λ i b, (i, b)) w)).

(** [row[w]] for a boolean mask [w]: the entries at the [True] positions;
    the mask must be as long as the row. *)
Definition mask_select {A} (row : list A) (w : list bool) : result (list A) :=
  if decide (length w = length row)
  then Ok (map fst (filter (λ p, snd p = true) (zip row w)))
  else Raise IndexError.

End np.

(** ** The dictionaries of the pipeline *)

(** A Python [dict] with string keys, in insertion order. *)
Abbreviation dict V := (list (string * V)).

Definition dict_get {V} (d : dict V) (key : string) : option V :=
  (λ found, found.2.2) <$> list_find (λ kv, kv.1 = key) d.

(** [l.index(x)]: the first position of [x], [ValueError] when absent. *)
Definition list_index (l : list string) (x : string) : result nat :=
  or_raise ValueError (fst <$> list_find (λ y, y = x) l).

(** [enumerate(l)]. *)
Definition enumerate {A} (l : list A) : list (nat * A) := imap (λ i x, (i, x)) l.

(** ** The external collaborators *)

(** A scaler class in the scikit-learn estimator protocol ([base_scalar],
    [MinMaxScaler] by default): [fit] learns the parameters from an array of
    shape (samples, columns) and returns the estimator itself, [transform]
    returns the scaled array, and [fit_transform] is [fit] followed by
    [transform]. [St] is the state of one scaler object. *)
Class Scaler (St : Type) := {
  base_scalar : St;
  sc_fit : St → list (list float) → result St;
  sc_transform : St → list (list float) → result (list (list float));
}.

(** The metric functions [get_column_score] imports: [r2_score] and
    [mean_squared_error] from scikit-learn, and the coefficient (first
    component) of scipy's [pearsonr]. *)
Class Metrics := {
  r2_score : list float → list float → result float;
  mse : list float → list float → result float;
  pearsonr : list float → list float → result float;
}.

(** [sklearn.utils.shuffle(a, random_state=0)]: the order in which a seeded
    generator puts the [n] entries of the first axis. *)
Class Shuffle := shuffle_indices : nat → list nat.

(** ** Arrays, the heap and the pipeline monad *)

(** A numpy array object: the buffer it looks at and its shape. A copy has
    a buffer of its own; a view ([reshape]) shares the buffer of its base. *)
Record ndarray := NdArray { buf : nat; shape : list nat }.

(** What the pipeline acts on: the array buffers, and the scaler objects of
    [self._data_scalar], one per field group. *)
Record state (St : Type) := State {
  heap : list (list float);
  _data_scalar : gmap string St;
}.
Arguments State {St} _ _.
Arguments heap {St} _.
Arguments _data_scalar {St} _.

(** A computation may raise; what it did to the state before stays done. *)
Definition M (St A : Type) : Type := state St → result A * state St.

Global Instance M_ret {St} : MRet (M St) := λ A a s, (Ok a, s).
Global Instance M_bind {St} : MBind (M St) := λ A B f m s,
  match m s with
  | (Ok a, s') => f a s'
  | (Raise e, s') => (Raise e, s')
  end.
Global Instance M_fmap {St} : FMap (M St) := λ A B f m s,
  match m s with
  | (Ok a, s') => (Ok (f a), s')
  | (Raise e, s') => (Raise e, s')
  end.

Definition lift {St A} (r : result A) : M St A := λ s, (r, s).
Definition raise {St A} (e : exn) : M St A := λ s, (Raise e, s).

(** The model capability: [train_model(x_train, y_train, x_validation,
    y_validation, validation_weight)] and [predict(model, x_test)], which the
    subclasses of [BaseModel] implement. *)
Class Model (St Mdl : Type) := {
  train_model : dict ndarray → dict ndarray → option (dict ndarray) →
                option (dict ndarray) → option (dict ndarray) → M St Mdl;
  predict : Mdl → dict ndarray → M St (dict ndarray);
}.

(** The attributes of a [BaseModel] that stay as [__init__] set them. The
    arrays of [_data_all_sub] are in the heap. *)
Record BaseModel := {
  _x_fields : dict (list string);
  _y_fields : dict (list string);
  _weights : dict (list string);
  _data_all_sub : gmap string ndarray;
  _data_fields : list string;
}.

(** The methods of a scaler that [normalize_data] is given the name of. *)
Inductive method : Set := fit | transform | fit_transform.

(** The two values [scalar_mode] may have (line 132 asserts it). *)
Inductive scalar_mode : Set := by_each_column | by_all_columns.

(** What a scaler method returns: an array, or the scaler itself. *)
Inductive pyobj : Set :=
  | PyArray (a : ndarray)
  | PyScaler (input_name : string).

(** One record of the score table. *)
Record score := Score {
  subject : option string;
  output : string;
  field : string;
  r2 : list float;
  r2_all : list float;
  rmse : list float;
  mae : list float;
  r_rmse : list float;
  cor_value : list float;
}.

(** What [get_column_score] returns: per step, the five metrics and the
    pooled R2. *)
Record column_score := ColumnScore {
  col_r2 : list float;
  col_r2_all : list float;
  col_rmse : list float;
  col_mae : list float;
  col_r_rmse : list float;
  col_cor_value : list float;
}.

(** The arguments of one call of [train_model]. *)
Record train_call := TrainCall {
  x_train : dict ndarray;
  y_train : dict ndarray;
  x_validation : option (dict ndarray);
  y_validation : option (dict ndarray);
  validation_weight : option (dict ndarray);
}.

(** One record of the table of means. *)
Record mean_score := MeanScore {
  mean_output : string;
  mean_field : string;
  mean_r2 : float;
  mean_rmse : float;
  mean_mae : float;
  mean_r_rmse : float;
  mean_cor_value : float;
}.

Module Kam.
Section pipeline.
Context {St Mdl : Type}.
Context {scaler : Scaler St} {model : Model St Mdl}.
Context {metrics : Metrics} {shuffler : Shuffle}.
Context (self : BaseModel).

Local Abbreviation M := (M St).

(** *** Buffers *)

Definition alloc (d : list float) (sh : list nat) : M ndarray := λ s,
  (Ok (NdArray (length (heap s)) sh), State (heap s ++ [d]) (_data_scalar s)).

Definition load (a : ndarray) : M (list float) := λ s,
  (or_raise MemoryError (heap s !! buf a), s).

Definition store (a : ndarray) (d : list float) : M unit := λ s,
  (Ok (), State (<[buf a := d]> (heap s)) (_data_scalar s)).

(** *** numpy on arrays *)

(** [a.copy()]. *)
Definition copy (a : ndarray) : M ndarray :=
  d ← load a; alloc d (shape a).

(** [a[:, :, cols]] for a list of column positions: advanced indexing,
    which builds a new array. *)
Definition take_cols (a : ndarray) (cols : list nat) : M ndarray :=
  match shape a with
  | [n; s; c] =>
      d ← load a;
      rows ← lift (for_each
                (λ row, for_each (λ k, or_raise IndexError (row !! k)) cols)
                (np.chunks c (n * s) d));
      alloc (concat rows) [n; s; length cols]
  | _ => raise IndexError
  end.

(** [np.concatenate(arrays, axis=0)]. *)
Definition concatenate (arrays : list ndarray) : M ndarray :=
  match arrays with
  | [] => raise ValueError
  | a0 :: _ =>
      match shape a0 with
      | [] => raise ValueError
      | _ :: rest =>
          ns ← lift (for_each
                  (λ a, match shape a with
                        | n :: rest' =>
                            if decide (rest' = rest) then Ok n else Raise ValueError
                        | [] => Raise ValueError
                        end) arrays);
          ds ← mapM load arrays;
          alloc (concat ds) (sum_list ns :: rest)
      end
  end.

(** [shuffle(a, random_state=0)]: a new array with the entries of the
    first axis in the shuffled order. *)
Definition shuffle (a : ndarray) : M ndarray :=
  match shape a with
  | [] => raise ValueError
  | n :: rest =>
      d ← load a;
      let steps := np.chunks (np.size rest) n d in
      picked ← lift (for_each (λ i, or_raise IndexError (steps !! i))
                              (shuffle_indices n));
      alloc (concat picked) (length picked :: rest)
  end.

(** *** Field extraction *)

(** The body of the loop of [_get_raw_data_dict] (lines 41-42). *)
Definition extract_group (data : ndarray) (input_name : string)
    (input_fields : list string) : M (string * ndarray) :=
  x_field_col_loc ← lift (for_each (list_index (_data_fields self))
                                   input_fields);
  picked ← take_cols data x_field_col_loc;
  picked ← copy picked;
  mret (input_name, picked).

Definition _get_raw_data_dict (data : ndarray) (fields_dict : dict (list string))
    : M (dict ndarray) :=
  mapM (λ '(input_name, input_fields), extract_group data input_name input_fields)
       fields_dict.

(** *** Normalisation *)

(** A sample whose values are all zero. *)
Definition is_padding (row : list float) : bool :=
  forallb (λ x, (x =? 0)%float) row.

(** The rows after [input_data[(input_data == 0.).all(axis=2), :] = np.nan]. *)
Definition mask_padding (rows : list (list float)) : list (list float) :=
  map (λ row, if is_padding row then map (λ _, np.nan) row else row) rows.

(** The values after [input_data[np.isnan(input_data)] = 0.]. *)
Definition nan_to_zero (d : list float) : list float :=
  map (λ x, if np.isnan x then 0%float else x) d.

(** [a.reshape([-1, ncols])]: a view of [a]; the unknown dimension cannot
    be inferred when [ncols] is 0. *)
Definition reshape_rows (a : ndarray) (ncols : nat) : result ndarray :=
  if decide (ncols = 0) then Raise ValueError
  else if decide (np.size (shape a) `mod` ncols = 0)
  then Ok (NdArray (buf a) [np.size (shape a) `div` ncols; ncols])
  else Raise ValueError.

(** [r.reshape(original_shape)] on what the scaler method returned: a view
    of the returned array when the sizes agree; a scaler object has no
    [reshape]. *)
Definition reshape_back (r : pyobj) (original_shape : list nat) : result ndarray :=
  match r with
  | PyScaler _ => Raise AttributeError
  | PyArray a =>
      if decide (np.size (shape a) = np.size original_shape)
      then Ok (NdArray (buf a) original_shape)
      else Raise ValueError
  end.

(** The rows of a two-dimensional array. *)
Definition load_rows (a : ndarray) : M (list (list float)) :=
  match shape a with
  | [r; c] => d ← load a; mret (np.chunks c r d)
  | _ => raise ValueError
  end.

Definition get_scalar (input_name : string) : M St := λ s,
  (or_raise KeyError (_data_scalar s !! input_name), s).

Definition set_scalar (input_name : string) (sc : St) : M unit := λ s,
  (Ok (), State (heap s) (<[input_name := sc]> (_data_scalar s))).

(** [getattr(scalars[input_name], method)(input_data)]. The array a
    transformer returns is a new one, of the shape (samples, columns) of
    its input. *)
Definition call_scalar (input_name : string) (m : method) (input_data : ndarray)
    : M pyobj :=
  sc ← get_scalar input_name;
  X ← load_rows input_data;
  match m with
  | fit =>
      sc ← lift (sc_fit sc X);
      set_scalar input_name sc;;
      mret (PyScaler input_name)
  | transform =>
      out ← lift (sc_transform sc X);
      PyArray <$> alloc (concat out) (shape input_data)
  | fit_transform =>
      sc ← lift (sc_fit sc X);
      set_scalar input_name sc;;
      out ← lift (sc_transform sc X);
      PyArray <$> alloc (concat out) (shape input_data)
  end.

(** The columns of [target_shape] (line 137). *)
Definition target_cols (mode : scalar_mode) (c : nat) : nat :=
  match mode with by_each_column => c | by_all_columns => 1 end.

(** The body of the loop of [normalize_data] (lines 135-143). *)
Definition normalize_one (m : method) (mode : scalar_mode)
    (input_name : string) (input_data : ndarray) : M ndarray :=
  input_data ← copy input_data;
  let original_shape := shape input_data in
  match original_shape with
  | [n; s; c] =>
      d ← load input_data;
      store input_data (concat (mask_padding (np.chunks c (n * s) d)));;
      view ← lift (reshape_rows input_data (target_cols mode c));
      r ← call_scalar input_name m view;
      input_data ← lift (reshape_back r original_shape);
      d ← load input_data;
      store input_data (nan_to_zero d);;
      mret input_data
  | _ => raise IndexError
  end.

Definition normalize_data (data : dict ndarray) (m : method) (mode : scalar_mode)
    : M (dict ndarray) :=
  mapM (λ '(input_name, input_data),
          scaled ← normalize_one m mode input_name input_data;
          mret (input_name, scaled))
       data.

Definition preprocess_train_data (x y : dict ndarray)
    : M (dict ndarray * dict ndarray) :=
  normalize_data x fit_transform by_each_column;;
  mret (x, y).

Definition preprocess_validation_test_data (x y : dict ndarray)
    : M (dict ndarray * dict ndarray) :=
  normalize_data x transform by_each_column;;
  mret (x, y).

(** *** Scoring *)

(** The body of the loop of [get_column_score] (lines 169-173): the five
    metrics of one step, from its selected true and predicted values. *)
Definition step_score (arr_true_i arr_pred_i : list float)
    : result (float * float * float * float * float) :=
  r2_i ← r2_score arr_true_i arr_pred_i;
  mse_i ← mse arr_true_i arr_pred_i;
  let rmse_i := np.sqrt mse_i in
  let mae_i := np.mean (map np.abs (zip_with PrimFloat.sub arr_true_i arr_pred_i)) in
  true_max ← np.max arr_true_i;
  pred_max ← np.max arr_pred_i;
  true_min ← np.min arr_true_i;
  pred_min ← np.min arr_pred_i;
  let r_rmse_i := (rmse_i / (true_max + pred_max - true_min - pred_min) / 2)%float in
  cor_value_i ← pearsonr arr_true_i arr_pred_i;
  Ok (r2_i, rmse_i, mae_i, r_rmse_i, cor_value_i).

(** [arr_true[i, w[i, :]]] and [arr_pred[i, w[i, :]]] (lines 166-167). *)
Definition masked_step (arr_true arr_pred : list (list float))
    (w : list (list bool)) (i : nat) : result (list float * list float) :=
  true_row ← or_raise IndexError (arr_true !! i);
  w_i ← or_raise IndexError (w !! i);
  arr_true_i ← np.mask_select true_row w_i;
  pred_row ← or_raise IndexError (arr_pred !! i);
  arr_pred_i ← np.mask_select pred_row w_i;
  Ok (arr_true_i, arr_pred_i).

Definition get_column_score (arr_true arr_pred : list (list float))
    (w : list (list bool)) : result column_score :=
  steps ← for_each (λ i, '(arr_true_i, arr_pred_i) ← masked_step arr_true arr_pred w i;
                         step_score arr_true_i arr_pred_i)
                   (seq 0 (length arr_true));
  let locs := np.nonzero (concat w) in
  true_all ← for_each (λ l, or_raise IndexError (concat arr_true !! l)) locs;
  pred_all ← for_each (λ l, or_raise IndexError (concat arr_pred !! l)) locs;
  r2_all ← r2_score true_all pred_all;
  Ok {| col_r2 := map (λ t, t.1.1.1.1) steps;
        col_r2_all := map (λ _, r2_all) steps;
        col_rmse := map (λ t, t.1.1.1.2) steps;
        col_mae := map (λ t, t.1.1.2) steps;
        col_r_rmse := map (λ t, t.1.2) steps;
        col_cor_value := map (λ t, t.2) steps |}.

(** The values of [a[:, :, col]], step by step. *)
Definition field_column (a : ndarray) (col : nat) : M (list (list float)) :=
  match shape a with
  | [n; s; c] =>
      d ← load a;
      vals ← lift (for_each (λ row, or_raise IndexError (row !! col))
                            (np.chunks c (n * s) d));
      mret (np.chunks s n vals)
  | _ => raise IndexError
  end.

Definition get_all_scores (y_true y_pred : dict ndarray)
    (weights : option (dict ndarray)) : M (list score) :=
  let weights := default [] weights in
  scores ← mapM (λ '(output_name, fields),
    mapM (λ '(col, field),
            true_arr ← lift (or_raise KeyError (dict_get y_true output_name));
            y_true_one_field ← field_column true_arr col;
            pred_arr ← lift (or_raise KeyError (dict_get y_pred output_name));
            y_pred_one_field ← field_column pred_arr col;
            weight_one_field ←
              match dict_get weights output_name with
              | Some weight_arr =>
                  weight_col ← field_column weight_arr col;
                  mret (map (map (λ x, (x =? 1)%float)) weight_col)
              | None => mret (map (map (λ _, true)) y_true_one_field)
              end;
            cs ← lift (get_column_score y_true_one_field y_pred_one_field
                                        weight_one_field);
            mret {| subject := None; output := output_name; field := field;
                    r2 := col_r2 cs; r2_all := col_r2_all cs;
                    rmse := col_rmse cs; mae := col_mae cs;
                    r_rmse := col_r_rmse cs; cor_value := col_cor_value cs |})
         (enumerate fields))
    (_y_fields self);
  mret (concat scores).

(** *** Training and evaluation *)

Definition subject_data (sub_name : string) : result ndarray :=
  or_raise KeyError (_data_all_sub self !! sub_name).

(** [preprocess_and_train] up to the call of [train_model] (lines 84-99):
    the five arguments of that call. *)
Definition prepare_train_call (train_sub_ids validate_sub_ids : list string)
    : M train_call :=
  train_data_list ← lift (for_each subject_data train_sub_ids);
  train_data ← concatenate train_data_list;
  train_data ← shuffle train_data;
  x_train ← _get_raw_data_dict train_data (_x_fields self);
  y_train ← _get_raw_data_dict train_data (_y_fields self);
  '(x_train, y_train) ← preprocess_train_data x_train y_train;
  validation_data_list ← lift (for_each subject_data validate_sub_ids);
  match validation_data_list with
  | [] => mret (TrainCall x_train y_train None None None)
  | _ =>
      validation_data ← concatenate validation_data_list;
      x_validation ← _get_raw_data_dict validation_data (_x_fields self);
      y_validation ← _get_raw_data_dict validation_data (_y_fields self);
      validation_weight ← _get_raw_data_dict validation_data (_weights self);
      '(x_validation, y_validation) ←
        preprocess_validation_test_data x_validation y_validation;
      mret (TrainCall x_train y_train (Some x_validation) (Some y_validation)
                      (Some validation_weight))
  end.

Definition preprocess_and_train (train_sub_ids validate_sub_ids : list string)
    : M Mdl :=
  call ← prepare_train_call train_sub_ids validate_sub_ids;
  train_model (x_train call) (y_train call) (x_validation call)
              (y_validation call) (validation_weight call).

(** The body of the loop of [model_evaluation] up to the call of [predict]
    (lines 107-111): the test input, the true output and the weights of
    one test subject. *)
Definition prepare_predict_call (test_sub_data : ndarray)
    : M (dict ndarray * dict ndarray * dict ndarray) :=
  test_sub_x ← _get_raw_data_dict test_sub_data (_x_fields self);
  test_sub_y ← _get_raw_data_dict test_sub_data (_y_fields self);
  test_sub_weight ← _get_raw_data_dict test_sub_data (_weights self);
  '(test_sub_x, test_sub_y) ← preprocess_validation_test_data test_sub_x test_sub_y;
  mret (test_sub_x, test_sub_y, test_sub_weight).

(** [customized_analysis] and [print_table] draw and print: they read the
    arrays and the records and write to none. *)
Definition model_evaluation (model : Mdl) (test_sub_ids : list string)
    : M (list score) :=
  test_data_list ← lift (for_each subject_data test_sub_ids);
  test_results ← mapM (λ '(test_sub_id, test_sub_name),
    test_sub_data ← lift (or_raise IndexError (test_data_list !! test_sub_id));
    '(test_sub_x, test_sub_y, test_sub_weight) ← prepare_predict_call test_sub_data;
    pred_sub_y ← predict model test_sub_x;
    all_scores ← get_all_scores test_sub_y pred_sub_y (Some test_sub_weight);
    mret (map (λ scores, {| subject := Some test_sub_name;
                            output := output scores; field := field scores;
                            r2 := r2 scores; r2_all := r2_all scores;
                            rmse := rmse scores; mae := mae scores;
                            r_rmse := r_rmse scores;
                            cor_value := cor_value scores |}) all_scores))
    (enumerate test_sub_ids);
  mret (concat test_results).

Definition preprocess_train_evaluation
    (train_sub_ids validate_sub_ids test_sub_ids : list string) : M (list score) :=
  model ← preprocess_and_train train_sub_ids validate_sub_ids;
  model_evaluation model test_sub_ids.

(** *** Cross-validation *)

(** [np.round(np.mean(np.concatenate(arrays)), 3)]; [np.concatenate] needs
    at least one array. *)
Definition mean_of_concatenation (arrays : list (list float)) : result float :=
  match arrays with
  | [] => Raise ValueError
  | _ => Ok (np.round3 (np.mean (concat arrays)))
  end.

(** The second loop of [cross_validation] (lines 65-75). *)
Definition mean_results_of (results : list score) : result (list mean_score) :=
  mean_results ← for_each (λ '(output_name, output_fields),
    for_each (λ field_name,
      let field_results :=
        filter (λ x, output x = output_name ∧ field x = field_name) results in
      r2 ← mean_of_concatenation (map r2 field_results);
      rmse ← mean_of_concatenation (map rmse field_results);
      mae ← mean_of_concatenation (map mae field_results);
      r_rmse ← mean_of_concatenation (map r_rmse field_results);
      cor_value ← mean_of_concatenation (map cor_value field_results);
      Ok {| mean_output := output_name; mean_field := field_name;
            mean_r2 := r2; mean_rmse := rmse; mean_mae := mae;
            mean_r_rmse := r_rmse; mean_cor_value := cor_value |})
      output_fields)
    (_y_fields self);
  Ok (concat mean_results).

(** The first loop of [cross_validation] (lines 58-62): the score records
    of all folds, in fold order. *)
Definition run_folds (folds : list (list string * list string)) : M (list score) :=
  results ← mapM (λ '(test_sub_ids, train_sub_ids),
    preprocess_train_evaluation train_sub_ids test_sub_ids test_sub_ids) folds;
  mret (concat results).

(** [cross_validation]: the two tables it prints, the records of all
    folds and the means. *)
Definition cross_validation (sub_ids : list string) (test_set_sub_num : nat)
    : M (list score * list mean_score) :=
  if decide (test_set_sub_num = 0) then raise ZeroDivisionError
  else
    results ← run_folds (cv_folds sub_ids test_set_sub_num);
    mean_results ← lift (mean_results_of results);
    mret (results, mean_results).
End pipeline.
End Kam.

(** ** Reference collaborators

    Models of the library code the pipeline is run with: scikit-learn's
    [MinMaxScaler], its metrics, and a model capability that records what it
    is handed. They instantiate the classes above where a property is
    evaluated on concrete data. *)

Module MinMaxScaler.

(** The fitted attributes: per column, [scale_] and [min_]. *)
Definition fitted : Type := list (float * float).

(** [np.nanmin] and [np.nanmax]: [nan] entries are disregarded; of nothing
    but [nan] the result is [nan]. *)
Definition nanmin (col : list float) : float :=
  match filter (λ x, np.isnan x = false) col with
  | [] => np.nan
  | x :: l => foldl np.minimum x l
  end.
Definition nanmax (col : list float) : float :=
  match filter (λ x, np.isnan x = false) col with
  | [] => np.nan
  | x :: l => foldl np.maximum x l
  end.

Definition column (X : list (list float)) (k : nat) : list float :=
  map (λ row, default np.nan (row !! k)) X.

(** [_handle_zeros_in_scale]: a column whose range is below ten machine
    epsilons counts as constant and is scaled by 1. *)
Definition handle_zeros (data_range : float) : float :=
  if (data_range <? 10 * 0x1p-52)%float then 1%float else data_range.

(** [check_array(X, force_all_finite="allow-nan")]: [nan] is let through,
    an infinite value is not. *)
Definition no_inf (X : list (list float)) : bool :=
  forallb (forallb (λ x, negb (np.abs x =? infinity)%float)) X.

(** [scale_] and [min_] of one column, for [feature_range = (0, 1)]. *)
Definition fit_column (col : list float) : float * float :=
  let scale := (1 / handle_zeros (nanmax col - nanmin col))%float in
  (scale, (0 - nanmin col * scale)%float).

(** [fit]. It wants at least one sample and one column, and no infinite
    value. *)
Definition fit (st : option fitted) (X : list (list float)) : result (option fitted) :=
  match X with
  | [] => Raise ValueError
  | row0 :: _ =>
      let c := length row0 in
      if decide (c = 0 ∨ ¬ Forall (λ row, length row = c) X) then Raise ValueError
      else if no_inf X then Ok (Some (map (λ k, fit_column (column X k)) (seq 0 c)))
      else Raise ValueError
  end.

(** [transform]: [X * scale_ + min_], column by column; it wants a fitted
    scaler, samples of the fitted number of columns and no infinite
    value. *)
Definition transform (st : option fitted) (X : list (list float))
    : result (list (list float)) :=
  match st with
  | None => Raise NotFittedError
  | Some f =>
      if decide (X = [] ∨ ¬ Forall (λ row, length row = length f) X)
      then Raise ValueError
      else if no_inf X
      then Ok (map (λ row, zip_with (λ x sm, (x * sm.1 + sm.2)%float) row f) X)
      else Raise ValueError
  end.

Global Instance scaler : Scaler (option fitted) := {
  base_scalar := None;
  sc_fit := fit;
  sc_transform := transform;
}.

End MinMaxScaler.

Module Reference.

(** What scikit-learn wants of the targets of a metric
    ([_check_reg_targets]): as many predictions as true values, at least
    one, and none of them [nan] or infinite. *)
Definition targets_ok (y_true y_pred : list float) : bool :=
  bool_decide (length y_true = length y_pred ∧ y_true ≠ [])
  && forallb np.isfinite (y_true ++ y_pred).

(** [sklearn.metrics.mean_squared_error]. *)
Definition mean_squared_error (y_true y_pred : list float) : result float :=
  if targets_ok y_true y_pred
  then Ok (np.mean (zip_with (λ t p, ((t - p) * (t - p))%float) y_true y_pred))
  else Raise ValueError.

(** [sklearn.metrics.r2_score]: undefined, with a warning, on fewer than two
    samples; [1 - SS_res / SS_tot] otherwise, and 1 or 0 for a constant
    [y_true]. *)
Definition r2 (y_true y_pred : list float) : result float :=
  if negb (targets_ok y_true y_pred) then Raise ValueError
  else if decide (length y_true < 2) then Ok np.nan
  else
    let numerator := np.sum (zip_with (λ t p, ((t - p) * (t - p))%float) y_true y_pred) in
    let avg := np.mean y_true in
    let denominator := np.sum (map (λ t, ((t - avg) * (t - avg))%float) y_true) in
    Ok (if (denominator =? 0)%float
        then if (numerator =? 0)%float then 1%float else 0%float
        else (1 - numerator / denominator)%float).

(** [np.sign]. *)
Definition sign (x : float) : float :=
  if np.isnan x then x
  else if (0 <? x)%float then 1%float
  else if (x <? 0)%float then (-1)%float else 0%float.

(** An array all of whose values equal its first. *)
Definition constant (x : list float) : bool :=
  match x with [] => true | x0 :: _ => forallb (λ a, (a =? x0)%float) x end.

(** The coefficient of [scipy.stats.pearsonr]. It refuses arrays of
    different lengths and arrays of fewer than two values with
    [ValueError]; it is [nan], with a warning, when one of the arrays is
    constant, and the product of the signs of the two differences for two
    values; for more values it is the product of the centred arrays, each
    divided by its norm, clipped to [-1, 1]. *)
Definition pearson (x y : list float) : result float :=
  if decide (length x ≠ length y) then Raise ValueError
  else if decide (length x < 2) then Raise ValueError
  else if constant x || constant y then Ok np.nan
  else
    match x, y with
    | [x0; x1], [y0; y1] => Ok (sign (x1 - x0) * sign (y1 - y0))%float
    | _, _ =>
        let mx := np.mean x in
        let my := np.mean y in
        let xm := map (λ a, (a - mx)%float) x in
        let ym := map (λ a, (a - my)%float) y in
        let normxm := np.sqrt (np.sum (map (λ a, (a * a)%float) xm)) in
        let normym := np.sqrt (np.sum (map (λ a, (a * a)%float) ym)) in
        let r := np.sum (zip_with PrimFloat.mul
                           (map (λ a, (a / normxm)%float) xm)
                           (map (λ a, (a / normym)%float) ym)) in
        Ok (if (1 <? r)%float then 1%float
            else if (r <? -1)%float then (-1)%float else r)
    end.

Global Instance metrics : Metrics := {
  r2_score := r2;
  mse := mean_squared_error;
  pearsonr := pearson;
}.

(** A fixed reordering, the last entry first: the order of the seeded
    generator for two entries, and a stand-in for it beyond. *)
Global Instance reversing : Shuffle := λ n, reverse (seq 0 n).

(** What a recording model keeps of a call of [train_model]: the values of
    the arrays it was handed, group by group. *)
Record recorded := Recorded {
  seen_x_train : dict (list float);
  seen_y_train : dict (list float);
  seen_x_validation : option (dict (list float));
  seen_y_validation : option (dict (list float));
  seen_validation_weight : option (dict (list float));
}.

Section recording.
Context {St : Type}.

Definition values (d : dict ndarray) : M St (dict (list float)) :=
  mapM (λ '(name, a), v ← Kam.load a; mret (name, v)) d.

Definition values_opt (d : option (dict ndarray)) : M St (option (dict (list float))) :=
  match d with
  | None => mret None
  | Some d => Some <$> values d
  end.

(** [train_model] keeps what it sees; [predict] answers, for every output
    group of [outputs], with a copy of the first input group. *)
Definition recording (outputs : list string) : Model St recorded := {|
  train_model x y xv yv w :=
    x ← values x; y ← values y;
    xv ← values_opt xv; yv ← values_opt yv; w ← values_opt w;
    mret (Recorded x y xv yv w);
  predict _ x_test :=
    match x_test with
    | [] => raise KeyError
    | (_, a) :: _ => mapM (λ name, p ← Kam.copy a; mret (name, p)) outputs
    end;
|}.
End recording.

End Reference.

(** ** A small data set

    Two subjects with the columns [AccelX], [AccelY], [KAM] and [phase]: the
    first with two steps of two samples, the second with one step. The
    input group is the accelerometer, the output the moment, the weight the
    phase. *)

Module Example.

Definition self : BaseModel := {|
  _x_fields := [("main_input_acc", ["AccelX"; "AccelY"])];
  _y_fields := [("output", ["KAM"])];
  _weights := [("output", ["phase"])];
  _data_all_sub := list_to_map [("s1", NdArray 0 [2; 2; 4]); ("s2", NdArray 1 [1; 2; 4])];
  _data_fields := ["AccelX"; "AccelY"; "KAM"; "phase"];
|}.

Definition s1_values : list float :=
  [2; 4; 1; 1;   4; 6; 3; 1;
   6; 8; 3; 1;   5; 4; 2; 1]%float.

Definition s2_values : list float := [1; 1; 5; 1;   3; 2; 7; 1]%float.

(** The store as loaded, the scalers as [__init__] creates them. *)
Definition loaded : state (option MinMaxScaler.fitted) := {|
  heap := [s1_values; s2_values];
  _data_scalar := list_to_map [("main_input_acc", base_scalar); ("output", base_scalar)];
|}.

(** The same store with other values for the second subject. *)
Definition loaded' : state (option MinMaxScaler.fitted) := {|
  heap := [s1_values; [9; 9; 5; 1;   3; 2; 7; 1]%float];
  _data_scalar := list_to_map [("main_input_acc", base_scalar); ("output", base_scalar)];
|}.

(** The model answers with the first accelerometer axis. *)
Definition model : Model (option MinMaxScaler.fitted) Reference.recorded :=
  Reference.recording ["output"].

(** An input group of two steps of two samples whose second sample is
    padding, and one with a [nan] in the raw data. *)
Definition padded : state (option MinMaxScaler.fitted) := {|
  heap := [[2; 4;   0; 0;   6; 8;   4; 4]%float];
  _data_scalar := list_to_map [("main_input_acc", base_scalar)];
|}.

Definition with_nan : state (option MinMaxScaler.fitted) := {|
  heap := [[2; 4;   np.nan; 5;   6; 8;   4; 4]%float];
  _data_scalar := list_to_map [("main_input_acc", base_scalar)];
|}.

Definition acc : ndarray := NdArray 0 [2; 2; 2].

End Example.

(** ** Vocabulary of the properties *)

(** What [scipy.stats.pearsonr] does with arrays of fewer than two values:
    it raises [ValueError] (a correlation wants at least two points). *)
Class StrictPearson (metrics : Metrics) : Prop :=
  pearsonr_needs_two_values x y : length x < 2 → pearsonr x y = Raise ValueError.

(** A row of nothing but [nan]. *)
Definition all_nan (row : list float) : bool := forallb np.isnan row.

(** What scikit-learn documents of its scalers: "NaNs are treated as
    missing values: disregarded in fit, and maintained in transform". A
    transformed array has the shape of its input and a [nan] wherever the
    input has one; fitting is insensitive to samples that are [nan] in every
    column, as long as a sample of another kind is left. *)
Class NanAware {St} (scaler : Scaler St) : Prop := {
  transform_maintains_nan st X out :
    sc_transform st X = Ok out →
    Forall2 (Forall2 (λ x y, np.isnan x = true → np.isnan y = true)) X out;
  fit_disregards_nan st c X :
    Forall (λ row, length row = c) X →
    Exists (λ row, all_nan row = false) X →
    sc_fit st X = sc_fit st (filter (λ row, all_nan row = false) X);
}.

(** The two-dimensional array a scaler is handed, from the samples (rows
    over the columns of the group): the samples themselves, or every value
    as a row of its own. *)
Definition scaler_input (mode : scalar_mode) (samples : list (list float))
    : list (list float) :=
  match mode with
  | by_each_column => samples
  | by_all_columns => map (λ x, [x]) (concat samples)
  end.

(** The buffers of the arrays of a dictionary. *)
Definition bufs (d : dict ndarray) : list nat := map (λ kv, buf kv.2) d.
Definition bufs_opt (d : option (dict ndarray)) : list nat :=
  from_option bufs [] d.

(** A model capability that writes to no buffer but those of the arrays it
    is handed and those it creates. *)
Class Framed {St Mdl} (model : Model St Mdl) : Prop := {
  train_model_frame x y xv yv vw (s : state St) l :
    l < length (heap s) →
    l ∉ bufs x ++ bufs y ++ bufs_opt xv ++ bufs_opt yv ++ bufs_opt vw →
    heap (train_model x y xv yv vw s).2 !! l = heap s !! l;
  train_model_grows x y xv yv vw (s : state St) :
    length (heap s) ≤ length (heap (train_model x y xv yv vw s).2);
  predict_frame m x (s : state St) l :
    l < length (heap s) → l ∉ bufs x →
    heap (predict m x s).2 !! l = heap s !! l;
  predict_grows m x (s : state St) :
    length (heap s) ≤ length (heap (predict m x s).2);
}.

(** [m] holds the means of the score records of its (output, field) pair
    among [results]: per metric, the rounded mean of the concatenation of
    their per-step values. *)
Definition mean_of (results : list score) (m : mean_score) : Prop :=
  let field_results :=
    filter (λ x, output x = mean_output m ∧ field x = mean_field m) results in
  field_results ≠ []
  ∧ mean_r2 m = np.round3 (np.mean (concat (map r2 field_results)))
  ∧ mean_rmse m = np.round3 (np.mean (concat (map rmse field_results)))
  ∧ mean_mae m = np.round3 (np.mean (concat (map mae field_results)))
  ∧ mean_r_rmse m = np.round3 (np.mean (concat (map r_rmse field_results)))
  ∧ mean_cor_value m = np.round3 (np.mean (concat (map cor_value field_results))).

Section vocabulary.
Context {St Mdl : Type}.
Context {scaler : Scaler St} {model : Model St Mdl}.
Context {metrics : Metrics} {shuffler : Shuffle}.

(** The shape and the values of an array in a state. *)
Definition val (s : state St) (arr : ndarray) : list nat * option (list float) :=
  (shape arr, heap s !! buf arr).

(** The content of a dictionary of arrays in a state: per group, the
    shape and the values. *)
Definition contents (s : state St) (d : dict ndarray)
    : dict (list nat * option (list float)) :=
  map (λ kv, (kv.1, val s kv.2)) d.

(** [s'] has the buffers of [s], with the same values, and maybe more. *)
Definition grows (s s' : state St) : Prop :=
  take (length (heap s)) (heap s') = heap s.

(** [m], started with at least [w] buffers, leaves the first [w] as they
    are, whether it returns or raises; what it returns satisfies [Q]. *)
Definition protects {A} (w : nat) (m : M St A) (Q : A → Prop) : Prop :=
  ∀ s, w ≤ length (heap s) →
    take w (heap (m s).2) = take w (heap s)
    ∧ match (m s).1 with Ok a => Q a | Raise _ => True end.

(** The arrays of a dictionary have their buffers at or above [w]. *)
Definition above (w : nat) (d : dict ndarray) : Prop :=
  Forall (λ kv, w ≤ buf kv.2) d.

(** The arrays of a call of [train_model] have their buffers at or
    above [w]. *)
Definition call_above (w : nat) (c : train_call) : Prop :=
  above w (x_train c) ∧ above w (y_train c)
  ∧ from_option (above w) True (x_validation c)
  ∧ from_option (above w) True (y_validation c)
  ∧ from_option (above w) True (validation_weight c).

(** The runs of a loop body over a list that all return: the values
    returned and the state after the last. *)
Inductive loop_run {A B} (f : A → M St B)
    : list A → state St → list B → state St → Prop :=
  | loop_run_nil s : loop_run f [] s [] s
  | loop_run_cons x l s y s1 ys s2 :
      f x s = (Ok y, s1) → loop_run f l s1 ys s2 →
      loop_run f (x :: l) s (y :: ys) s2.

(** The operations of the pipeline a caller may invoke, calibration
    apart. *)
Inductive pipeline_call : Type :=
  | call_get_raw_data_dict (data : ndarray) (fields_dict : dict (list string))
  | call_normalize_data (data : dict ndarray) (m : method) (mode : scalar_mode)
  | call_preprocess_train_data (x y : dict ndarray)
  | call_preprocess_validation_test_data (x y : dict ndarray)
  | call_preprocess_and_train (train_sub_ids validate_sub_ids : list string)
  | call_model_evaluation (m : Mdl) (test_sub_ids : list string)
  | call_preprocess_train_evaluation
      (train_sub_ids validate_sub_ids test_sub_ids : list string)
  | call_get_all_scores (y_true y_pred : dict ndarray)
      (weights : option (dict ndarray))
  | call_cross_validation (sub_ids : list string) (test_set_sub_num : nat).

Definition run_call (self : BaseModel) (c : pipeline_call) (s : state St)
    : state St :=
  match c with
  | call_get_raw_data_dict data fields_dict =>
      (Kam._get_raw_data_dict self data fields_dict s).2
  | call_normalize_data data m mode => (Kam.normalize_data data m mode s).2
  | call_preprocess_train_data x y => (Kam.preprocess_train_data x y s).2
  | call_preprocess_validation_test_data x y =>
      (Kam.preprocess_validation_test_data x y s).2
  | call_preprocess_and_train train_sub_ids validate_sub_ids =>
      (Kam.preprocess_and_train self train_sub_ids validate_sub_ids s).2
  | call_model_evaluation m test_sub_ids =>
      (Kam.model_evaluation self m test_sub_ids s).2
  | call_preprocess_train_evaluation train_sub_ids validate_sub_ids test_sub_ids =>
      (Kam.preprocess_train_evaluation self train_sub_ids validate_sub_ids
         test_sub_ids s).2
  | call_get_all_scores y_true y_pred weights =>
      (Kam.get_all_scores self y_true y_pred weights s).2
  | call_cross_validation sub_ids test_set_sub_num =>
      (Kam.cross_validation self sub_ids test_set_sub_num s).2
  end.

(** A sequence of calls, each started in the state the one before left,
    whether that one returned or raised. *)
Definition run_calls (self : BaseModel) (calls : list pipeline_call)
    (s : state St) : state St :=
  foldl (λ s c, run_call self c s) s calls.
End vocabulary.

(** ** Vocabulary of the further properties *)

(** The scaler objects before and after [m] are related by [R], whether [m]
    returns or raises; what it returns satisfies [Q]. *)
Definition scalars_kept {St A} (R : relation (gmap string St)) (m : M St A)
    (Q : A → Prop) : Prop :=
  ∀ s, R (_data_scalar s) (_data_scalar (m s).2)
       ∧ match (m s).1 with Ok a => Q a | Raise _ => True end.

(** Two collections of scaler objects with the same object under [name]. *)
Definition same_scalar {St} (name : string) : relation (gmap string St) :=
  λ scalars scalars', scalars' !! name = scalars !! name.

(** The keys of a dictionary, in order. *)
Definition keys {V} (d : dict V) : list string := map fst d.

(** The (output, field) pairs of the output fields, in their order. *)
Definition output_fields (self : BaseModel) : list (string * string) :=
  flat_map (λ '(output_name, fields), map (λ f, (output_name, f)) fields)
           (_y_fields self).

(** What [_get_raw_data_dict] puts into a group, from the values [d] of an
    array of [n] steps of [k] samples over the columns [_data_fields]. *)
Definition extracted (self : BaseModel) (d : list float) (n k : nat) (heap' : list (list float))
    (kf : string * list string) (kv : string * ndarray) : Prop :=
  kv.1 = kf.1 ∧ shape kv.2 = [n; k; length kf.2]
  ∧ ∃ v, heap' !! buf kv.2 = Some v ∧ length v = n * k * length kf.2
         ∧ ∀ r j f, r < n * k → kf.2 !! j = Some f →
             ∃ col, list_index (_data_fields self) f = Ok col
                    ∧ v !! (r * length kf.2 + j)
                      = d !! (r * length (_data_fields self) + col).

(** ** The constants of [const.py] *)

Module Const.

Definition SEGMENT_DEFINITIONS : dict (list string) :=
  [("L_FOOT", ["LFCC"; "LFM5"; "LFM2"]);
   ("R_FOOT", ["RFCC"; "RFM5"; "RFM2"]);
   ("L_SHANK", ["LTAM"; "LFAL"; "LSK"; "LTT"]);
   ("R_SHANK", ["RTAM"; "RFAL"; "RSK"; "RTT"]);
   ("L_THIGH", ["LFME"; "LFLE"; "LTH"; "LFT"]);
   ("R_THIGH", ["RFME"; "RFLE"; "RTH"; "RFT"]);
   ("WAIST", ["LIPS"; "RIPS"; "LIAS"; "RIAS"]);
   ("CHEST", ["MAI"; "SXS"; "SJN"; "CV7"; "LAC"; "RAC"])].
Definition SEGMENT_DATA_FIELDS : list string :=
  flat_map (λ axis, map (λ seg_name, seg_name +:+ "_" +:+ axis)
                        (map fst SEGMENT_DEFINITIONS))
           ["X"; "Y"; "Z"].
Definition SENSOR_LIST : list string :=
  ["L_FOOT"; "R_FOOT"; "R_SHANK"; "R_THIGH"; "WAIST"; "CHEST"; "L_SHANK";
   "L_THIGH"].
Definition IMU_FIELDS : list string :=
  ["AccelX"; "AccelY"; "AccelZ"; "GyroX"; "GyroY"; "GyroZ"; "MagX"; "MagY";
   "MagZ"; "Quat1"; "Quat2"; "Quat3"; "Quat4"].

Definition extract_imu_fields (imus fields : list string) : list string :=
  flat_map (λ imu, map (λ field, field +:+ "_" +:+ imu) fields) imus.
Definition extract_video_fields (videos angles : list string) : list string :=
  flat_map (λ video,
    flat_map (λ position,
      map (λ angle, video +:+ "_" +:+ position +:+ "_" +:+ angle) angles)
      ["x"; "y"])
    videos.
Definition VIDEO_LIST : list string :=
  ["LShoulder"; "RShoulder"; "MidHip"; "RHip"; "LHip"; "RKnee"; "LKnee";
   "RAnkle"; "LAnkle"; "RHeel"; "LHeel"].
Definition VIDEO_ANGLES : list string := ["90"; "180"].

Definition VIDEO_DATA_FIELDS : list string :=
  extract_video_fields VIDEO_LIST VIDEO_ANGLES.
Definition IMU_DATA_FIELDS : list string :=
  extract_imu_fields SENSOR_LIST IMU_FIELDS.

Definition TARGETS_LIST : list string :=
  ["RIGHT_KNEE_ADDUCTION_MOMENT"; "RIGHT_KNEE_FLEXION_MOMENT";
   "RIGHT_KNEE_ADDUCTION_ANGLE"; "RIGHT_KNEE_ADDUCTION_VELOCITY"].
Definition EXT_KNEE_MOMENT : list string := ["EXT_KM_X"; "EXT_KM_Y"; "EXT_KM_Z"].

Definition JOINT_LIST : list string :=
  flat_map (λ axis, map (λ marker, marker +:+ "_" +:+ axis)
                        (concat (map snd SEGMENT_DEFINITIONS)))
           ["X"; "Y"; "Z"].

Definition extract_right_force_fields (types axes : list string) : list string :=
  flat_map (λ data_type,
    map (λ axis, "plate_2_" +:+ data_type +:+ "_" +:+ axis) axes) types.
Definition FORCE_DATA_FIELDS : list string :=
  flat_map (λ num,
    flat_map (λ data_type,
      map (λ axis, "plate_" +:+ num +:+ "_" +:+ data_type +:+ "_" +:+ axis)
          ["x"; "y"; "z"])
      ["force"; "cop"])
    ["1"; "2"].

Definition SUBJECT_WEIGHT : string := "body weight".
Definition SUBJECT_HEIGHT : string := "body height".
Definition STATIC_DATA : list string := [SUBJECT_WEIGHT; SUBJECT_HEIGHT].
Definition PHASE_LIST : list string :=
  ["Event"; "kam_phase"; "force_phase"; "step_phase"].

Definition CONTINUOUS_FIELDS : list string :=
  TARGETS_LIST ++ EXT_KNEE_MOMENT ++ IMU_DATA_FIELDS ++ VIDEO_DATA_FIELDS
  ++ FORCE_DATA_FIELDS ++ JOINT_LIST ++ SEGMENT_DATA_FIELDS.
Definition DISCRETE_FIELDS : list string := STATIC_DATA ++ PHASE_LIST.
Definition ALL_FIELDS : list string := DISCRETE_FIELDS ++ CONTINUOUS_FIELDS.

End Const.

(** ** Calibration by gravity ([BaseModel.cali_via_gravity]) *)

(** A 3-by-3 array, row by row: what [euler2mat] returns. *)
Definition vec3 : Type := float * float * float.
Definition mat3 : Type := vec3 * vec3 * vec3.

(** [get_static_calibration(subject)]: it reads the subject's static trial
    from a CSV file and builds, for every sensor, the rotation that turns
    the mean acceleration of the trial onto the vertical ([arctan2],
    [euler2mat]); the result maps sensor names to matrices. *)
Class StaticCalibration :=
  get_static_calibration : string → result (dict mat3).

Module Calibration.
Section cali_via_gravity.
Context {St : Type} {static : StaticCalibration}.
Context (self : BaseModel).

Local Abbreviation M := (M St).

(** [np.matmul(transform_mat, data)] for a 3-by-3 matrix and a vector: the
    vector must have 3 entries; every entry of the product is the sum of the
    products of a row with the vector, each product and each sum rounded and
    the sums taken in index order, as numpy's own loop takes them (a BLAS
    kernel may round the last bit of an entry otherwise). *)
Definition matmul (transform_mat : mat3) (data : list float) : result (list float) :=
  match data with
  | [x; y; z] =>
      let dot (row : vec3) :=
        let '(a, b, c) := row in (a * x + b * y + c * z)%float in
      let '(r1, r2, r3) := transform_mat in
      Ok [dot r1; dot r2; dot r3]
  | _ => Raise ValueError
  end.

(** [np.apply_along_axis(func1d, 2, arr)] on a three-dimensional array: a
    new array of the results of [func1d] on the samples, which must all have
    the length of the first; it refuses an array without samples. *)
Definition apply_along_axis_2 (func1d : list float → result (list float))
    (arr : ndarray) : M ndarray :=
  match shape arr with
  | [n; s; c] =>
      if decide (n * s = 0) then raise ValueError
      else
        d ← Kam.load arr;
        res ← lift (for_each func1d (np.chunks c (n * s) d));
        match res with
        | [] => raise ValueError
        | r0 :: _ =>
            if decide (Forall (λ r, length r = length r0) res)
            then Kam.alloc (concat res) [n; s; length r0]
            else raise ValueError
        end
  | _ => raise ValueError
  end.

(** One sample after [a[:, :, locs] = b]: the entry at every position of
    [locs] is replaced, in the order of [locs]. *)
Definition assign_row (locs : list nat) (row vals : list float) : list float :=
  foldl (λ row lv, <[lv.1 := lv.2]> row) row (zip locs vals).

(** [a[:, :, locs] = b], in place, for an array [b] of the shape of
    [a[:, :, locs]], which is the only case in [cali_via_gravity] (nothing
    is broadcast there; another shape is refused here). *)
Definition assign_cols (a : ndarray) (locs : list nat) (b : ndarray) : M unit :=
  match shape a with
  | [n; s; c] =>
      if decide (Forall (λ loc, loc < c) locs) then
        if decide (shape b = [n; s; length locs]) then
          d ← Kam.load a;
          v ← Kam.load b;
          Kam.store a (concat (zip_with (assign_row locs)
                                        (np.chunks c (n * s) d)
                                        (np.chunks (length locs) (n * s) v)))
        else raise ValueError
      else raise IndexError
  | _ => raise IndexError
  end.

(** The columns [kind + axis + sensor] of the three axes (lines 251-252
    and 255-256). *)
Definition axis_cols (kind sensor : string) : list string :=
  map (λ axis, kind +:+ axis +:+ sensor) ["X_"; "Y_"; "Z_"].

(** One of the two assignments of the loop body (lines 251-254 and
    255-258): the three columns of a sensor are replaced by their rotation,
    in the array of the store. *)
Definition rotate_columns (subject : string) (transform_mat : mat3)
    (kind sensor : string) : M unit :=
  col_locs ← lift (for_each (list_index (_data_fields self))
                            (axis_cols kind sensor));
  arr ← lift (Kam.subject_data self subject);
  picked ← Kam.take_cols arr col_locs;
  rotated ← apply_along_axis_2 (matmul transform_mat) picked;
  arr ← lift (Kam.subject_data self subject);
  assign_cols arr col_locs rotated.

(** The body of the loop over the sensors (lines 249-258). *)
Definition cali_sensor (subject : string) (transform_mat_dict : dict mat3)
    (sensor : string) : M unit :=
  transform_mat ← lift (or_raise KeyError (dict_get transform_mat_dict sensor));
  rotate_columns subject transform_mat "Accel" sensor;;
  rotate_columns subject transform_mat "Gyro" sensor.

(** The body of the loop over the subjects (lines 246-258). *)
Definition cali_subject (subject : string) : M unit :=
  transform_mat_dict ← lift (get_static_calibration subject);
  mapM (cali_sensor subject transform_mat_dict) Const.SENSOR_LIST;;
  mret ().

(** [cali_via_gravity], over [subjects], the subjects of the store in the
    order [get_all_subjects] lists them (that of the data file). *)
Definition cali_via_gravity (subjects : list string) : M unit :=
  mapM cali_subject subjects;;
  mret ().
End cali_via_gravity.

(** The columns [cali_via_gravity] assigns to. *)
Definition rotated_fields : list string :=
  flat_map (λ sensor, axis_cols "Accel" sensor ++ axis_cols "Gyro" sensor)
           Const.SENSOR_LIST.

End Calibration.

(** A number that is neither [nan] nor infinite. *)
Definition isfinite (x : float) : bool :=
  negb (np.isnan x) && negb (np.abs x =? infinity)%float.

Definition finite_mat (m : mat3) : Prop :=
  let '((a, b, c), (d, e, f), (g, h, i)) := m in
  Forall (λ x, isfinite x = true) [a; b; c; d; e; f; g; h; i].

(** The samples of an array of the store: the rows of its buffer over the
    columns [_data_fields]. *)
Definition samples {St} (self : BaseModel) (s : state St) (arr : ndarray)
    : list (list float) :=
  let c := length (_data_fields self) in
  match heap s !! buf arr with
  | Some d => np.chunks c (length d `div` c) d
  | None => []
  end.

(** The store is laid out in a state: every array of the store has steps
    of samples over the columns [_data_fields], and a buffer of that many
    values. *)
Definition store_laid_out {St} (self : BaseModel) (s : state St) : Prop :=
  ∀ sub arr, _data_all_sub self !! sub = Some arr →
    ∃ n k d, shape arr = [n; k; length (_data_fields self)]
             ∧ heap s !! buf arr = Some d
             ∧ length d = n * k * length (_data_fields self).

(** One sample before and after one of the assignments of
    [cali_via_gravity] with the matrix [m] to the columns [locs]. *)
Definition rotated_row (m : mat3) (locs : list nat) (row row' : list float) : Prop :=
  ∃ picked vals,
    Forall2 (λ loc x, row !! loc = Some x) locs picked
    ∧ Calibration.matmul m picked = Ok vals
    ∧ row' = Calibration.assign_row locs row vals.

(** Every array of the store has in [s] a buffer as long as in [s0], and
    its samples in [s0] and in [s] are related by [R], one by one. *)
Definition store_related {St} (self : BaseModel) (R : relation (list float))
    (s0 s : state St) : Prop :=
  ∀ sub arr, _data_all_sub self !! sub = Some arr →
    ∃ d0 d, heap s0 !! buf arr = Some d0 ∧ heap s !! buf arr = Some d
            ∧ length d = length d0
            ∧ Forall2 R (samples self s0 arr) (samples self s arr).

(** The columns of a sample that no assignment of [cali_via_gravity]
    names are left as they are. *)
Definition other_columns_kept (self : BaseModel) (row row' : list float) : Prop :=
  length row' = length row
  ∧ ∀ col f, _data_fields self !! col = Some f →
      f ∉ Calibration.rotated_fields → row' !! col = row !! col.

(** A sample of zeros is still one. *)
Definition padding_kept (row row' : list float) : Prop :=
  Kam.is_padding row = true → Kam.is_padding row' = true.

(** ** A small data set to calibrate

    One subject with one step of two samples over the inertial columns of
    [const.py] and a column [KAM]; the second sample is padding. Every
    sensor is calibrated with the quarter turn about the third axis. *)

Module CalibrationExample.

Definition self : BaseModel := {|
  _x_fields := [("main_input_acc", ["AccelX_L_FOOT"; "AccelY_L_FOOT"; "AccelZ_L_FOOT"])];
  _y_fields := [("output", ["KAM"])];
  _weights := [];
  _data_all_sub := list_to_map [("s1", NdArray 0 [1; 2; 105])];
  _data_fields := Const.IMU_DATA_FIELDS ++ ["KAM"];
|}.

(** The first sample holds 1, 2, ..., 105, the second 0. *)
Definition s1_values : list float :=
  map (λ i, np.of_nat (S i)) (seq 0 105) ++ replicate 105 0%float.

Definition loaded : state unit := {|
  heap := [s1_values];
  _data_scalar := ∅;
|}.

Definition quarter_turn : mat3 :=
  ((0, -1, 0), (1, 0, 0), (0, 0, 1))%float.

Definition static : StaticCalibration :=
  λ _, Ok (map (λ sensor, (sensor, quarter_turn)) Const.SENSOR_LIST).

End CalibrationExample.

(** ** The step lengths of [tian_model.py] *)

Module Tian.
Section step_len.
Context {St : Type}.

(** [TianModel._get_step_len(data, input_cate, feature_col_num)] (lines
    227-238), called with the defaults ['main_input_acc'] and [0]: per
    step, the number of samples whose feature is not zero. *)
Definition _get_step_len (data : dict ndarray) (input_cate : string)
    (feature_col_num : nat) : M St (list nat) :=
  arr ← lift (or_raise KeyError (dict_get data input_cate));
  data_the_feature ← Kam.field_column arr feature_col_num;
  let zero_loc := map (map (λ x, (x =? 0)%float)) data_the_feature in
  let data_len := map (λ step, length (filter (λ z, negb z = true) step)) zero_loc in
  mret data_len.
End step_len.
End Tian.

(** The steps of an array of shape [(n, k, c)] with the values [d], each
    with its [k] samples. *)
Definition steps_of (n k c : nat) (d : list float) : list (list (list float)) :=
  np.chunks k n (np.chunks c (n * k) d).

(** The order of [np.unique] on strings: by code points. *)
Definition string_lt (a b : string) : Prop := String.ltb a b = true.

(** One sample before and after the rotation of the columns named [names]
    by [m]: the values of these columns after are the product of [m] with
    their values before. *)
Definition rotated_by (self : BaseModel) (m : mat3) (names : list string)
    (row row' : list float) : Prop :=
  ∃ locs picked vals,
    Forall2 (λ f loc, list_index (_data_fields self) f = Ok loc) names locs
    ∧ Forall2 (λ loc x, row !! loc = Some x) locs picked
    ∧ Calibration.matmul m picked = Ok vals
    ∧ Forall2 (λ loc x, row' !! loc = Some x) locs vals.

(** One sample before and after the rotations [js], each a matrix and the
    columns it is applied to; the columns of other names are left as they
    are. *)
Definition rotations (self : BaseModel) (js : list (mat3 * list string))
    (row row' : list float) : Prop :=
  length row' = length row
  ∧ Forall (λ j, rotated_by self j.1 j.2 row row') js
  ∧ ∀ col f, _data_fields self !! col = Some f → f ∉ concat (map snd js) →
      row' !! col = row !! col.

(** The rotations of the calibration of one subject: for every sensor, that
    of its acceleration and that of its angular velocity, by the matrix of
    the sensor. *)
Definition sensor_rotations (transform_mat_dict : dict mat3)
    (sensors : list string) : list (mat3 * list string) :=
  flat_map (λ sensor,
              match dict_get transform_mat_dict sensor with
              | Some m => [(m, Calibration.axis_cols "Accel" sensor);
                           (m, Calibration.axis_cols "Gyro" sensor)]
              | None => []
              end) sensors.

(** The arrays of two subjects of the store have buffers of their own, as
    [__init__] loads them (line 32). *)
Definition store_separate (self : BaseModel) : Prop :=
  ∀ sub1 sub2 arr1 arr2,
    _data_all_sub self !! sub1 = Some arr1 →
    _data_all_sub self !! sub2 = Some arr2 →
    buf arr1 = buf arr2 → sub1 = sub2.

(** The buffers of [s] other than [b] are in [s'] what they were. *)
Definition others_kept {St} (b : nat) (s s' : state St) : Prop :=
  length (heap s) ≤ length (heap s')
  ∧ ∀ b', b' ≠ b → b' < length (heap s) → heap s' !! b' = heap s !! b'.

(** * Properties *)

(** ** Loops in the error monad *)

Lemma for_each_Ok {A B} (f : A → result B) l ys :
  for_each f l = Ok ys → Forall2 (λ x y, f x = Ok y) l ys.
Proof.
  revert ys. induction l as [|x l IH]; intros ys; simpl.
  - intros [= <-]. constructor.
  - destruct (f x) as [y|e] eqn:Hx; simpl; [|done].
    destruct (for_each f l) as [ys'|e]; simpl; [|done].
    intros [= <-]. constructor; auto.
Qed.

Lemma for_each_Forall2 {A B} (f : A → result B) l ys :
  Forall2 (λ x y, f x = Ok y) l ys → for_each f l = Ok ys.
Proof. induction 1 as [|x y l ys Hx _ IH]; simpl; [done|]. by rewrite Hx, IH. Qed.

Lemma result_bind_Ok {A B} (f : A → result B) (r : result A) b :
  r ≫= f = Ok b ↔ ∃ a, r = Ok a ∧ f a = Ok b.
Proof.
  destruct r as [a|e]; simpl; split.
  - eauto.
  - by intros (a' & [= <-] & Hf).
  - done.
  - by intros (a' & [=] & _).
Qed.

Lemma result_bind_Raise {A B} (f : A → result B) (r : result A) e :
  r = Raise e → r ≫= f = Raise e.
Proof. by intros ->. Qed.

Lemma for_each_lookup {A B} (f : A → result B) l ys i x :
  for_each f l = Ok ys → l !! i = Some x →
  ∃ y, f x = Ok y ∧ ys !! i = Some y.
Proof.
  intros Hl Hx. apply for_each_Ok in Hl.
  destruct (Forall2_lookup_l _ _ _ _ _ Hl Hx) as (y & Hy & Hfx). eauto.
Qed.

(** ** Stream synchronisation *)

Module SyncProps.
Import Sync.

Lemma length_pd_concat_axis1 {A B} (a : DataFrame A) (b : DataFrame B) :
  length (pd_concat_axis1 a b) = length a `max` length b.
Proof. unfold pd_concat_axis1. by rewrite length_map, length_seq. Qed.

Lemma length_loc_upto {A} stop (df : DataFrame A) :
  length (loc_upto stop df) = S stop `min` length df.
Proof. unfold loc_upto. by rewrite length_take. Qed.

(** The combined record keeps the rows labelled [0 .. min_length], the end
    label included: one row more than the shorter stream whenever the two
    cropped streams differ in length. *)
Lemma sync_and_crop_rows {Imu Vicon} (imu : DataFrame Imu)
    (vicon : DataFrame Vicon) (first_event delay : Z) :
  let li := length (cropped_imu imu first_event delay) in
  let lv := length (cropped_vicon vicon first_event delay) in
  length (sync_and_crop_data_frame imu vicon first_event delay)
  = if decide (li = lv) then li `min` lv else S (li `min` lv).
Proof.
  intros li lv. unfold sync_and_crop_data_frame.
  rewrite length_loc_upto, length_pd_concat_axis1.
  fold (cropped_imu imu first_event delay) (cropped_vicon vicon first_event delay).
  fold li lv. case_decide; lia.
Qed.

(** C8: an inertial stream of five rows and a motion-capture stream of three
    rows, no delay and the first event at row 0. The shorter cropped stream
    has three rows, and the combined record has four: the row labelled 3 is
    kept, with the motion-capture columns missing. *)
Theorem sync_and_crop_keeps_one_row_more :
  let imu := [10; 11; 12; 13; 14] in
  let vicon := [20; 21; 22] in
  length (cropped_imu imu 0 0) `min` length (cropped_vicon vicon 0 0) = 3
  ∧ length (sync_and_crop_data_frame imu vicon 0 0) = 4
  ∧ sync_and_crop_data_frame imu vicon 0 0 !! 3 = Some (Some 13, None).
Proof. repeat split. Qed.

End SyncProps.

(** ** Fold formation *)

Section folds.
Implicit Types (sub_ids test train : list string) (k i : nat).

Lemma elem_of_insert_unique x y l : y ∈ insert_unique x l ↔ y = x ∨ y ∈ l.
Proof.
  induction l as [|z l IH]; simpl.
  - rewrite list_elem_of_singleton. set_solver.
  - destruct (String.eqb_spec x z) as [->|Hne].
    + set_solver.
    + destruct (String.ltb x z); [set_solver|].
      rewrite !elem_of_cons, IH. tauto.
Qed.

Lemma elem_of_np_unique y l : y ∈ np_unique l ↔ y ∈ l.
Proof.
  induction l as [|x l IH]; simpl; [done|].
  rewrite elem_of_insert_unique, elem_of_cons, IH. tauto.
Qed.

Lemma elem_of_setdiff1d y ar1 ar2 : y ∈ setdiff1d ar1 ar2 ↔ y ∈ ar1 ∧ y ∉ ar2.
Proof.
  unfold setdiff1d. rewrite list_elem_of_filter, elem_of_np_unique. tauto.
Qed.

Lemma folder_num_spec n k :
  1 ≤ n → 1 ≤ k → (folder_num n k - 1) * k < n ≤ folder_num n k * k.
Proof.
  intros Hn Hk. unfold folder_num.
  pose proof (Nat.div_mod_eq n k) as Hdiv.
  pose proof (Nat.mod_upper_bound n k ltac:(lia)) as Hmod.
  destruct (Nat.eqb_spec (n mod k) 0) as [H0|H0].
  - assert (1 ≤ n / k) by (destruct (n / k); lia). nia.
  - nia.
Qed.

Lemma test_fold_eq sub_ids k i :
  test_fold sub_ids k i = take k (drop (k * i) sub_ids).
Proof. unfold test_fold. f_equal. lia. Qed.

Lemma concat_test_folds sub_ids k f :
  length sub_ids ≤ f * k →
  concat (map (test_fold sub_ids k) (seq 0 f)) = sub_ids.
Proof.
  revert sub_ids. induction f as [|f IH]; intros sub_ids Hlen.
  - destruct sub_ids; [done|simpl in *; lia].
  - cbn [seq map concat].
    assert (map (test_fold sub_ids k) (seq 1 f)
            = map (test_fold (drop k sub_ids) k) (seq 0 f)) as ->.
    { rewrite <-fmap_S_seq, <-list_fmap_compose. apply map_ext. intros i.
      unfold compose. rewrite !test_fold_eq, drop_drop. do 2 f_equal. lia. }
    rewrite IH by (rewrite length_drop; lia).
    rewrite test_fold_eq, Nat.mul_0_r. apply take_drop.
Qed.


Lemma cv_folds_lookup sub_ids k i test train :
  cv_folds sub_ids k !! i = Some (test, train) ↔
  i < folder_num (length sub_ids) k
  ∧ test = test_fold sub_ids k i ∧ train = train_fold sub_ids k i.
Proof.
  unfold cv_folds. rewrite list_lookup_fmap. split.
  - destruct (seq _ _ !! i) as [j|] eqn:Hj; simpl; [|done].
    apply lookup_seq in Hj as [-> Hlt]. intros [= <- <-]. done.
  - intros (Hlt & -> & ->). by rewrite lookup_seq_lt.
Qed.
End folds.



(** ** Scoring *)

Section scoring.
Context {metrics : Metrics}.

(** A step without selected samples cannot be scored, whatever the metric
    functions answer: the maximum of no values raises. *)
Lemma step_score_nil : ∃ e, Kam.step_score [] [] = Raise e.
Proof.
  unfold Kam.step_score.
  destruct (r2_score [] []) as [r|e]; [|eauto].
  destruct (mse [] []) as [m|e]; eauto.
Qed.

(** Nor can a step with one selected sample, of which [pearsonr] takes no
    correlation. *)
Lemma step_score_degenerate (strict : StrictPearson metrics) t p :
  length t < 2 → ∃ e, Kam.step_score t p = Raise e.
Proof.
  intros Hlt. unfold Kam.step_score.
  destruct (r2_score t p) as [r|e]; [|eauto].
  destruct (mse t p) as [m|e]; [|eauto]. cbn [mbind result_bind].
  destruct (np.max t) as [tmax|e]; [|eauto].
  destruct (np.max p) as [pmax|e]; [|eauto].
  destruct (np.min t) as [tmin|e]; [|eauto].
  destruct (np.min p) as [pmin|e]; [|eauto].
  rewrite pearsonr_needs_two_values by done. eauto.
Qed.

Lemma mask_select_length {A} (row : list A) (w_i : list bool) sel :
  np.mask_select row w_i = Ok sel →
  length sel = length (filter (λ b, b = true) w_i).
Proof.
  unfold np.mask_select. case_decide as Hlen; [|done]. intros [= <-].
  rewrite length_map. revert w_i Hlen.
  induction row as [|x row IH]; intros [|b w_i] Hlen; try done.
  cbn [zip zip_with]. rewrite !filter_cons. cbn [snd].
  destruct (decide (b = true)); cbn [length]; rewrite IH; cbn in Hlen; lia.
Qed.

Lemma get_column_score_steps arr_true arr_pred w cs :
  Kam.get_column_score arr_true arr_pred w = Ok cs →
  ∃ steps,
    for_each (λ i, '(arr_true_i, arr_pred_i) ← Kam.masked_step arr_true arr_pred w i;
                   Kam.step_score arr_true_i arr_pred_i)
             (seq 0 (length arr_true)) = Ok steps
    ∧ col_r2 cs = map (λ t, t.1.1.1.1) steps
    ∧ col_rmse cs = map (λ t, t.1.1.1.2) steps
    ∧ col_mae cs = map (λ t, t.1.1.2) steps
    ∧ col_r_rmse cs = map (λ t, t.1.2) steps
    ∧ col_cor_value cs = map (λ t, t.2) steps.
Proof.
  unfold Kam.get_column_score. intros Hcs.
  apply result_bind_Ok in Hcs as (steps & Hsteps & Hcs).
  apply result_bind_Ok in Hcs as (ta & _ & Hcs).
  apply result_bind_Ok in Hcs as (pa & _ & Hcs).
  apply result_bind_Ok in Hcs as (ra & _ & [= <-]).
  exists steps. done.
Qed.

Lemma masked_step_lt arr_true arr_pred w i sel :
  Kam.masked_step arr_true arr_pred w i = Ok sel → i < length arr_true.
Proof.
  unfold Kam.masked_step. destruct (arr_true !! i) eqn:Hi; [|done].
  intros _. by eapply lookup_lt_Some.
Qed.
End scoring.

Global Instance reference_strict_pearson : StrictPearson Reference.metrics.
Proof.
  intros x y Hlt. cbn. unfold Reference.pearson.
  case_decide; [done|]. by rewrite decide_True.
Qed.

(** C7, as the code has it: a step whose mask selects fewer than two
    samples is not scored and not recorded as NaN; it makes
    [get_column_score] raise, so that the run is aborted. Without a
    selected sample there is no maximum of the selection (if [r2_score] and
    [mean_squared_error] have not raised before); with one selected sample
    [pearsonr] raises, as scipy's does for fewer than two values. No RMSE
    and no MAE of the single point is returned. *)
Theorem degenerate_step_aborts_scoring {metrics : Metrics}
    (strict : StrictPearson metrics) (arr_true arr_pred : list (list float))
    (w : list (list bool)) (i : nat) (w_i : list bool) :
  i < length arr_true → w !! i = Some w_i →
  length (filter (λ b, b = true) w_i) < 2 →
  ∃ e, Kam.get_column_score arr_true arr_pred w = Raise e.
Proof.
  intros Hi Hw Hsel.
  destruct (Kam.get_column_score arr_true arr_pred w) as [cs|e] eqn:Hcs; [|eauto].
  exfalso. apply get_column_score_steps in Hcs as (steps & Hsteps & _).
  destruct (for_each_lookup _ _ _ i i Hsteps) as (y & Hy & _).
  { by apply lookup_seq_lt. }
  apply result_bind_Ok in Hy as ([t p] & Hstep & Hy).
  unfold Kam.masked_step in Hstep.
  apply result_bind_Ok in Hstep as (true_row & _ & Hstep).
  rewrite Hw in Hstep. cbn [or_raise] in Hstep.
  apply result_bind_Ok in Hstep as (w_i' & [= <-] & Hstep).
  apply result_bind_Ok in Hstep as (t' & Ht & Hstep).
  apply result_bind_Ok in Hstep as (pred_row & _ & Hstep).
  apply result_bind_Ok in Hstep as (p' & _ & [= <- <-]).
  apply mask_select_length in Ht.
  destruct (step_score_degenerate strict t' p') as [e He]; [lia|].
  congruence.
Qed.

(** One step of two samples: with the mask selecting the first sample only,
    scoring with the reference metrics raises [ValueError]. *)
Lemma degenerate_step_aborts_scoring_witness :
  Kam.get_column_score (metrics := Reference.metrics)
    [[1; 3]]%float [[3; 1]]%float [[true; false]] = Raise ValueError
  ∧ ∃ e, Kam.get_column_score (metrics := Reference.metrics)
           [[1; 3]]%float [[3; 1]]%float [[true; false]] = Raise e.
Proof.
  split; [vm_compute; reflexivity|].
  apply (degenerate_step_aborts_scoring reference_strict_pearson
           [[1; 3]]%float [[3; 1]]%float [[true; false]] 0 [true; false]).
  - cbn. lia.
  - reflexivity.
  - vm_compute. lia.
Defined.

(** C7, the claim as it stands fails on one step of two samples: where the
    mask selects one sample, and where it selects none, scoring raises
    instead of recording NaN and the scores of the single point. *)
Lemma degenerate_selection_raises :
  Kam.masked_step [[1; 3]]%float [[3; 1]]%float [[true; false]] 0
  = Ok ([1]%float, [3]%float)
  ∧ Kam.get_column_score (metrics := Reference.metrics)
      [[1; 3]]%float [[3; 1]]%float [[true; false]] = Raise ValueError
  ∧ Kam.masked_step [[1; 3]]%float [[3; 1]]%float [[false; false]] 0 = Ok ([], [])
  ∧ Kam.get_column_score (metrics := Reference.metrics)
      [[1; 3]]%float [[3; 1]]%float [[false; false]] = Raise ValueError.
Proof. repeat split; vm_compute; reflexivity. Qed.

(** C2: one step with the true values [1, 3] and the predictions [3, 1],
    all selected. The RMSE is 2 and the range of each signal is 2, so the
    relative RMSE of the claim is [2 / ((3 + 3 - 1 - 1) / 2) = 1]; the code
    computes [2 / (3 + 3 - 1 - 1) / 2 = 0.25]. *)
Theorem r_rmse_halves_the_quotient :
  Kam.get_column_score (metrics := Reference.metrics)
    [[1; 3]]%float [[3; 1]]%float [[true; true]]
  = Ok {| col_r2 := [(-3)%float]; col_r2_all := [(-3)%float];
          col_rmse := [2%float]; col_mae := [2%float];
          col_r_rmse := [0.25%float]; col_cor_value := [(-1)%float] |}
  ∧ (2 / ((3 + 3 - 1 - 1) / 2))%float = 1%float.
Proof. split; vm_compute; reflexivity. Qed.

(** ** The pipeline monad: what a computation leaves alone *)

Section protects.
Context {St : Type}.
Implicit Types (s : state St) (w : nat) (arr : ndarray).

Lemma M_bind_run {A B} (m : M St A) (k : A → M St B) s :
  (m ≫= k) s = match m s with
               | (Ok a, s') => k a s'
               | (Raise e, s') => (Raise e, s')
               end.
Proof. reflexivity. Qed.

Lemma M_bind_Ok {A B} (m : M St A) (k : A → M St B) s b s2 :
  (m ≫= k) s = (Ok b, s2) ↔ ∃ a s1, m s = (Ok a, s1) ∧ k a s1 = (Ok b, s2).
Proof.
  rewrite M_bind_run. destruct (m s) as [[a|e] s1]; split.
  - eauto.
  - by intros (a' & s1' & [= <- <-] & Hk).
  - done.
  - by intros (a' & s1' & [=] & _).
Qed.

Lemma M_fmap_Ok {A B} (f : A → B) (m : M St A) s b s2 :
  (f <$> m) s = (Ok b, s2) ↔ ∃ a, m s = (Ok a, s2) ∧ b = f a.
Proof.
  unfold fmap, M_fmap. destruct (m s) as [[a|e] s1]; split.
  - intros [= <- <-]. eauto.
  - by intros (a' & [= <- <-] & ->).
  - done.
  - by intros (a' & [=] & _).
Qed.

Lemma lift_Ok {A} (r : result A) s b s2 :
  lift r s = (Ok b, s2) ↔ r = Ok b ∧ s2 = s.
Proof. unfold lift. split; [by intros [= -> ->]|by intros [-> ->]]. Qed.

Lemma mapM_cons {A B} (f : A → M St B) x l :
  mapM f (x :: l) = y ← f x; k ← mapM f l; mret (y :: k).
Proof. reflexivity. Qed.

Lemma protects_weaken {A} w (m : M St A) (P Q : A → Prop) :
  protects w m P → (∀ a, P a → Q a) → protects w m Q.
Proof.
  intros Hm HPQ s Hw. destruct (Hm s Hw) as [Ht HP]. split; [done|].
  destruct (m s).1; auto.
Qed.

Lemma protects_ret {A} w (a : A) (Q : A → Prop) :
  Q a → protects w (mret a : M St A) Q.
Proof. by intros HQ s Hw. Qed.

Lemma protects_lift {A} w (r : result A) (Q : A → Prop) :
  (∀ a, r = Ok a → Q a) → protects w (lift r : M St A) Q.
Proof. intros HQ s Hw. split; [done|]. simpl. destruct r; auto. Qed.

Lemma protects_pure {A} w (r : result A) : protects w (lift r : M St A) (λ _, True).
Proof. by apply protects_lift. Qed.

Lemma protects_raise {A} w e (Q : A → Prop) : protects w (raise e : M St A) Q.
Proof. by intros s Hw. Qed.

Lemma protects_bind {A B} w (m : M St A) (k : A → M St B) P Q :
  protects w m P → (∀ a, P a → protects w (k a) Q) →
  protects w (m ≫= k) Q.
Proof.
  intros Hm Hk s Hw. rewrite M_bind_run.
  destruct (Hm s Hw) as [Ht HP]. destruct (m s) as [[a|e] s1]; simpl in *; [|done].
  assert (w ≤ length (heap s1)) as Hw1.
  { apply (f_equal length) in Ht. rewrite !length_take in Ht. lia. }
  destruct (Hk a HP s1 Hw1) as [Ht1 HQ]. split; [congruence|done].
Qed.

Lemma protects_fmap {A B} w (f : A → B) (m : M St A) P (Q : B → Prop) :
  protects w m P → (∀ a, P a → Q (f a)) → protects w (f <$> m) Q.
Proof.
  intros Hm HPQ s Hw. destruct (Hm s Hw) as [Ht HP].
  unfold fmap, M_fmap. destruct (m s) as [[a|e] s1]; simpl in *; auto.
Qed.

Lemma protects_mapM {A B} w (f : A → M St B) (l : list A) (Q : B → Prop) :
  (∀ x, x ∈ l → protects w (f x) Q) → protects w (mapM f l) (Forall Q).
Proof.
  induction l as [|x l IH]; intros Hf.
  - by apply protects_ret.
  - rewrite mapM_cons. eapply protects_bind; [apply Hf; left|].
    intros y Hy. eapply protects_bind.
    + apply IH. intros x' Hx'. apply Hf. by right.
    + intros ys Hys. apply protects_ret. by constructor.
Qed.

Lemma protects_mapM_any {A B} w (f : A → M St B) (l : list A) :
  (∀ x, x ∈ l → protects w (f x) (λ _, True)) →
  protects w (mapM f l) (λ _, True).
Proof.
  intros Hf. eapply protects_weaken; [by apply protects_mapM|done].
Qed.

Lemma protects_alloc w d sh :
  protects w (Kam.alloc d sh : M St _) (λ a, w ≤ buf a ∧ shape a = sh).
Proof. intros s Hw. simpl. split; [by apply take_app_le|done]. Qed.

Lemma protects_load w arr : protects w (Kam.load arr : M St _) (λ _, True).
Proof. intros s Hw. simpl. split; [done|]. by destruct (heap s !! buf arr). Qed.

Lemma protects_store w arr d :
  w ≤ buf arr → protects w (Kam.store arr d : M St _) (λ _, True).
Proof. intros Ha s Hw. simpl. split; [by apply take_insert_ge|done]. Qed.

Lemma protects_get_scalar w name : protects w (Kam.get_scalar name) (λ _ : St, True).
Proof. intros s Hw. simpl. split; [done|]. by destruct (_ !! _). Qed.

Lemma protects_set_scalar w name (sc : St) :
  protects w (Kam.set_scalar name sc) (λ _, True).
Proof. by intros s Hw. Qed.

Lemma protects_copy w arr :
  protects w (Kam.copy arr : M St _) (λ a', w ≤ buf a' ∧ shape a' = shape arr).
Proof.
  eapply protects_bind; [apply protects_load|].
  intros d _. apply protects_alloc.
Qed.

Lemma protects_take_cols w arr cols :
  protects w (Kam.take_cols arr cols : M St _) (λ a', w ≤ buf a').
Proof.
  unfold Kam.take_cols.
  destruct (shape arr) as [|n [|s' [|c [|]]]]; try apply protects_raise.
  eapply protects_bind; [apply protects_load|]. intros d _.
  eapply protects_bind; [apply protects_pure|]. intros rows _.
  eapply protects_weaken; [apply protects_alloc|]. by intros a' [? _].
Qed.

Lemma protects_concatenate w arrays :
  protects w (Kam.concatenate arrays : M St _) (λ a', w ≤ buf a').
Proof.
  unfold Kam.concatenate. destruct arrays as [|a0 arrays]; [apply protects_raise|].
  destruct (shape a0) as [|n0 rest]; [apply protects_raise|].
  eapply protects_bind; [apply protects_pure|]. intros ns _.
  eapply protects_bind.
  { apply protects_mapM_any. intros x _. apply protects_load. }
  intros ds _. eapply protects_weaken; [apply protects_alloc|]. by intros a' [? _].
Qed.

Lemma protects_shuffle {shuffler : Shuffle} w arr :
  protects w (Kam.shuffle arr : M St _) (λ a', w ≤ buf a').
Proof.
  unfold Kam.shuffle. destruct (shape arr) as [|n rest]; [apply protects_raise|].
  eapply protects_bind; [apply protects_load|]. intros d _.
  eapply protects_bind; [apply protects_pure|]. intros picked _.
  eapply protects_weaken; [apply protects_alloc|]. by intros a' [? _].
Qed.

Lemma protects_extract_group w self data input_name input_fields :
  protects w (Kam.extract_group self data input_name input_fields : M St _)
           (λ kv, w ≤ buf kv.2).
Proof.
  unfold Kam.extract_group.
  eapply protects_bind; [apply protects_pure|]. intros cols _.
  eapply protects_bind; [apply protects_take_cols|]. intros picked _.
  eapply protects_bind; [apply protects_copy|]. intros picked' [Hb _].
  by apply protects_ret.
Qed.

Lemma protects_get_raw_data_dict w self data fields_dict :
  protects w (Kam._get_raw_data_dict self data fields_dict : M St _) (above w).
Proof.
  unfold Kam._get_raw_data_dict. apply protects_mapM.
  intros [input_name input_fields] _. apply protects_extract_group.
Qed.
End protects.

(** ** What the pipeline leaves alone *)

Section frame.
Context {St Mdl : Type}.
Context {scaler : Scaler St} {model : Model St Mdl}.
Context {metrics : Metrics} {shuffler : Shuffle}.
Context (self : BaseModel).
Implicit Types (s : state St) (w : nat) (arr : ndarray) (d : dict ndarray).

Lemma protects_load_rows w arr :
  protects w (Kam.load_rows arr : M St _) (λ _, True).
Proof.
  unfold Kam.load_rows.
  destruct (shape arr) as [|r [|c [|]]]; try apply protects_raise.
  eapply protects_bind; [apply protects_load|]. intros ? _. by apply protects_ret.
Qed.

Lemma protects_call_scalar w input_name m arr :
  protects w (Kam.call_scalar input_name m arr)
    (λ r, match r with PyArray a' => w ≤ buf a' | PyScaler _ => True end).
Proof.
  unfold Kam.call_scalar.
  eapply protects_bind; [apply protects_get_scalar|]. intros sc _.
  eapply protects_bind; [apply protects_load_rows|]. intros X _.
  destruct m.
  - eapply protects_bind; [apply protects_pure|]. intros sc' _.
    eapply protects_bind; [apply protects_set_scalar|]. intros _ _.
    by apply protects_ret.
  - eapply protects_bind; [apply protects_pure|]. intros out _.
    eapply protects_fmap; [apply protects_alloc|]. by intros a' [? _].
  - eapply protects_bind; [apply protects_pure|]. intros sc' _.
    eapply protects_bind; [apply protects_set_scalar|]. intros _ _.
    eapply protects_bind; [apply protects_pure|]. intros out _.
    eapply protects_fmap; [apply protects_alloc|]. by intros a' [? _].
Qed.

Lemma protects_normalize_one w m mode input_name arr :
  protects w (Kam.normalize_one m mode input_name arr) (λ a', w ≤ buf a').
Proof.
  unfold Kam.normalize_one.
  eapply protects_bind; [apply protects_copy|]. intros a1 [Hb1 _].
  destruct (shape a1) as [|n [|s' [|c [|]]]]; try apply protects_raise.
  eapply protects_bind; [apply protects_load|]. intros d1 _.
  eapply protects_bind; [by apply protects_store|]. intros _ _.
  eapply protects_bind.
  { apply (protects_lift _ _ (λ v, w ≤ buf v)). unfold Kam.reshape_rows.
    intros v. repeat case_decide; try done. by intros [= <-]. }
  intros view Hview.
  eapply protects_bind; [apply protects_call_scalar|]. intros r Hr.
  eapply protects_bind.
  { apply (protects_lift _ _ (λ v, w ≤ buf v)). unfold Kam.reshape_back.
    intros v. destruct r as [a3|]; [|done]. case_decide; [|done].
    by intros [= <-]. }
  intros a4 Ha4.
  eapply protects_bind; [apply protects_load|]. intros d4 _.
  eapply protects_bind; [by apply protects_store|]. intros _ _.
  by apply protects_ret.
Qed.

Lemma protects_normalize_data w d m mode :
  protects w (Kam.normalize_data d m mode) (above w).
Proof.
  unfold Kam.normalize_data. apply protects_mapM. intros [input_name arr] _.
  eapply protects_bind; [apply protects_normalize_one|]. intros a' Ha'.
  by apply protects_ret.
Qed.

Lemma protects_preprocess_train_data w x y :
  protects w (Kam.preprocess_train_data x y) (λ xy, xy = (x, y)).
Proof.
  unfold Kam.preprocess_train_data.
  eapply protects_bind; [apply protects_normalize_data|]. intros _ _.
  by apply protects_ret.
Qed.

Lemma protects_preprocess_validation_test_data w x y :
  protects w (Kam.preprocess_validation_test_data x y) (λ xy, xy = (x, y)).
Proof.
  unfold Kam.preprocess_validation_test_data.
  eapply protects_bind; [apply protects_normalize_data|]. intros _ _.
  by apply protects_ret.
Qed.

Lemma protects_field_column w arr col :
  protects w (Kam.field_column arr col : M St _) (λ _, True).
Proof.
  unfold Kam.field_column.
  destruct (shape arr) as [|n [|s' [|c [|]]]]; try apply protects_raise.
  eapply protects_bind; [apply protects_load|]. intros ? _.
  eapply protects_bind; [apply protects_pure|]. intros ? _.
  by apply protects_ret.
Qed.

Lemma protects_get_all_scores w y_true y_pred weights :
  protects w (Kam.get_all_scores self y_true y_pred weights : M St _) (λ _, True).
Proof.
  unfold Kam.get_all_scores.
  eapply protects_bind; [|intros; by apply protects_ret].
  apply protects_mapM_any. intros [output_name fields] _.
  apply protects_mapM_any. intros [col field_name] _.
  eapply protects_bind; [apply protects_pure|]. intros ? _.
  eapply protects_bind; [apply protects_field_column|]. intros ? _.
  eapply protects_bind; [apply protects_pure|]. intros ? _.
  eapply protects_bind; [apply protects_field_column|]. intros ? _.
  eapply protects_bind.
  { instantiate (1 := λ _, True). destruct (dict_get _ _).
    - eapply protects_bind; [apply protects_field_column|]. intros ? _.
      by apply protects_ret.
    - by apply protects_ret. }
  intros ? _.
  eapply protects_bind; [apply protects_pure|]. intros ? _.
  by apply protects_ret.
Qed.

Lemma protects_prepare_train_call w train_sub_ids validate_sub_ids :
  protects w (Kam.prepare_train_call self train_sub_ids validate_sub_ids)
           (call_above w).
Proof.
  unfold Kam.prepare_train_call.
  eapply protects_bind; [apply protects_pure|]. intros train_data_list _.
  eapply protects_bind; [apply protects_concatenate|]. intros ? _.
  eapply protects_bind; [apply protects_shuffle|]. intros train_data _.
  eapply protects_bind; [apply protects_get_raw_data_dict|]. intros x Hx.
  eapply protects_bind; [apply protects_get_raw_data_dict|]. intros y Hy.
  eapply protects_bind; [apply protects_preprocess_train_data|].
  intros [x' y'] [= -> ->].
  eapply protects_bind; [apply protects_pure|]. intros validation_data_list _.
  destruct validation_data_list as [|v0 vs]; [by apply protects_ret|].
  eapply protects_bind; [apply protects_concatenate|]. intros validation_data _.
  eapply protects_bind; [apply protects_get_raw_data_dict|]. intros xv Hxv.
  eapply protects_bind; [apply protects_get_raw_data_dict|]. intros yv Hyv.
  eapply protects_bind; [apply protects_get_raw_data_dict|]. intros vw Hvw.
  eapply protects_bind; [apply protects_preprocess_validation_test_data|].
  intros [xv' yv'] [= -> ->]. by apply protects_ret.
Qed.

Lemma protects_prepare_predict_call w test_sub_data :
  protects w (Kam.prepare_predict_call self test_sub_data)
           (λ xyw, above w xyw.1.1).
Proof.
  unfold Kam.prepare_predict_call.
  eapply protects_bind; [apply protects_get_raw_data_dict|]. intros x Hx.
  eapply protects_bind; [apply protects_get_raw_data_dict|]. intros y Hy.
  eapply protects_bind; [apply protects_get_raw_data_dict|]. intros vw Hvw.
  eapply protects_bind; [apply protects_preprocess_validation_test_data|].
  intros [x' y'] [= -> ->]. by apply protects_ret.
Qed.

Context {framed : Framed model}.

Lemma above_not_elem_of w d l : above w d → l < w → l ∉ bufs d.
Proof.
  intros Hd Hl Hin. unfold bufs in Hin.
  apply list_elem_of_fmap in Hin as (kv & -> & Hkv).
  unfold above in Hd. rewrite Forall_forall in Hd. specialize (Hd kv Hkv). lia.
Qed.

Lemma take_eq_of_lookup w (h h' : list (list float)) :
  w ≤ length h → length h ≤ length h' →
  (∀ l, l < w → h' !! l = h !! l) → take w h' = take w h.
Proof.
  intros Hw Hlen Hl. apply list_eq. intros i.
  destruct (decide (i < w)).
  - rewrite !lookup_take_lt by done. auto.
  - rewrite !lookup_take_ge by lia. done.
Qed.

Lemma protects_train_model w (c : train_call) :
  call_above w c →
  protects w (train_model (x_train c) (y_train c) (x_validation c)
                          (y_validation c) (validation_weight c)) (λ _, True).
Proof.
  intros (Hx & Hy & Hxv & Hyv & Hvw) s Hw. split; [|by destruct (_ .1)].
  apply take_eq_of_lookup; [done|apply train_model_grows|].
  intros l Hl. apply train_model_frame; [lia|].
  pose proof (above_not_elem_of w (x_train c) l Hx Hl).
  pose proof (above_not_elem_of w (y_train c) l Hy Hl).
  assert (l ∉ bufs_opt (x_validation c)).
  { destruct (x_validation c); simpl in *; [by eapply above_not_elem_of|].
    apply not_elem_of_nil. }
  assert (l ∉ bufs_opt (y_validation c)).
  { destruct (y_validation c); simpl in *; [by eapply above_not_elem_of|].
    apply not_elem_of_nil. }
  assert (l ∉ bufs_opt (validation_weight c)).
  { destruct (validation_weight c); simpl in *; [by eapply above_not_elem_of|].
    apply not_elem_of_nil. }
  rewrite !elem_of_app. tauto.
Qed.

Lemma protects_predict w m x :
  above w x → protects w (predict m x) (λ _, True).
Proof.
  intros Hx s Hw. split; [|by destruct (_ .1)].
  apply take_eq_of_lookup; [done|apply predict_grows|].
  intros l Hl. apply predict_frame; [lia|]. by eapply above_not_elem_of.
Qed.

Lemma protects_preprocess_and_train w train_sub_ids validate_sub_ids :
  protects w (Kam.preprocess_and_train self train_sub_ids validate_sub_ids)
           (λ _, True).
Proof.
  unfold Kam.preprocess_and_train.
  eapply protects_bind; [apply protects_prepare_train_call|].
  intros c Hc. by apply protects_train_model.
Qed.

Lemma protects_model_evaluation w m test_sub_ids :
  protects w (Kam.model_evaluation self m test_sub_ids) (λ _, True).
Proof.
  unfold Kam.model_evaluation.
  eapply protects_bind; [apply protects_pure|]. intros test_data_list _.
  eapply protects_bind; [|intros; by apply protects_ret].
  apply protects_mapM_any. intros [test_sub_id test_sub_name] _.
  eapply protects_bind; [apply protects_pure|]. intros test_sub_data _.
  eapply protects_bind; [apply protects_prepare_predict_call|].
  intros [[x y] vw] Hx.
  eapply protects_bind; [by apply protects_predict|]. intros pred _.
  eapply protects_bind; [apply protects_get_all_scores|]. intros ? _.
  by apply protects_ret.
Qed.

Lemma protects_preprocess_train_evaluation w train_sub_ids validate_sub_ids
    test_sub_ids :
  protects w (Kam.preprocess_train_evaluation self train_sub_ids validate_sub_ids
                test_sub_ids) (λ _, True).
Proof.
  unfold Kam.preprocess_train_evaluation.
  eapply protects_bind; [apply protects_preprocess_and_train|]. intros m _.
  apply protects_model_evaluation.
Qed.

Lemma protects_run_folds w folds :
  protects w (Kam.run_folds self folds) (λ _, True).
Proof.
  unfold Kam.run_folds. eapply protects_bind; [|intros; by apply protects_ret].
  apply protects_mapM_any. intros [test train] _.
  apply protects_preprocess_train_evaluation.
Qed.

Lemma protects_cross_validation w sub_ids test_set_sub_num :
  protects w (Kam.cross_validation self sub_ids test_set_sub_num) (λ _, True).
Proof.
  unfold Kam.cross_validation. case_decide; [apply protects_raise|].
  eapply protects_bind; [apply protects_run_folds|]. intros results _.
  eapply protects_bind; [apply protects_pure|]. intros ? _.
  by apply protects_ret.
Qed.

Lemma run_call_protects w (c : pipeline_call) s :
  w ≤ length (heap s) →
  take w (heap (run_call self c s)) = take w (heap s).
Proof.
  intros Hw. destruct c; simpl.
  - by apply (protects_get_raw_data_dict w self data fields_dict s).
  - by apply (protects_normalize_data w data m mode s).
  - by apply (protects_preprocess_train_data w x y s).
  - by apply (protects_preprocess_validation_test_data w x y s).
  - by apply (protects_preprocess_and_train w train_sub_ids validate_sub_ids s).
  - by apply (protects_model_evaluation w m test_sub_ids s).
  - by apply (protects_preprocess_train_evaluation w train_sub_ids
                validate_sub_ids test_sub_ids s).
  - by apply (protects_get_all_scores w y_true y_pred weights s).
  - by apply (protects_cross_validation w sub_ids test_set_sub_num s).
Qed.

Lemma run_calls_protects w (calls : list pipeline_call) s :
  w ≤ length (heap s) →
  take w (heap (run_calls self calls s)) = take w (heap s).
Proof.
  revert s. induction calls as [|c calls IH]; intros s Hw; [done|].
  unfold run_calls. simpl. fold (run_calls self calls (run_call self c s)).
  pose proof (run_call_protects w c s Hw) as Hc.
  rewrite IH; [done|].
  apply (f_equal length) in Hc. rewrite !length_take in Hc. lia.
Qed.
End frame.

(** C9: whatever sequence of field extraction, normalisation, training,
    evaluation, scoring and cross-validation calls is made, on whatever
    arguments, and whether the calls return or raise, every buffer that
    existed before the sequence holds the same values after it; so do, in
    particular, the arrays of the subject store. The model capability is
    taken to write only to the arrays it is handed and to those it creates:
    the pipeline hands it copies. *)
Theorem stored_arrays_unchanged {St Mdl : Type} {scaler : Scaler St}
    {model : Model St Mdl} {metrics : Metrics} {shuffler : Shuffle}
    (framed : Framed model) (self : BaseModel)
    (calls : list pipeline_call) (s : state St) :
  take (length (heap s)) (heap (run_calls self calls s)) = heap s
  ∧ ∀ sub arr, _data_all_sub self !! sub = Some arr →
      buf arr < length (heap s) →
      heap (run_calls self calls s) !! buf arr = heap s !! buf arr.
Proof.
  pose proof (run_calls_protects self (length (heap s)) calls s (le_n _)) as Ht.
  rewrite (take_ge (heap s)) in Ht by done. split; [done|].
  intros sub arr _ Hlt.
  by rewrite <-(lookup_take_lt (heap (run_calls self calls s)) _ _ Hlt), Ht.
Qed.

(** ** Rows of a buffer *)

Section chunks.
Context {A : Type}.
Implicit Types (l : list A) (rows : list (list A)).

Lemma length_chunks c n l : length (np.chunks c n l) = n.
Proof. revert l. induction n as [|n IH]; intros l; simpl; [done|]. by rewrite IH. Qed.

Lemma chunks_lookup c n l i :
  i < n → np.chunks c n l !! i = Some (take c (drop (i * c) l)).
Proof.
  revert l i. induction n as [|n IH]; intros l i Hi; [lia|].
  destruct i as [|i]; simpl; [done|].
  rewrite IH by lia. by rewrite drop_drop.
Qed.

Lemma concat_chunks c n l : concat (np.chunks c n l) = take (n * c) l.
Proof.
  revert l. induction n as [|n IH]; intros l; simpl; [done|].
  by rewrite IH, take_take_drop.
Qed.

Lemma concat_chunks_all c n l :
  length l = n * c → concat (np.chunks c n l) = l.
Proof. intros Hl. rewrite concat_chunks. apply take_ge. lia. Qed.

Lemma chunks_concat c n rows :
  length rows = n → Forall (λ r, length r = c) rows →
  np.chunks c n (concat rows) = rows.
Proof.
  revert n. induction rows as [|r rows IH]; intros n Hn Hrows.
  - by subst n.
  - subst n. apply Forall_cons in Hrows as [Hr Hrows]. simpl.
    rewrite take_app_length', drop_app_length' by done.
    by rewrite IH.
Qed.

Lemma Forall_length_chunks c n l :
  n * c ≤ length l → Forall (λ r, length r = c) (np.chunks c n l).
Proof.
  revert l. induction n as [|n IH]; intros l Hl; simpl; constructor.
  - rewrite length_take. lia.
  - apply IH. rewrite length_drop. lia.
Qed.

Lemma chunks_singletons n l :
  length l = n → np.chunks 1 n l = map (λ x, [x]) l.
Proof.
  revert l. induction n as [|n IH]; intros [|x l] Hl; simpl in *; try done.
  rewrite take_0, drop_0. f_equal. apply IH. lia.
Qed.
End chunks.

(** ** Normalisation, step by step *)

Section normalize.
Context {St : Type} {scaler : Scaler St}.
Implicit Types (s : state St) (arr : ndarray) (d : list float).

Lemma load_Ok arr s d s' :
  Kam.load arr s = (Ok d, s') ↔ heap s !! buf arr = Some d ∧ s' = s.
Proof.
  unfold Kam.load. destruct (heap s !! buf arr) as [d'|]; simpl; split.
  - by intros [= -> ->].
  - by intros [[= ->] ->].
  - done.
  - by intros [[=] _].
Qed.

Lemma copy_Ok arr s a' s' :
  Kam.copy arr s = (Ok a', s') ↔
  ∃ d, heap s !! buf arr = Some d
       ∧ a' = NdArray (length (heap s)) (shape arr)
       ∧ s' = State (heap s ++ [d]) (_data_scalar s).
Proof.
  unfold Kam.copy. rewrite M_bind_Ok. split.
  - intros (d & s1 & Hload & Halloc). apply load_Ok in Hload as [Hd ->].
    injection Halloc as <- <-. eauto.
  - intros (d & Hd & -> & ->). exists d, s. split; [by apply load_Ok|done].
Qed.

Lemma insert_last (h : list (list float)) d d' :
  <[length h := d']> (h ++ [d]) = h ++ [d'].
Proof. rewrite insert_app_r_alt by done. by rewrite Nat.sub_diag. Qed.

Lemma size_div_target n k c mode :
  Kam.target_cols mode c ≠ 0 →
  np.size [n; k; c] `mod` Kam.target_cols mode c = 0
  ∧ np.size [n; k; c] `div` Kam.target_cols mode c * Kam.target_cols mode c
    = n * k * c.
Proof.
  intros Htc. unfold np.size. cbn [foldr]. rewrite Nat.mul_1_r.
  destruct mode; cbn [Kam.target_cols] in *.
  - replace (n * (k * c)) with (n * k * c) by lia.
    rewrite Nat.Div0.mod_mul, Nat.div_mul by done. done.
  - rewrite Nat.mod_1_r, Nat.div_1_r. lia.
Qed.

(** The array the scaler method is handed and what the call leaves. *)
Lemma call_scalar_Ok input_name m view s a3 s' :
  Kam.call_scalar input_name m view s = (Ok (PyArray a3), s') ↔
  ∃ sc sc' r c d rows,
    _data_scalar s !! input_name = Some sc
    ∧ shape view = [r; c] ∧ heap s !! buf view = Some d
    ∧ (m = transform ∧ sc' = sc
       ∨ m = fit_transform ∧ sc_fit sc (np.chunks c r d) = Ok sc')
    ∧ sc_transform sc' (np.chunks c r d) = Ok rows
    ∧ a3 = NdArray (length (heap s)) (shape view)
    ∧ s' = State (heap s ++ [concat rows])
                 (match m with
                  | fit_transform => <[input_name := sc']> (_data_scalar s)
                  | _ => _data_scalar s
                  end).
Proof.
  unfold Kam.call_scalar. rewrite M_bind_Ok. split.
  - intros (sc & s1 & Hsc & H). unfold Kam.get_scalar in Hsc.
    destruct (_data_scalar s !! input_name) as [sc0|] eqn:Hname; [|done].
    injection Hsc as <- <-.
    apply M_bind_Ok in H as (X & s2 & HX & H). unfold Kam.load_rows in HX.
    destruct (shape view) as [|r [|c [|]]] eqn:Hsh; try done.
    apply M_bind_Ok in HX as (d & s3 & Hd & HX). apply load_Ok in Hd as [Hd ->].
    injection HX as <- <-.
    destruct m.
    + apply M_bind_Ok in H as (sc' & s4 & _ & H).
      apply M_bind_Ok in H as ([] & s5 & _ & H). done.
    + apply M_bind_Ok in H as (rows & s4 & Hrows & H).
      apply lift_Ok in Hrows as [Hrows ->].
      apply M_fmap_Ok in H as (a' & Ha' & [= <-]). injection Ha' as <- <-.
      exists sc0, sc0, r, c, d, rows. eauto 10.
    + apply M_bind_Ok in H as (sc' & s4 & Hfit & H).
      apply lift_Ok in Hfit as [Hfit ->].
      apply M_bind_Ok in H as ([] & s5 & Hset & H). injection Hset as <-.
      apply M_bind_Ok in H as (rows & s6 & Hrows & H).
      apply lift_Ok in Hrows as [Hrows ->].
      apply M_fmap_Ok in H as (a' & Ha' & [= <-]). injection Ha' as <- <-.
      exists sc0, sc', r, c, d, rows. eauto 10.
  - intros (sc & sc' & r & c & d & rows & Hname & Hsh & Hd & Hm & Hrows & -> & ->).
    exists sc, s. split; [unfold Kam.get_scalar; by rewrite Hname|].
    apply M_bind_Ok. exists (np.chunks c r d), s. split.
    { unfold Kam.load_rows. rewrite Hsh. apply M_bind_Ok. exists d, s.
      split; [by apply load_Ok|done]. }
    destruct Hm as [[-> ->]|[-> Hfit]].
    + apply M_bind_Ok. exists rows, s. split; [by apply lift_Ok|].
      apply M_fmap_Ok. eexists. split; [reflexivity|done].
    + apply M_bind_Ok. exists sc', s. split; [by apply lift_Ok|].
      apply M_bind_Ok. eexists (), _. split; [reflexivity|].
      apply M_bind_Ok. eexists rows, _. split; [by apply lift_Ok|].
      apply M_fmap_Ok. eexists. split; [reflexivity|done].
Qed.

Lemma call_scalar_fit input_name view s r s' :
  Kam.call_scalar input_name fit view s = (Ok r, s') → r = PyScaler input_name.
Proof.
  unfold Kam.call_scalar. intros H.
  apply M_bind_Ok in H as (sc & s1 & _ & H).
  apply M_bind_Ok in H as (X & s2 & _ & H).
  apply M_bind_Ok in H as (sc' & s3 & _ & H).
  apply M_bind_Ok in H as ([] & s4 & _ & H). by injection H as <- _.
Qed.

(** What a call of the loop body that returns has done: it copied the
    input, marked the padding in the copy, handed the marked copy to the
    scaler, and put zero for [nan] in the array the scaler returned. *)
Lemma normalize_one_Ok m mode input_name arr s out s' :
  Kam.normalize_one m mode input_name arr s = (Ok out, s') ↔
  ∃ d n k c sc sc' rows,
    heap s !! buf arr = Some d ∧ shape arr = [n; k; c]
    ∧ Kam.target_cols mode c ≠ 0
    ∧ _data_scalar s !! input_name = Some sc
    ∧ let masked := concat (Kam.mask_padding (np.chunks c (n * k) d)) in
      let X := np.chunks (Kam.target_cols mode c)
                         (np.size [n; k; c] `div` Kam.target_cols mode c) masked in
      (m = transform ∧ sc' = sc ∨ m = fit_transform ∧ sc_fit sc X = Ok sc')
      ∧ sc_transform sc' X = Ok rows
      ∧ out = NdArray (S (length (heap s))) [n; k; c]
      ∧ s' = State (heap s ++ [masked; Kam.nan_to_zero (concat rows)])
                   (match m with
                    | fit_transform => <[input_name := sc']> (_data_scalar s)
                    | _ => _data_scalar s
                    end).
Proof.
  unfold Kam.normalize_one. rewrite M_bind_Ok. split.
  - intros (a1 & s1 & Hcopy & H).
    apply copy_Ok in Hcopy as (d & Hd & -> & ->). cbn [shape] in H.
    destruct (shape arr) as [|n [|k [|c [|]]]] eqn:Hsh; try done.
    apply M_bind_Ok in H as (d1 & s2 & Hd1 & H). apply load_Ok in Hd1 as [Hd1 ->].
    cbn [heap buf] in Hd1. rewrite list_lookup_middle in Hd1 by done.
    injection Hd1 as <-.
    apply M_bind_Ok in H as ([] & s3 & Hstore & H). injection Hstore as <-.
    cbn [heap buf _data_scalar] in H. rewrite insert_last in H.
    apply M_bind_Ok in H as (view & s4 & Hview & H).
    apply lift_Ok in Hview as [Hview ->]. unfold Kam.reshape_rows in Hview.
    case_decide as Htc; [done|]. case_decide; [|done]. injection Hview as <-.
    apply M_bind_Ok in H as (r & s5 & Hcall & H).
    apply M_bind_Ok in H as (a4 & s6 & Hback & H).
    apply lift_Ok in Hback as [Hback ->].
    destruct r as [a3|]; [|done]. unfold Kam.reshape_back in Hback.
    case_decide; [|done]. injection Hback as <-.
    apply call_scalar_Ok in Hcall
      as (sc & sc' & r & c' & d' & rows & Hname & Hvsh & Hd' & Hm & Hrows & -> & ->).
    cbn [heap buf shape _data_scalar] in *. injection Hvsh as <- <-.
    rewrite list_lookup_middle in Hd' by done. injection Hd' as <-.
    apply M_bind_Ok in H as (d4 & s7 & Hd4 & H). apply load_Ok in Hd4 as [Hd4 ->].
    cbn [heap buf] in Hd4.
    rewrite list_lookup_middle in Hd4 by (rewrite length_app; simpl; lia).
    injection Hd4 as <-.
    apply M_bind_Ok in H as ([] & s8 & Hstore & H). injection Hstore as <-.
    injection H as <- <-. cbn [heap buf _data_scalar].
    exists d, n, k, c, sc, sc', rows. repeat (split; [done|]).
    split; [by rewrite length_app, Nat.add_comm|].
    f_equal. by rewrite insert_last, <-(assoc_L (++)).
  - intros (d & n & k & c & sc & sc' & rows & Hd & Hsh & Htc & Hname & H).
    cbn zeta in H. destruct H as (Hm & Hrows & -> & ->).
    eexists _, _. split; [apply copy_Ok; eauto|]. cbn [shape]. rewrite Hsh.
    apply M_bind_Ok. eexists _, _. split.
    { apply load_Ok. cbn [heap buf]. by rewrite list_lookup_middle. }
    apply M_bind_Ok. eexists (), _. split; [reflexivity|].
    cbn [heap buf _data_scalar]. rewrite insert_last.
    destruct (size_div_target n k c mode Htc) as [Hmod _].
    apply M_bind_Ok. eexists _, _. split.
    { apply lift_Ok. split; [|reflexivity]. unfold Kam.reshape_rows.
      rewrite decide_False by done. cbn [shape]. by rewrite decide_True. }
    apply M_bind_Ok. eexists (PyArray _), _. split.
    { apply call_scalar_Ok. eexists sc, sc', _, _, _, rows.
      cbn [heap buf shape _data_scalar].
      split; [done|]. split; [done|].
      split; [by rewrite list_lookup_middle|]. split; [exact Hm|].
      split; [exact Hrows|]. done. }
    apply M_bind_Ok. eexists _, _. split.
    { apply lift_Ok. split; [|reflexivity]. unfold Kam.reshape_back.
      cbn [shape]. rewrite decide_True; [done|].
      destruct (size_div_target n k c mode Htc) as [_ Hsize].
      unfold np.size in *. simpl in *. lia. }
    apply M_bind_Ok. eexists _, _. split.
    { apply load_Ok. cbn [heap buf]. split; [|done].
      by rewrite list_lookup_middle by (by rewrite length_app). }
    apply M_bind_Ok. eexists (), _. split; [reflexivity|].
    cbn [heap buf _data_scalar]. unfold mret, M_ret.
    rewrite insert_last, <-(assoc_L (++)), length_app, Nat.add_comm. done.
Qed.
End normalize.

(** ** Padding and [nan] *)

Section padding.
Implicit Types (row : list float) (rows samples : list (list float)).

Lemma isnan_nan : np.isnan np.nan = true.
Proof. reflexivity. Qed.

Lemma nan_to_zero_no_nan (v : list float) :
  Forall (λ x, np.isnan x = false) (Kam.nan_to_zero v).
Proof.
  unfold Kam.nan_to_zero. apply Forall_fmap, Forall_forall. intros x _. simpl.
  destruct (np.isnan x) eqn:Hx; [reflexivity|done].
Qed.

Lemma nan_to_zero_lookup (v : list float) i :
  Kam.nan_to_zero v !! i
  = (λ x, if np.isnan x then 0%float else x) <$> v !! i.
Proof. unfold Kam.nan_to_zero. apply list_lookup_fmap. Qed.

Lemma nan_to_zero_all_nan (v : list float) :
  Forall (λ x, np.isnan x = true) v →
  Kam.nan_to_zero v = replicate (length v) 0%float.
Proof.
  induction 1 as [|x v Hx _ IH]; simpl; [done|]. by rewrite Hx, IH.
Qed.

Lemma length_mask_padding rows : length (Kam.mask_padding rows) = length rows.
Proof. unfold Kam.mask_padding. apply length_map. Qed.

Lemma mask_padding_lookup rows r :
  Kam.mask_padding rows !! r
  = (λ row, if Kam.is_padding row then map (λ _, np.nan) row else row) <$> rows !! r.
Proof. unfold Kam.mask_padding. apply list_lookup_fmap. Qed.

Lemma Forall_length_mask_padding c rows :
  Forall (λ row, length row = c) rows →
  Forall (λ row, length row = c) (Kam.mask_padding rows).
Proof.
  unfold Kam.mask_padding. intros Hrows. apply Forall_fmap.
  eapply Forall_impl; [exact Hrows|]. intros row Hrow. simpl.
  destruct (Kam.is_padding row); [by rewrite length_map|done].
Qed.

Lemma length_concat_rows {A} c (l : list (list A)) :
  Forall (λ xs, length xs = c) l → length (concat l) = length l * c.
Proof.
  induction 1 as [|xs l Hxs _ IH]; simpl; [done|].
  rewrite length_app, IH. lia.
Qed.

Lemma concat_singletons {A} (l : list A) : concat (map (λ x, [x]) l) = l.
Proof. induction l as [|x l IH]; simpl; [done|]. by rewrite IH. Qed.

Lemma concat_scaler_input mode rows : concat (scaler_input mode rows) = concat rows.
Proof. destruct mode; simpl; [done|]. apply concat_singletons. Qed.

Lemma Forall2_concat {A B} (P : A → B → Prop) (l : list (list A)) (l' : list (list B)) :
  Forall2 (Forall2 P) l l' → Forall2 P (concat l) (concat l').
Proof.
  induction 1 as [|x y l l' Hxy _ IH]; simpl; [constructor|].
  by apply Forall2_app.
Qed.

(** The two-dimensional view the scaler is handed is the marked samples,
    or their values one by one. *)
Lemma view_rows mode n k c (d : list float) :
  length d = n * k * c → Kam.target_cols mode c ≠ 0 →
  np.chunks (Kam.target_cols mode c)
            (np.size [n; k; c] `div` Kam.target_cols mode c)
            (concat (Kam.mask_padding (np.chunks c (n * k) d)))
  = scaler_input mode (Kam.mask_padding (np.chunks c (n * k) d)).
Proof.
  intros Hd Htc.
  assert (Forall (λ row, length row = c) (Kam.mask_padding (np.chunks c (n * k) d)))
    as Hrows by (apply Forall_length_mask_padding, Forall_length_chunks; lia).
  unfold np.size. cbn [foldr]. rewrite Nat.mul_1_r.
  destruct mode; cbn [Kam.target_cols scaler_input] in *.
  - replace (n * (k * c)) with (n * k * c) by lia. rewrite Nat.div_mul by done.
    apply chunks_concat; [|done]. by rewrite length_mask_padding, length_chunks.
  - rewrite Nat.div_1_r. apply chunks_singletons.
    rewrite (length_concat_rows c) by done.
    rewrite length_mask_padding, length_chunks. lia.
Qed.

(** Marked padding and dropped padding leave the same samples that are
    not [nan] throughout. *)
Lemma filter_mask_padding samples :
  filter (λ row, all_nan row = false) (Kam.mask_padding samples)
  = filter (λ row, all_nan row = false)
           (filter (λ row, Kam.is_padding row = false) samples).
Proof.
  induction samples as [|row samples IH]; [done|].
  unfold Kam.mask_padding in *. cbn [map]. rewrite !filter_cons.
  destruct (Kam.is_padding row) eqn:Hpad.
  - rewrite decide_False; [|].
    + rewrite (decide_False (P := true = false)) by done. exact IH.
    + assert (all_nan (map (λ _, np.nan) row) = true) as ->; [|done].
      unfold all_nan. apply forallb_forall. intros x Hx.
      apply in_map_iff in Hx as (? & <- & _). reflexivity.
  - rewrite (decide_True (P := false = false)) by done. rewrite filter_cons.
    destruct (decide (all_nan row = false)); by rewrite IH.
Qed.

Lemma all_nan_singleton x : all_nan [x] = np.isnan x.
Proof. unfold all_nan. simpl. by rewrite andb_true_r. Qed.

Lemma filter_singletons (l : list float) :
  filter (λ row, all_nan row = false) (map (λ x, [x]) l)
  = map (λ x, [x]) (filter (λ x, np.isnan x = false) l).
Proof.
  induction l as [|x l IH]; [done|]. cbn [map]. rewrite !filter_cons.
  rewrite all_nan_singleton. destruct (decide (np.isnan x = false)); simpl;
    by rewrite IH.
Qed.

Lemma filter_concat_mask_padding samples :
  filter (λ x, np.isnan x = false) (concat (Kam.mask_padding samples))
  = filter (λ x, np.isnan x = false)
           (concat (filter (λ row, Kam.is_padding row = false) samples)).
Proof.
  induction samples as [|row samples IH]; [done|].
  unfold Kam.mask_padding in *. cbn [map concat]. rewrite filter_cons, filter_app.
  destruct (Kam.is_padding row) eqn:Hpad.
  - rewrite (decide_False (P := true = false)) by done. rewrite IH.
    assert (filter (λ x, np.isnan x = false) (map (λ _ : float, np.nan) row) = [])
      as ->; [|done].
    clear. induction row as [|x row IH]; [done|]. cbn [map].
    rewrite filter_cons. by rewrite decide_False.
  - rewrite (decide_True (P := false = false)) by done. cbn [concat].
    by rewrite filter_app, IH.
Qed.

(** Fitting on the marked samples and fitting on the samples without the
    padding is the same to a scaler that disregards [nan]. *)
Lemma fit_without_padding {St} {scaler : Scaler St} (aware : NanAware scaler)
    (st : St) mode c samples :
  Forall (λ row, length row = c) samples →
  (∃ sample x, sample ∈ samples ∧ Kam.is_padding sample = false
               ∧ x ∈ sample ∧ np.isnan x = false) →
  sc_fit st (scaler_input mode (Kam.mask_padding samples))
  = sc_fit st (scaler_input mode
                 (filter (λ row, Kam.is_padding row = false) samples)).
Proof.
  intros Hrect (sample & x & Hin & Hpad & Hx & Hnan).
  assert (all_nan sample = false) as Hsample.
  { apply not_true_is_false. unfold all_nan. rewrite forallb_forall.
    intros Hall. apply list_elem_of_In in Hx. specialize (Hall x Hx). congruence. }
  assert (sample ∈ Kam.mask_padding samples) as Hin1.
  { unfold Kam.mask_padding. apply list_elem_of_fmap. exists sample.
    by rewrite Hpad. }
  assert (sample ∈ filter (λ row, Kam.is_padding row = false) samples) as Hin2
    by (by apply list_elem_of_filter).
  destruct mode; cbn [scaler_input].
  - rewrite (fit_disregards_nan st c (Kam.mask_padding samples)).
    + rewrite (fit_disregards_nan st c (filter _ samples)).
      * by rewrite filter_mask_padding.
      * apply Forall_forall. intros row Hrow.
        apply list_elem_of_filter in Hrow as [_ Hrow].
        rewrite Forall_forall in Hrect. by apply Hrect.
      * apply Exists_exists. eauto.
    + by apply Forall_length_mask_padding.
    + apply Exists_exists. eauto.
  - rewrite (fit_disregards_nan st 1 (map _ (concat (Kam.mask_padding samples)))).
    + rewrite (fit_disregards_nan st 1 (map _ (concat (filter _ samples)))).
      * by rewrite !filter_singletons, filter_concat_mask_padding.
      * apply Forall_fmap, Forall_forall. done.
      * apply Exists_exists. exists [x]. split; [|by rewrite all_nan_singleton].
        apply list_elem_of_fmap. exists x. split; [done|].
        apply list_elem_of_In, in_concat. exists sample.
        split; by apply list_elem_of_In.
    + apply Forall_fmap, Forall_forall. done.
    + apply Exists_exists. exists [x]. split; [|by rewrite all_nan_singleton].
      apply list_elem_of_fmap. exists x. split; [done|].
      apply list_elem_of_In, in_concat. exists sample.
      split; by apply list_elem_of_In.
Qed.
End padding.

(** ** Normalisation: the claims *)

Section normalize_claims.
Context {St : Type} {scaler : Scaler St}.
Implicit Types (s : state St) (arr : ndarray) (d : list float).

Lemma lookup_second_new {A} (h : list A) a b :
  (h ++ [a; b]) !! S (length h) = Some b.
Proof.
  rewrite lookup_app_r by lia. by replace (S (length h) - length h) with 1 by lia.
Qed.

Lemma protects_lookup {A} w (m : M St A) Q s l :
  protects w m Q → w ≤ length (heap s) → l < w →
  heap (m s).2 !! l = heap s !! l.
Proof.
  intros Hm Hw Hl. destruct (Hm s Hw) as [Ht _].
  by rewrite <-(lookup_take_lt (heap (m s).2) w l), Ht, lookup_take_lt.
Qed.

Lemma normalize_data_cons input_name arr data m mode s scaled s' :
  Kam.normalize_data ((input_name, arr) :: data) m mode s = (Ok scaled, s') ↔
  ∃ out s1 scaled',
    Kam.normalize_one m mode input_name arr s = (Ok out, s1)
    ∧ Kam.normalize_data data m mode s1 = (Ok scaled', s')
    ∧ scaled = (input_name, out) :: scaled'.
Proof.
  unfold Kam.normalize_data. rewrite mapM_cons, M_bind_Ok. split.
  - intros ([name out] & s1 & Hone & H).
    apply M_bind_Ok in Hone as (out' & s1' & Hone & [= <- <- <-]).
    apply M_bind_Ok in H as (scaled' & s2 & Hrest & [= <- <-]). eauto 10.
  - intros (out & s1 & scaled' & Hone & Hrest & ->).
    exists (input_name, out), s1. split.
    + apply M_bind_Ok. eauto.
    + apply M_bind_Ok. eauto.
Qed.

(** The arrays [normalize_data] returns hold no [nan], and the arrays of
    the groups normalised first are not touched by the later ones. *)
Lemma normalize_data_no_nan data m mode s scaled s' :
  Kam.normalize_data data m mode s = (Ok scaled, s') →
  Forall2 (λ kv kv', kv'.1 = kv.1 ∧ shape kv'.2 = shape kv.2
                     ∧ ∃ v, heap s' !! buf kv'.2 = Some v
                            ∧ Forall (λ x, np.isnan x = false) v)
          data scaled.
Proof.
  revert s scaled. induction data as [|[input_name arr] data IH]; intros s scaled.
  - intros [= <- <-]. constructor.
  - intros H. apply normalize_data_cons in H as (out & s1 & scaled' & Hone & Hrest & ->).
    constructor; [|by eapply IH].
    apply normalize_one_Ok in Hone
      as (d & n & k & c & sc & sc' & rows & Hd & Hsh & Htc & Hname & H).
    cbn zeta in H. destruct H as (_ & _ & -> & ->). cbn [fst snd shape buf].
    split; [done|]. split; [done|].
    exists (Kam.nan_to_zero (concat rows)). split; [|apply nan_to_zero_no_nan].
    match type of Hrest with Kam.normalize_data _ _ _ ?s1 = _ =>
      pose proof (protects_lookup (length (heap s1)) _ _ s1 (S (length (heap s)))
                    (protects_normalize_data _ data m mode) (le_n _)) as Hkeep
    end.
    rewrite Hrest in Hkeep. cbn [snd heap] in Hkeep.
    rewrite Hkeep by (rewrite length_app; simpl; lia).
    apply lookup_second_new.
Qed.

(** The loop body on an array whose buffer has the values its shape
    announces, when the scaler accepts the marked samples. *)
Lemma normalize_one_run m mode input_name arr s d n k c sc sc' rows :
  heap s !! buf arr = Some d → shape arr = [n; k; c] → length d = n * k * c →
  Kam.target_cols mode c ≠ 0 →
  _data_scalar s !! input_name = Some sc →
  (m = transform ∧ sc' = sc
   ∨ m = fit_transform
     ∧ sc_fit sc (scaler_input mode (Kam.mask_padding (np.chunks c (n * k) d)))
       = Ok sc') →
  sc_transform sc' (scaler_input mode (Kam.mask_padding (np.chunks c (n * k) d)))
  = Ok rows →
  Kam.normalize_one m mode input_name arr s
  = (Ok (NdArray (S (length (heap s))) [n; k; c]),
     State (heap s ++ [concat (Kam.mask_padding (np.chunks c (n * k) d));
                       Kam.nan_to_zero (concat rows)])
           (match m with
            | fit_transform => <[input_name := sc']> (_data_scalar s)
            | _ => _data_scalar s
            end)).
Proof.
  intros Hd Hsh Hlen Htc Hname Hm Hrows. apply normalize_one_Ok.
  exists d, n, k, c, sc, sc', rows. cbn zeta.
  rewrite view_rows by done. done.
Qed.
End normalize_claims.

Section normalize_forward.
Context {St : Type} {scaler : Scaler St}.
Implicit Types (s : state St) (arr : ndarray) (d : list float).

(** With [fit] the scaler method returns the scaler, which cannot be
    reshaped: the loop body has no result. *)
Lemma normalize_one_fit_raises mode input_name arr s :
  ∃ e, (Kam.normalize_one fit mode input_name arr s).1 = Raise e.
Proof.
  destruct (Kam.normalize_one fit mode input_name arr s) as [[out|e] s'] eqn:Hrun;
    [|by exists e].
  apply normalize_one_Ok
    in Hrun as (d & n & k & c & sc & sc' & rows & _ & _ & _ & _ & H).
  cbn zeta in H. by destruct H as ([[[=] _]|[[=] _]] & _).
Qed.

(** The loop body up to the call of the scaler method: the copy is made,
    its padding marked, and a two-dimensional view of it handed over. *)
Lemma normalize_one_to_call m mode input_name arr s d n k c :
  heap s !! buf arr = Some d → shape arr = [n; k; c] →
  Kam.target_cols mode c ≠ 0 →
  Kam.normalize_one m mode input_name arr s
  = (r ← Kam.call_scalar input_name m
           (NdArray (length (heap s))
                    [np.size [n; k; c] `div` Kam.target_cols mode c;
                     Kam.target_cols mode c]);
     input_data ← lift (Kam.reshape_back r [n; k; c]);
     d ← Kam.load input_data;
     Kam.store input_data (Kam.nan_to_zero d);;
     mret input_data)
      (State (heap s ++ [concat (Kam.mask_padding (np.chunks c (n * k) d))])
             (_data_scalar s)).
Proof.
  intros Hd Hsh Htc. unfold Kam.normalize_one. rewrite M_bind_run.
  assert (Kam.copy arr s
          = (Ok (NdArray (length (heap s)) (shape arr)),
             State (heap s ++ [d]) (_data_scalar s))) as ->.
  { apply copy_Ok. by exists d. }
  cbn [shape]. rewrite Hsh, M_bind_run. unfold Kam.load at 1. cbn [heap buf].
  rewrite lookup_app_r, Nat.sub_diag by done. cbn [lookup list_lookup or_raise].
  rewrite M_bind_run. unfold Kam.store at 1. cbn [heap buf _data_scalar].
  rewrite insert_last, M_bind_run. unfold lift at 1, Kam.reshape_rows.
  cbn [shape buf]. rewrite decide_False by done.
  destruct (size_div_target n k c mode Htc) as [Hmod _].
  by rewrite decide_True by done.
Qed.

(** A method that fits leaves the fitted scaler in the place of the old
    one, whether or not the method goes on to return an array. *)
Lemma call_scalar_fitted input_name m view s sc sc' r c d :
  m ≠ transform → _data_scalar s !! input_name = Some sc →
  shape view = [r; c] → heap s !! buf view = Some d →
  sc_fit sc (np.chunks c r d) = Ok sc' →
  ∃ res h',
    Kam.call_scalar input_name m view s
    = (res, State h' (<[input_name := sc']> (_data_scalar s))).
Proof.
  intros Hm Hname Hsh Hd Hfit. unfold Kam.call_scalar.
  rewrite M_bind_run. unfold Kam.get_scalar at 1. rewrite Hname. cbn [or_raise].
  rewrite M_bind_run. unfold Kam.load_rows at 1. rewrite Hsh.
  rewrite M_bind_run. unfold Kam.load at 1. rewrite Hd. cbn [or_raise].
  unfold mret at 1, M_ret at 1.
  destruct m; [|done|].
  - rewrite M_bind_run. unfold lift at 1. rewrite Hfit. eauto.
  - rewrite M_bind_run. unfold lift at 1. rewrite Hfit.
    rewrite M_bind_run. unfold Kam.set_scalar at 1.
    rewrite M_bind_run. unfold lift at 1.
    destruct (sc_transform sc' _) as [rows|e]; eauto.
Qed.

(** What follows the call of the scaler method changes no scaler. *)
Lemma normalize_one_tail_scalars (r : pyobj) original_shape s :
  _data_scalar
    ((input_data ← lift (Kam.reshape_back r original_shape);
      d ← Kam.load input_data;
      Kam.store input_data (Kam.nan_to_zero d);;
      mret input_data) s).2
  = _data_scalar s.
Proof.
  rewrite M_bind_run. unfold lift at 1.
  destruct (Kam.reshape_back r original_shape) as [a|e]; [|done].
  rewrite M_bind_run. unfold Kam.load at 1.
  by destruct (heap s !! buf a) as [d|].
Qed.

(** The loop body with a method that fits: whatever becomes of the call,
    the scaler of the group is left as fitted on the marked copy. *)
Lemma normalize_one_fitted m mode input_name arr s d n k c sc sc' :
  heap s !! buf arr = Some d → shape arr = [n; k; c] →
  Kam.target_cols mode c ≠ 0 →
  _data_scalar s !! input_name = Some sc → m ≠ transform →
  sc_fit sc (np.chunks (Kam.target_cols mode c)
                       (np.size [n; k; c] `div` Kam.target_cols mode c)
                       (concat (Kam.mask_padding (np.chunks c (n * k) d))))
  = Ok sc' →
  _data_scalar (Kam.normalize_one m mode input_name arr s).2 !! input_name
  = Some sc'.
Proof.
  intros Hd Hsh Htc Hname Hm Hfit.
  rewrite (normalize_one_to_call m mode input_name arr s d n k c) by done.
  rewrite M_bind_run.
  edestruct (call_scalar_fitted input_name m) as (res & h' & ->); [done|..|].
  - exact Hname.
  - reflexivity.
  - cbn [heap buf]. by rewrite lookup_app_r, Nat.sub_diag.
  - exact Hfit.
  - destruct res as [r|e].
    + rewrite normalize_one_tail_scalars. apply lookup_insert_eq.
    + apply lookup_insert_eq.
Qed.

(** A method that does not fit leaves the scalers as they were. *)
Lemma normalize_one_transform_scalars mode input_name arr s :
  _data_scalar (Kam.normalize_one transform mode input_name arr s).2
  = _data_scalar s.
Proof.
  unfold Kam.normalize_one. rewrite M_bind_run. unfold Kam.copy.
  rewrite M_bind_run. unfold Kam.load at 1.
  destruct (heap s !! buf arr) as [d|]; [|done]. cbn [or_raise Kam.alloc shape].
  destruct (shape arr) as [|n [|k [|c [|]]]]; try done.
  rewrite M_bind_run. unfold Kam.load at 1. cbn [heap buf].
  destruct ((heap s ++ [d]) !! length (heap s)) as [d1|]; [|done].
  cbn [or_raise]. rewrite M_bind_run. unfold Kam.store at 1.
  cbn [heap buf _data_scalar]. rewrite M_bind_run. unfold lift at 1.
  destruct (Kam.reshape_rows _ _) as [view|e]; [|done].
  rewrite M_bind_run.
  match goal with
  | |- _data_scalar (match Kam.call_scalar _ _ _ ?s1 with _ => _ end).2 = _ =>
      assert (_data_scalar (Kam.call_scalar input_name transform view s1).2
              = _data_scalar s1) as Hcall
  end.
  { unfold Kam.call_scalar. rewrite M_bind_run. unfold Kam.get_scalar at 1.
    cbn [_data_scalar].
    destruct (_data_scalar s !! input_name) as [sc|]; [|done]. cbn [or_raise].
    rewrite M_bind_run. unfold Kam.load_rows.
    destruct (shape view) as [|r [|c' [|]]]; try done.
    rewrite M_bind_run. unfold Kam.load at 1.
    destruct (heap _ !! buf view) as [dv|]; [|done]. cbn [or_raise].
    unfold mret at 1, M_ret at 1. rewrite M_bind_run. unfold lift at 1.
    by destruct (sc_transform sc _) as [rows|e]. }
  destruct (Kam.call_scalar _ _ _ _) as [[r|e] s2]; [|exact Hcall].
  rewrite normalize_one_tail_scalars. exact Hcall.
Qed.
End normalize_forward.

Section marked.
Context {St : Type} {scaler : Scaler St} (aware : NanAware scaler).
Implicit Types (s : state St) (arr : ndarray) (d : list float).

(** Marking the padding keeps every [nan] there was. *)
Lemma mask_padding_keeps_nan (samples : list (list float)) :
  Forall2 (λ x y, np.isnan x = true → np.isnan y = true)
          (concat samples) (concat (Kam.mask_padding samples)).
Proof.
  induction samples as [|row samples IH]; [constructor|].
  unfold Kam.mask_padding in *. cbn [map concat]. apply Forall2_app; [|exact IH].
  destruct (Kam.is_padding row).
  - apply Forall2_fmap_r, Forall_Forall2_diag, Forall_forall. done.
  - apply Forall_Forall2_diag, Forall_forall. done.
Qed.

(** What a scaler that maintains [nan] returns for the marked samples, with
    zero for [nan]: as many values as it was handed, none of them [nan], and
    zero wherever the marked samples hold [nan] - in particular throughout
    the padding and at every [nan] of the raw data. *)
Lemma marked_values_zero mode n k c d (st : St) rows :
  length d = n * k * c →
  let samples := np.chunks c (n * k) d in
  sc_transform st (scaler_input mode (Kam.mask_padding samples)) = Ok rows →
  length (Kam.nan_to_zero (concat rows)) = n * k * c
  ∧ (∀ i x, d !! i = Some x → np.isnan x = true →
       Kam.nan_to_zero (concat rows) !! i = Some 0%float)
  ∧ (∀ r sample, samples !! r = Some sample → Kam.is_padding sample = true →
       np.chunks c (n * k) (Kam.nan_to_zero (concat rows)) !! r
       = Some (replicate c 0%float)).
Proof.
  intros Hlen samples Hrows.
  assert (Forall (λ row, length row = c) samples) as Hrect
    by (apply Forall_length_chunks; lia).
  assert (length samples = n * k) as Hsamples by apply length_chunks.
  pose proof (transform_maintains_nan _ _ _ Hrows) as Hnan.
  apply Forall2_concat in Hnan. rewrite concat_scaler_input in Hnan.
  assert (length (concat rows) = n * k * c) as Hout.
  { rewrite <-(Forall2_length _ _ _ Hnan).
    rewrite (length_concat_rows c) by by apply Forall_length_mask_padding.
    by rewrite length_mask_padding, Hsamples. }
  split; [unfold Kam.nan_to_zero; by rewrite length_map|]. split.
  - intros i x Hx Hxnan.
    pose proof (mask_padding_keeps_nan samples) as Hkeep.
    unfold samples in Hkeep at 1. rewrite concat_chunks_all in Hkeep by done.
    destruct (Forall2_lookup_l _ _ _ _ _ Hkeep Hx) as (y & Hy & Hxy).
    destruct (Forall2_lookup_l _ _ _ _ _ Hnan Hy) as (z & Hz & Hyz).
    rewrite nan_to_zero_lookup, Hz. simpl. by rewrite (Hyz (Hxy Hxnan)).
  - intros r sample Hr Hpad.
    assert (r < n * k) as Hlt by (rewrite <-Hsamples; by eapply lookup_lt_Some).
    rewrite chunks_lookup by done. f_equal.
    unfold Kam.nan_to_zero. rewrite <-fmap_drop, <-fmap_take.
    fold (Kam.nan_to_zero (take c (drop (r * c) (concat rows)))).
    assert (Forall2 (λ x y, np.isnan x = true → np.isnan y = true)
              (map (λ _, np.nan) sample) (take c (drop (r * c) (concat rows))))
      as Hrow.
    { assert (take c (drop (r * c) (concat (Kam.mask_padding samples)))
              = map (λ _, np.nan) sample) as <-.
      { apply (inj Some). rewrite <-(chunks_lookup c (n * k)) by done.
        rewrite chunks_concat.
        - by rewrite mask_padding_lookup, Hr; simpl; rewrite Hpad.
        - by rewrite length_mask_padding.
        - by apply Forall_length_mask_padding. }
      by apply Forall2_take, Forall2_drop. }
    rewrite nan_to_zero_all_nan.
    + rewrite <-(Forall2_length _ _ _ Hrow), length_map.
      rewrite Forall_forall in Hrect. f_equal. apply Hrect.
      by eapply list_elem_of_lookup_2.
    + apply (Forall2_Forall_r _ (λ x, np.isnan x = true)) in Hrow.
      * eapply Forall_impl; [exact Hrow|]. intros y Hy. apply Hy.
      * apply Forall_fmap, Forall_forall. intros x _. simpl.
        intros y Hy. apply Hy. reflexivity.
Qed.

(** The same of the array a call of the loop body has returned. *)
Lemma normalize_one_marked m mode input_name arr s out s' d n k c :
  Kam.normalize_one m mode input_name arr s = (Ok out, s') →
  heap s !! buf arr = Some d → shape arr = [n; k; c] → length d = n * k * c →
  ∃ v, shape out = [n; k; c] ∧ heap s' !! buf out = Some v
       ∧ length v = n * k * c
       ∧ (∀ i x, d !! i = Some x → np.isnan x = true → v !! i = Some 0%float)
       ∧ (∀ r sample, np.chunks c (n * k) d !! r = Some sample →
            Kam.is_padding sample = true →
            np.chunks c (n * k) v !! r = Some (replicate c 0%float)).
Proof.
  intros Hrun Hd Hsh Hlen.
  apply normalize_one_Ok in Hrun
    as (d0 & n0 & k0 & c0 & sc & sc' & rows & Hd0 & Hsh0 & Htc & Hname & H).
  rewrite Hd in Hd0. injection Hd0 as <-.
  rewrite Hsh in Hsh0. injection Hsh0 as <- <- <-.
  cbn zeta in H. rewrite view_rows in H by done.
  destruct H as (_ & Hrows & -> & ->).
  exists (Kam.nan_to_zero (concat rows)). cbn [shape buf heap].
  split; [done|]. split; [apply lookup_second_new|].
  by apply (marked_values_zero mode n k c d sc' rows).
Qed.
End marked.

(** C10: for every method and every mode, the arrays [normalize_data]
    returns hold no [nan]. Of the loop body, which copies the array, marks
    the padding of the copy with [nan] and hands it to the scaler:
    (1) with [transform] and [fit_transform], whenever the scaler accepts the
    marked samples, it returns an array of the shape of its input whose
    values are those the scaler returned with 0 in the place of every [nan],
    so that none of them is [nan];
    (2) every array of the dictionary [normalize_data] returns is free of
    [nan], whatever the method;
    (3) whatever the method, an array the loop body returns is of the shape
    of its input and holds the values the scaler's [transform] returned for
    the marked copy, with 0 in the place of every [nan], none of them [nan];
    (4) with a scaler that maintains [nan], an array the loop body returns
    has 0 at every place where the raw data have [nan] and 0 throughout
    every padding sample: the two cannot be told apart. *)
Theorem normalize_output_has_no_nan {St : Type} {scaler : Scaler St}
    (m : method) (mode : scalar_mode) :
  (∀ input_name arr (s : state St) d n k c sc sc' rows,
     heap s !! buf arr = Some d → shape arr = [n; k; c] → length d = n * k * c →
     Kam.target_cols mode c ≠ 0 →
     _data_scalar s !! input_name = Some sc →
     let X := scaler_input mode (Kam.mask_padding (np.chunks c (n * k) d)) in
     (m = transform ∧ sc' = sc ∨ m = fit_transform ∧ sc_fit sc X = Ok sc') →
     sc_transform sc' X = Ok rows →
     ∃ out s',
       Kam.normalize_one m mode input_name arr s = (Ok out, s')
       ∧ shape out = [n; k; c]
       ∧ heap s' !! buf out = Some (Kam.nan_to_zero (concat rows))
       ∧ Forall (λ x, np.isnan x = false) (Kam.nan_to_zero (concat rows))
       ∧ ∀ i x, concat rows !! i = Some x →
           Kam.nan_to_zero (concat rows) !! i
           = Some (if np.isnan x then 0%float else x))
  ∧ (∀ data (s : state St) scaled s',
       Kam.normalize_data data m mode s = (Ok scaled, s') →
       Forall2 (λ kv kv', kv'.1 = kv.1 ∧ shape kv'.2 = shape kv.2
                          ∧ ∃ v, heap s' !! buf kv'.2 = Some v
                                 ∧ Forall (λ x, np.isnan x = false) v)
               data scaled)
  ∧ (∀ input_name arr (s : state St) out s',
       Kam.normalize_one m mode input_name arr s = (Ok out, s') →
       ∃ d n k c sc' rows,
         heap s !! buf arr = Some d ∧ shape arr = [n; k; c]
         ∧ sc_transform sc'
             (np.chunks (Kam.target_cols mode c)
                        (np.size [n; k; c] `div` Kam.target_cols mode c)
                        (concat (Kam.mask_padding (np.chunks c (n * k) d))))
           = Ok rows
         ∧ shape out = [n; k; c]
         ∧ heap s' !! buf out = Some (Kam.nan_to_zero (concat rows))
         ∧ Forall (λ x, np.isnan x = false) (Kam.nan_to_zero (concat rows))
         ∧ ∀ i x, concat rows !! i = Some x →
             Kam.nan_to_zero (concat rows) !! i
             = Some (if np.isnan x then 0%float else x))
  ∧ (∀ (aware : NanAware scaler) input_name arr (s : state St) out s' d n k c,
       Kam.normalize_one m mode input_name arr s = (Ok out, s') →
       heap s !! buf arr = Some d → shape arr = [n; k; c] →
       length d = n * k * c →
       ∃ v, heap s' !! buf out = Some v
            ∧ (∀ i x, d !! i = Some x → np.isnan x = true →
                 v !! i = Some 0%float)
            ∧ (∀ r sample, np.chunks c (n * k) d !! r = Some sample →
                 Kam.is_padding sample = true →
                 np.chunks c (n * k) v !! r = Some (replicate c 0%float))).
Proof.
  split; [|split; [|split]].
  - intros input_name arr s d n k c sc sc' rows Hd Hsh Hlen Htc Hname X Hm Hrows.
    eexists _, _. split; [by eapply normalize_one_run|].
    cbn [shape buf heap]. split; [done|]. split.
    { apply lookup_second_new. }
    split; [apply nan_to_zero_no_nan|].
    intros i x Hx. by rewrite nan_to_zero_lookup, Hx.
  - intros data s scaled s'. apply normalize_data_no_nan.
  - intros input_name arr s out s' Hrun.
    apply normalize_one_Ok in Hrun
      as (d & n & k & c & sc & sc' & rows & Hd & Hsh & Htc & Hname & H).
    cbn zeta in H. destruct H as (_ & Hrows & -> & ->).
    exists d, n, k, c, sc', rows. cbn [shape buf heap].
    split; [done|]. split; [done|]. split; [done|]. split; [done|].
    split; [apply lookup_second_new|]. split; [apply nan_to_zero_no_nan|].
    intros i x Hx. by rewrite nan_to_zero_lookup, Hx.
  - intros aware input_name arr s out s' d n k c Hrun Hd Hsh Hlen.
    destruct (normalize_one_marked aware m mode input_name arr s out s' d n k c
                Hrun Hd Hsh Hlen) as (v & _ & Hv & _ & Hnan & Hpad).
    exists v. done.
Qed.

(** C4: a padding sample - all zero over the columns of its group - is all
    zero again in the normalised output, and is not among the samples the
    scaler is fitted on. For every method and mode, a scaler that treats
    [nan] as scikit-learn's do (maintained in [transform], disregarded in
    [fit]), and an array whose buffer has the values its shape announces:
    (1) every array the loop body of [normalize_data] returns has the shape
    of its input, and each of its samples that was all zero in the input is
    all zero;
    (2) with [transform] and [fit_transform] the loop body does return an
    array, whenever the scaler accepts the samples with the padding marked;
    (3) with [fit] and [fit_transform], once the scaler has accepted the
    marked samples in [fit], it is left - whether or not the loop body goes
    on to return - in the state fitted on them, which is the state fitted on
    the samples without the padding (given one of these with a value that is
    not [nan]);
    (4) with [transform] no scaler is fitted;
    (5) with [fit] the loop body returns no array: it raises. *)
Theorem padding_is_zero_after_normalization {St : Type} {scaler : Scaler St}
    (aware : NanAware scaler) (m : method) (mode : scalar_mode)
    (input_name : string) (arr : ndarray) (s : state St)
    (d : list float) (n k c : nat) :
  heap s !! buf arr = Some d → shape arr = [n; k; c] → length d = n * k * c →
  let samples := np.chunks c (n * k) d in
  let X := scaler_input mode (Kam.mask_padding samples) in
  let run := Kam.normalize_one m mode input_name arr s in
  (∀ out s', run = (Ok out, s') →
     ∃ v, shape out = [n; k; c] ∧ heap s' !! buf out = Some v
          ∧ length v = n * k * c
          ∧ ∀ r sample, samples !! r = Some sample →
              Kam.is_padding sample = true →
              np.chunks c (n * k) v !! r = Some (replicate c 0%float))
  ∧ (∀ sc sc' rows,
       Kam.target_cols mode c ≠ 0 → _data_scalar s !! input_name = Some sc →
       (m = transform ∧ sc' = sc ∨ m = fit_transform ∧ sc_fit sc X = Ok sc') →
       sc_transform sc' X = Ok rows →
       ∃ out s', run = (Ok out, s'))
  ∧ (∀ sc sc',
       m ≠ transform → Kam.target_cols mode c ≠ 0 →
       _data_scalar s !! input_name = Some sc → sc_fit sc X = Ok sc' →
       _data_scalar run.2 !! input_name = Some sc'
       ∧ ((∃ sample x, sample ∈ samples ∧ Kam.is_padding sample = false
                       ∧ x ∈ sample ∧ np.isnan x = false) →
          sc_fit sc (scaler_input mode
                       (filter (λ sample, Kam.is_padding sample = false) samples))
          = Ok sc'))
  ∧ (m = transform → _data_scalar run.2 = _data_scalar s)
  ∧ (m = fit → ∃ e, run.1 = Raise e).
Proof.
  intros Hd Hsh Hlen samples X run. unfold X, run, samples. clear X run samples.
  split; [|split; [|split; [|split]]].
  - intros out s' Hrun.
    destruct (normalize_one_marked aware m mode input_name arr s out s' d n k c
                Hrun Hd Hsh Hlen) as (v & Hshape & Hv & Hlenv & _ & Hpad).
    exists v. done.
  - intros sc sc' rows Htc Hname Hm Hrows. eexists _, _.
    by eapply normalize_one_run.
  - intros sc sc' Hm Htc Hname Hfit. split.
    + apply (normalize_one_fitted m mode input_name arr s d n k c sc sc');
        try done.
      by rewrite view_rows.
    + intros Hsome.
      rewrite <-(fit_without_padding aware sc mode c); [done| |done].
      apply Forall_length_chunks. lia.
  - intros ->. apply normalize_one_transform_scalars.
  - intros ->. apply normalize_one_fit_raises.
Qed.

(** ** The reference scaler disregards and maintains [nan] *)

Section floats.
Lemma SFeqb_diag f : SFeqb f f = false ↔ f = S754_nan.
Proof.
  unfold SFeqb. destruct f as [sg|sg| |sg mt e]; simpl.
  - by destruct sg.
  - by destruct sg.
  - done.
  - rewrite Z.compare_refl.
    pose proof (Pos.compare_cont_refl mt Eq) as Hm.
    destruct sg; simpl; rewrite ?Hm; simpl; rewrite ?Pos.compare_refl; done.
Qed.

Lemma isnan_spec x : np.isnan x = true ↔ Prim2SF x = S754_nan.
Proof.
  unfold np.isnan, is_nan. rewrite FloatAxioms.eqb_spec, negb_true_iff.
  apply SFeqb_diag.
Qed.

Lemma isnan_mul_l x y : np.isnan x = true → np.isnan (x * y) = true.
Proof. rewrite !isnan_spec. intros Hx. by rewrite FloatAxioms.mul_spec, Hx. Qed.

Lemma isnan_add_l x y : np.isnan x = true → np.isnan (x + y) = true.
Proof. rewrite !isnan_spec. intros Hx. by rewrite FloatAxioms.add_spec, Hx. Qed.

Lemma isnan_not_inf x : np.isnan x = true → (np.abs x =? infinity)%float = false.
Proof.
  rewrite isnan_spec. intros Hx. unfold np.abs.
  by rewrite FloatAxioms.eqb_spec, FloatAxioms.abs_spec, Hx.
Qed.
End floats.

Section min_max_scaler.
Import MinMaxScaler.

Lemma transform_row_maintains_nan (f : fitted) (row : list float) :
  length row = length f →
  Forall2 (λ x y, np.isnan x = true → np.isnan y = true) row
          (zip_with (λ x sm, (x * sm.1 + sm.2)%float) row f).
Proof.
  revert f. induction row as [|x row IH]; intros [|sm f] Hlen; simpl in *;
    try done; constructor; [|apply IH; lia].
  intros Hx. by apply isnan_add_l, isnan_mul_l.
Qed.

Lemma all_nan_lookup row k :
  all_nan row = true → np.isnan (default np.nan (row !! k)) = true.
Proof.
  unfold all_nan. rewrite forallb_forall. intros Hall.
  destruct (row !! k) as [x|] eqn:Hk; simpl; [|reflexivity].
  apply Hall, list_elem_of_In. by eapply list_elem_of_lookup_2.
Qed.

Lemma filter_column X k :
  filter (λ x, np.isnan x = false) (column X k)
  = filter (λ x, np.isnan x = false)
           (column (filter (λ row, all_nan row = false) X) k).
Proof.
  unfold column. induction X as [|row X IH]; [done|].
  cbn [map]. rewrite !filter_cons.
  destruct (decide (all_nan row = false)) as [Hrow|Hrow].
  - cbn [map]. rewrite filter_cons. by rewrite IH.
  - apply not_false_is_true in Hrow.
    rewrite decide_False; [done|].
    by rewrite (all_nan_lookup row k Hrow).
Qed.

Lemma fit_column_filter X k :
  fit_column (column X k)
  = fit_column (column (filter (λ row, all_nan row = false) X) k).
Proof. unfold fit_column, nanmin, nanmax. by rewrite <-!filter_column. Qed.

Lemma no_inf_filter X :
  no_inf (filter (λ row, all_nan row = false) X) = no_inf X.
Proof.
  unfold no_inf. induction X as [|row X IH]; [done|]. rewrite filter_cons.
  destruct (decide (all_nan row = false)) as [Hrow|Hrow]; cbn [forallb].
  - by rewrite IH.
  - apply not_false_is_true in Hrow. rewrite IH.
    assert (forallb (λ x, negb (np.abs x =? infinity)%float) row = true) as ->;
      [|done].
    unfold all_nan in Hrow. rewrite forallb_forall in Hrow.
    apply forallb_forall. intros x Hx. by rewrite isnan_not_inf by by apply Hrow.
Qed.

Global Instance min_max_nan_aware : NanAware MinMaxScaler.scaler.
Proof.
  split.
  - intros st X out. simpl. unfold transform. destruct st as [f|]; [|done].
    case_decide as HX; [done|]. destruct (no_inf X); [|done]. intros [= <-].
    assert (Forall (λ row, length row = length f) X) as Hrect.
    { destruct (decide (Forall (λ row, length row = length f) X)); [done|].
      exfalso. apply HX. by right. }
    apply Forall2_fmap_r, Forall_Forall2_diag.
    eapply Forall_impl; [exact Hrect|]. intros row Hrow.
    by apply transform_row_maintains_nan.
  - intros st c X Hrect Hsome. simpl. unfold fit.
    set (X' := filter (λ row, all_nan row = false) X).
    assert (Forall (λ row, length row = c) X') as Hrect'.
    { apply Forall_forall. intros row Hrow.
      apply list_elem_of_filter in Hrow as [_ Hrow].
      rewrite Forall_forall in Hrect. by apply Hrect. }
    assert (c ≠ 0) as Hc.
    { apply Exists_exists in Hsome as (row & Hrow & Hnan).
      rewrite Forall_forall in Hrect. specialize (Hrect row Hrow).
      intros ->. by destruct row. }
    assert (X' ≠ []) as HX'.
    { apply Exists_exists in Hsome as (row & Hrow & Hnan).
      assert (row ∈ X') by (by apply list_elem_of_filter).
      intros HX'. rewrite HX' in *. by eapply not_elem_of_nil. }
    destruct X as [|row0 X0]; [by apply Exists_nil in Hsome|].
    destruct X' as [|row0' X0'] eqn:HeqX'; [done|].
    assert (length row0 = c) as Hrow0 by (by apply Forall_cons in Hrect as [? _]).
    assert (length row0' = c) as Hrow0' by (by apply Forall_cons in Hrect' as [? _]).
    rewrite Hrow0, Hrow0'.
    rewrite !decide_False by (intros [?|Hn]; [done|by apply Hn]).
    rewrite <-HeqX'. unfold X'. rewrite no_inf_filter.
    destruct (no_inf (row0 :: X0)); [|done].
    do 2 f_equal. apply map_ext. intros k. apply fit_column_filter.
Qed.
End min_max_scaler.

(** ** Training tensors: where their values come from *)

Section training_values.
Context {St : Type} {scaler : Scaler St} {shuffler : Shuffle}.
Implicit Types (s : state St) (arr : ndarray) (x : dict ndarray).

Lemma grows_refl s : grows s s.
Proof. unfold grows. by rewrite take_ge. Qed.

Lemma grows_length s s' : grows s s' → length (heap s) ≤ length (heap s').
Proof.
  unfold grows. intros H. apply (f_equal length) in H.
  rewrite length_take in H. lia.
Qed.

Lemma grows_trans s1 s2 s3 : grows s1 s2 → grows s2 s3 → grows s1 s3.
Proof.
  intros H12 H23. pose proof (grows_length _ _ H12) as Hlen.
  unfold grows in *.
  assert (take (length (heap s1)) (heap s3)
          = take (length (heap s1)) (take (length (heap s2)) (heap s3))) as ->.
  { rewrite take_take. f_equal. lia. }
  by rewrite H23.
Qed.

Lemma grows_lookup s s' l :
  grows s s' → l < length (heap s) → heap s' !! l = heap s !! l.
Proof.
  unfold grows. intros H Hl.
  rewrite <-(lookup_take_lt (heap s') (length (heap s)) l) by done. by rewrite H.
Qed.

Lemma grows_app s v (sc : gmap string St) : grows s (State (heap s ++ v) sc).
Proof. unfold grows. simpl. by rewrite take_app_length. Qed.

Lemma protects_grows {A} (m : M St A) (Q : nat → A → Prop) s :
  (∀ w, protects w m (Q w)) → grows s (m s).2.
Proof.
  intros Hm. destruct (Hm (length (heap s)) s (le_n _)) as [Ht _].
  unfold grows. by rewrite Ht, take_ge.
Qed.

Lemma protects_grows_run {A} (m : M St A) (Q : nat → A → Prop) s r s' :
  (∀ w, protects w m (Q w)) → m s = (r, s') → grows s s'.
Proof. intros Hm Hrun. pose proof (protects_grows m Q s Hm). by rewrite Hrun in *. Qed.

Lemma contents_grows s s' x :
  grows s s' → Forall (λ kv, buf kv.2 < length (heap s)) x →
  contents s' x = contents s x.
Proof.
  intros Hg Hx. unfold contents. apply Forall_fmap_ext_1.
  eapply Forall_impl; [exact Hx|]. intros kv Hkv. simpl. unfold val.
  by rewrite (grows_lookup s s').
Qed.

Lemma for_each_functional {A B} (f : A → result B) l ys ys' :
  for_each f l = Ok ys → for_each f l = Ok ys' → ys = ys'.
Proof. congruence. Qed.

Lemma mapM_load_Ok (arrays : list ndarray) s ds s' :
  mapM Kam.load arrays s = (Ok ds, s') →
  s' = s ∧ Forall2 (λ arr d, heap s !! buf arr = Some d) arrays ds.
Proof.
  revert ds. induction arrays as [|arr arrays IH]; intros ds.
  - intros [= <- <-]. split; [done|constructor].
  - rewrite mapM_cons. intros H.
    apply M_bind_Ok in H as (d & s1 & Hd & H). apply load_Ok in Hd as [Hd ->].
    apply M_bind_Ok in H as (ds' & s2 & Hds & [= <- <-]).
    apply IH in Hds as [-> Hds]. split; [done|by constructor].
Qed.

(** What a new array holds once it is allocated. *)
Lemma val_new s v sh (sc : gmap string St) :
  val (State (heap s ++ [v]) sc) (NdArray (length (heap s)) sh) = (sh, Some v).
Proof. unfold val. simpl. by rewrite list_lookup_middle. Qed.

(** Two runs of [np.concatenate] on arrays of the same values. *)
Lemma concatenate_two_runs (arrays : list ndarray) s1 s2 a1 a2 s1' s2' :
  Kam.concatenate arrays s1 = (Ok a1, s1') →
  Kam.concatenate arrays s2 = (Ok a2, s2') →
  (∀ arr, arr ∈ arrays → heap s1 !! buf arr = heap s2 !! buf arr) →
  val s1' a1 = val s2' a2
  ∧ buf a1 < length (heap s1') ∧ buf a2 < length (heap s2').
Proof.
  unfold Kam.concatenate. intros H1 H2 Hsame.
  destruct arrays as [|a0 arrays]; [done|].
  destruct (shape a0) as [|n0 rest]; [done|].
  apply M_bind_Ok in H1 as (ns1 & t1 & Hns1 & H1). apply lift_Ok in Hns1 as [Hns1 ->].
  apply M_bind_Ok in H2 as (ns2 & t2 & Hns2 & H2). apply lift_Ok in Hns2 as [Hns2 ->].
  assert (ns1 = ns2) as <- by congruence.
  apply M_bind_Ok in H1 as (ds1 & t1 & Hds1 & H1). apply mapM_load_Ok in Hds1 as [-> Hds1].
  apply M_bind_Ok in H2 as (ds2 & t2 & Hds2 & H2). apply mapM_load_Ok in Hds2 as [-> Hds2].
  assert (ds1 = ds2) as <-.
  { clear -Hds1 Hds2 Hsame. revert ds2 Hds2.
    induction Hds1 as [|arr d arrs ds Hd _ IH]; intros ds2 Hds2.
    - by apply Forall2_nil_inv_l in Hds2.
    - apply Forall2_cons_inv_l in Hds2 as (d2 & ds2' & Hd2 & Hds2' & ->).
      rewrite Hsame in Hd by left. f_equal; [congruence|].
      apply IH; [|done]. intros arr' Harr'. apply Hsame. by right. }
  injection H1 as <- <-. injection H2 as <- <-.
  rewrite !val_new. simpl. rewrite !length_app. simpl. split; [done|lia].
Qed.

Lemma shuffle_two_runs a1 a2 s1 s2 b1 b2 s1' s2' :
  Kam.shuffle a1 s1 = (Ok b1, s1') → Kam.shuffle a2 s2 = (Ok b2, s2') →
  val s1 a1 = val s2 a2 →
  val s1' b1 = val s2' b2
  ∧ buf b1 < length (heap s1') ∧ buf b2 < length (heap s2').
Proof.
  unfold Kam.shuffle, val. intros H1 H2 [= Hsh Hval]. rewrite <-Hsh in H2.
  destruct (shape a1) as [|n rest]; [done|].
  apply M_bind_Ok in H1 as (d1 & t1 & Hd1 & H1). apply load_Ok in Hd1 as [Hd1 ->].
  apply M_bind_Ok in H2 as (d2 & t2 & Hd2 & H2). apply load_Ok in Hd2 as [Hd2 ->].
  assert (d1 = d2) as <- by congruence.
  apply M_bind_Ok in H1 as (p1 & t1 & Hp1 & H1). apply lift_Ok in Hp1 as [Hp1 ->].
  apply M_bind_Ok in H2 as (p2 & t2 & Hp2 & H2). apply lift_Ok in Hp2 as [Hp2 ->].
  assert (p1 = p2) as <- by congruence.
  injection H1 as <- <-. injection H2 as <- <-.
  fold (val (State (heap s1 ++ [concat p1]) (_data_scalar s1))
            (NdArray (length (heap s1)) (length p1 :: rest))).
  fold (val (State (heap s2 ++ [concat p1]) (_data_scalar s2))
            (NdArray (length (heap s2)) (length p1 :: rest))).
  rewrite !val_new. simpl. rewrite !length_app. simpl. split; [done|lia].
Qed.

Lemma take_cols_two_runs a1 a2 cols s1 s2 b1 b2 s1' s2' :
  Kam.take_cols a1 cols s1 = (Ok b1, s1') →
  Kam.take_cols a2 cols s2 = (Ok b2, s2') →
  val s1 a1 = val s2 a2 →
  val s1' b1 = val s2' b2
  ∧ buf b1 < length (heap s1') ∧ buf b2 < length (heap s2').
Proof.
  unfold Kam.take_cols, val. intros H1 H2 [= Hsh Hval]. rewrite <-Hsh in H2.
  destruct (shape a1) as [|n [|k [|c [|]]]]; try done.
  apply M_bind_Ok in H1 as (d1 & t1 & Hd1 & H1). apply load_Ok in Hd1 as [Hd1 ->].
  apply M_bind_Ok in H2 as (d2 & t2 & Hd2 & H2). apply load_Ok in Hd2 as [Hd2 ->].
  assert (d1 = d2) as <- by congruence.
  apply M_bind_Ok in H1 as (p1 & t1 & Hp1 & H1). apply lift_Ok in Hp1 as [Hp1 ->].
  apply M_bind_Ok in H2 as (p2 & t2 & Hp2 & H2). apply lift_Ok in Hp2 as [Hp2 ->].
  assert (p1 = p2) as <- by congruence.
  injection H1 as <- <-. injection H2 as <- <-.
  fold (val (State (heap s1 ++ [concat p1]) (_data_scalar s1))
            (NdArray (length (heap s1)) [n; k; length cols])).
  fold (val (State (heap s2 ++ [concat p1]) (_data_scalar s2))
            (NdArray (length (heap s2)) [n; k; length cols])).
  rewrite !val_new. simpl. rewrite !length_app. simpl. split; [done|lia].
Qed.

Lemma copy_two_runs a1 a2 s1 s2 b1 b2 s1' s2' :
  Kam.copy a1 s1 = (Ok b1, s1') → Kam.copy a2 s2 = (Ok b2, s2') →
  val s1 a1 = val s2 a2 →
  val s1' b1 = val s2' b2
  ∧ buf b1 < length (heap s1') ∧ buf b2 < length (heap s2').
Proof.
  unfold val. intros H1 H2 [= Hsh Hval].
  apply copy_Ok in H1 as (d1 & Hd1 & -> & ->).
  apply copy_Ok in H2 as (d2 & Hd2 & -> & ->).
  assert (d1 = d2) as <- by congruence. rewrite Hsh.
  fold (val (State (heap s1 ++ [d1]) (_data_scalar s1))
            (NdArray (length (heap s1)) (shape a2))).
  fold (val (State (heap s2 ++ [d1]) (_data_scalar s2))
            (NdArray (length (heap s2)) (shape a2))).
  rewrite !val_new. simpl. rewrite !length_app. simpl. split; [done|lia].
Qed.

Lemma extract_group_two_runs self a1 a2 input_name input_fields s1 s2 kv1 kv2 s1' s2' :
  Kam.extract_group self a1 input_name input_fields s1 = (Ok kv1, s1') →
  Kam.extract_group self a2 input_name input_fields s2 = (Ok kv2, s2') →
  val s1 a1 = val s2 a2 →
  kv1.1 = kv2.1 ∧ val s1' kv1.2 = val s2' kv2.2
  ∧ buf kv1.2 < length (heap s1') ∧ buf kv2.2 < length (heap s2').
Proof.
  unfold Kam.extract_group. intros H1 H2 Hval.
  apply M_bind_Ok in H1 as (c1 & t1 & Hc1 & H1). apply lift_Ok in Hc1 as [Hc1 ->].
  apply M_bind_Ok in H2 as (c2 & t2 & Hc2 & H2). apply lift_Ok in Hc2 as [Hc2 ->].
  assert (c1 = c2) as <- by congruence.
  apply M_bind_Ok in H1 as (p1 & t1 & Hp1 & H1).
  apply M_bind_Ok in H2 as (p2 & t2 & Hp2 & H2).
  destruct (take_cols_two_runs _ _ _ _ _ _ _ _ _ Hp1 Hp2 Hval) as (Hp & _ & _).
  apply M_bind_Ok in H1 as (q1 & u1 & Hq1 & [= <- <-]).
  apply M_bind_Ok in H2 as (q2 & u2 & Hq2 & [= <- <-]).
  destruct (copy_two_runs _ _ _ _ _ _ _ _ Hq1 Hq2 Hp) as (Hq & ? & ?). done.
Qed.

(** Two runs of the field extraction on arrays of the same values: the
    dictionaries returned have the same content. *)
Lemma get_raw_data_dict_two_runs self a1 a2 fields_dict s1 s2 x1 x2 s1' s2' :
  Kam._get_raw_data_dict self a1 fields_dict s1 = (Ok x1, s1') →
  Kam._get_raw_data_dict self a2 fields_dict s2 = (Ok x2, s2') →
  val s1 a1 = val s2 a2 →
  buf a1 < length (heap s1) → buf a2 < length (heap s2) →
  contents s1' x1 = contents s2' x2
  ∧ Forall (λ kv, buf kv.2 < length (heap s1')) x1
  ∧ Forall (λ kv, buf kv.2 < length (heap s2')) x2.
Proof.
  unfold Kam._get_raw_data_dict.
  revert s1 s2 x1 x2 s1' s2'.
  induction fields_dict as [|[input_name input_fields] rest IH];
    intros s1 s2 x1 x2 s1' s2' H1 H2 Hval Hb1 Hb2.
  - injection H1 as <- <-. injection H2 as <- <-. done.
  - rewrite mapM_cons in H1, H2.
    apply M_bind_Ok in H1 as (kv1 & t1 & Hkv1 & H1).
    apply M_bind_Ok in H2 as (kv2 & t2 & Hkv2 & H2).
    apply M_bind_Ok in H1 as (r1 & u1 & Hr1 & [= <- <-]).
    apply M_bind_Ok in H2 as (r2 & u2 & Hr2 & [= <- <-]).
    destruct (extract_group_two_runs _ _ _ _ _ _ _ _ _ _ _ Hkv1 Hkv2 Hval)
      as (Hname & Hkv & Hk1 & Hk2).
    pose proof (protects_grows_run _ _ _ _ _
      (λ w, protects_extract_group w self a1 input_name input_fields) Hkv1) as Hg1.
    pose proof (protects_grows_run _ _ _ _ _
      (λ w, protects_extract_group w self a2 input_name input_fields) Hkv2) as Hg2.
    pose proof (protects_grows_run _ _ _ _ _
      (λ w, protects_get_raw_data_dict w self a1 rest) Hr1) as Hg1'.
    pose proof (protects_grows_run _ _ _ _ _
      (λ w, protects_get_raw_data_dict w self a2 rest) Hr2) as Hg2'.
    assert (val t1 a1 = val t2 a2) as Hval'.
    { unfold val in *. rewrite (grows_lookup s1 t1), (grows_lookup s2 t2) by done.
      done. }
    destruct (IH t1 t2 r1 r2 u1 u2 Hr1 Hr2 Hval') as (Hc & Hf1 & Hf2).
    { pose proof (grows_length _ _ Hg1). lia. }
    { pose proof (grows_length _ _ Hg2). lia. }
    pose proof (grows_length _ _ Hg1'). pose proof (grows_length _ _ Hg2').
    split; [|split; constructor; (done || lia)].
    unfold contents in *. cbn [map]. f_equal; [|done].
    unfold val in *. rewrite (grows_lookup t1 u1), (grows_lookup t2 u2) by done.
    by rewrite Hname, Hkv.
Qed.
End training_values.

Section train_call.
Context {St : Type} {scaler : Scaler St} {shuffler : Shuffle}.
Context (self : BaseModel).
Implicit Types (s : state St) (arr : ndarray) (x y : dict ndarray).

(** [preprocess_train_data] and [preprocess_validation_test_data] hand
    back the dictionaries they were given: the normalised arrays are
    dropped. *)
Lemma preprocess_train_data_Ok x y s xy s' :
  Kam.preprocess_train_data x y s = (Ok xy, s') → xy = (x, y) ∧ grows s s'.
Proof.
  intros H. split.
  - unfold Kam.preprocess_train_data in H.
    by apply M_bind_Ok in H as (? & ? & _ & [= <- _]).
  - exact (protects_grows_run _ _ _ _ _
             (λ w, protects_preprocess_train_data w x y) H).
Qed.

Lemma preprocess_validation_test_data_Ok x y s xy s' :
  Kam.preprocess_validation_test_data x y s = (Ok xy, s') →
  xy = (x, y) ∧ grows s s'.
Proof.
  intros H. split.
  - unfold Kam.preprocess_validation_test_data in H.
    by apply M_bind_Ok in H as (? & ? & _ & [= <- _]).
  - exact (protects_grows_run _ _ _ _ _
             (λ w, protects_preprocess_validation_test_data w x y) H).
Qed.

Lemma for_each_nil_inv {A B} (f : A → result B) l :
  for_each f l = Ok [] → l = [].
Proof.
  destruct l as [|a l]; [done|]. simpl.
  destruct (f a); [|done]. simpl. by destruct (for_each f l).
Qed.

(** The steps of a call of [prepare_train_call] that returns. *)
Lemma prepare_train_call_Ok train_sub_ids validate_sub_ids s c s' :
  Kam.prepare_train_call self train_sub_ids validate_sub_ids s = (Ok c, s') →
  ∃ train_data_list joined sa train_data sb sx sy,
    for_each (Kam.subject_data self) train_sub_ids = Ok train_data_list
    ∧ Kam.concatenate train_data_list s = (Ok joined, sa)
    ∧ Kam.shuffle joined sa = (Ok train_data, sb)
    ∧ Kam._get_raw_data_dict self train_data (_x_fields self) sb = (Ok (x_train c), sx)
    ∧ Kam._get_raw_data_dict self train_data (_y_fields self) sx = (Ok (y_train c), sy)
    ∧ grows sy s'
    ∧ (validate_sub_ids ≠ [] →
         is_Some (x_validation c) ∧ is_Some (y_validation c)
         ∧ is_Some (validation_weight c)).
Proof.
  unfold Kam.prepare_train_call. intros H.
  apply M_bind_Ok in H as (tl & t & Htl & H). apply lift_Ok in Htl as [Htl ->].
  apply M_bind_Ok in H as (joined & sa & Hjoin & H).
  apply M_bind_Ok in H as (train_data & sb & Hshuffle & H).
  apply M_bind_Ok in H as (x & sx & Hx & H).
  apply M_bind_Ok in H as (y & sy & Hy & H).
  apply M_bind_Ok in H as ([x' y'] & sp & Hp & H).
  apply preprocess_train_data_Ok in Hp as [[= -> ->] Hgp].
  apply M_bind_Ok in H as (vl & t & Hvl & H). apply lift_Ok in Hvl as [Hvl ->].
  destruct vl as [|v0 vl].
  - injection H as <- <-. exists tl, joined, sa, train_data, sb, sx, sy.
    repeat (split; [done|]). intros Hne. by apply for_each_nil_inv in Hvl.
  - apply M_bind_Ok in H as (vd & sv & Hvd & H).
    apply M_bind_Ok in H as (xv & sxv & Hxv & H).
    apply M_bind_Ok in H as (yv & syv & Hyv & H).
    apply M_bind_Ok in H as (vw & svw & Hvw & H).
    apply M_bind_Ok in H as ([xv' yv'] & spv & Hpv & H).
    apply preprocess_validation_test_data_Ok in Hpv as [[= -> ->] Hgpv].
    injection H as <- <-. exists tl, joined, sa, train_data, sb, sx, sy.
    repeat (split; [done|]). split; [|by eauto].
    eapply grows_trans; [exact Hgp|].
    eapply grows_trans;
      [exact (protects_grows_run _ _ _ _ _ (λ w, protects_concatenate w _) Hvd)|].
    eapply grows_trans;
      [exact (protects_grows_run _ _ _ _ _
                (λ w, protects_get_raw_data_dict w self _ _) Hxv)|].
    eapply grows_trans;
      [exact (protects_grows_run _ _ _ _ _
                (λ w, protects_get_raw_data_dict w self _ _) Hyv)|].
    eapply grows_trans;
      [exact (protects_grows_run _ _ _ _ _
                (λ w, protects_get_raw_data_dict w self _ _) Hvw)|].
    done.
Qed.

Lemma for_each_elem_of {A B} (f : A → result B) l ys (b : B) :
  for_each f l = Ok ys → b ∈ ys → ∃ a, a ∈ l ∧ f a = Ok b.
Proof.
  intros Hl Hb. apply for_each_Ok in Hl.
  apply list_elem_of_lookup in Hb as [i Hi].
  destruct (Forall2_lookup_r _ _ _ _ _ Hl Hi) as (a & Ha & Hfa).
  exists a. split; [by eapply list_elem_of_lookup_2|done].
Qed.

(** Two runs of [prepare_train_call] from states that agree on the arrays
    of the training subjects: the training tensors have the same
    content. *)
Lemma prepare_train_call_two_runs train_sub_ids validate_sub_ids s1 s2 c1 c2 s1' s2' :
  (∀ sub arr, sub ∈ train_sub_ids → _data_all_sub self !! sub = Some arr →
     heap s1 !! buf arr = heap s2 !! buf arr) →
  Kam.prepare_train_call self train_sub_ids validate_sub_ids s1 = (Ok c1, s1') →
  Kam.prepare_train_call self train_sub_ids validate_sub_ids s2 = (Ok c2, s2') →
  contents s1' (x_train c1) = contents s2' (x_train c2)
  ∧ contents s1' (y_train c1) = contents s2' (y_train c2).
Proof.
  intros Hsame H1 H2.
  apply prepare_train_call_Ok in H1
    as (tl1 & j1 & sa1 & b1 & sb1 & sx1 & sy1 & Htl1 & Hj1 & Hb1 & Hx1 & Hy1 & Hg1 & _).
  apply prepare_train_call_Ok in H2
    as (tl2 & j2 & sa2 & b2 & sb2 & sx2 & sy2 & Htl2 & Hj2 & Hb2 & Hx2 & Hy2 & Hg2 & _).
  assert (tl1 = tl2) as <- by congruence.
  destruct (concatenate_two_runs _ _ _ _ _ _ _ Hj1 Hj2) as (Hj & _ & _).
  { intros arr Harr.
    destruct (for_each_elem_of _ _ _ _ Htl1 Harr) as (sub & Hsub & Harr').
    unfold Kam.subject_data in Harr'.
    destruct (_data_all_sub self !! sub) as [arr'|] eqn:Hstore; [|done].
    injection Harr' as ->. by eapply Hsame. }
  destruct (shuffle_two_runs _ _ _ _ _ _ _ _ Hb1 Hb2 Hj) as (Hb & Hlt1 & Hlt2).
  destruct (get_raw_data_dict_two_runs _ _ _ _ _ _ _ _ _ _ Hx1 Hx2 Hb Hlt1 Hlt2)
    as (Hx & Hfx1 & Hfx2).
  pose proof (protects_grows_run _ _ _ _ _
    (λ w, protects_get_raw_data_dict w self _ _) Hx1) as Hgx1.
  pose proof (protects_grows_run _ _ _ _ _
    (λ w, protects_get_raw_data_dict w self _ _) Hx2) as Hgx2.
  pose proof (protects_grows_run _ _ _ _ _
    (λ w, protects_get_raw_data_dict w self _ _) Hy1) as Hgy1.
  pose proof (protects_grows_run _ _ _ _ _
    (λ w, protects_get_raw_data_dict w self _ _) Hy2) as Hgy2.
  assert (val sx1 b1 = val sx2 b2) as Hb'.
  { unfold val in *. by rewrite (grows_lookup sb1 sx1), (grows_lookup sb2 sx2). }
  destruct (get_raw_data_dict_two_runs _ _ _ _ _ _ _ _ _ _ Hy1 Hy2 Hb')
    as (Hy & Hfy1 & Hfy2).
  { pose proof (grows_length _ _ Hgx1). lia. }
  { pose proof (grows_length _ _ Hgx2). lia. }
  split.
  - rewrite (contents_grows sx1 s1'), (contents_grows sx2 s2'); try done.
    + by eapply grows_trans; [|exact Hg2].
    + by eapply grows_trans; [|exact Hg1].
  - rewrite (contents_grows sy1 s1'), (contents_grows sy2 s2'); done.
Qed.
End train_call.

(** C3, as the code has it. In every fold of [cross_validation] the
    training tensors are drawn from the subjects that are not held out: two
    runs of the fold from stores that differ only in the arrays of the
    held-out subjects hand [train_model] training tensors [x_train] and
    [y_train] of the same content. The held-out subjects are not among the
    fold's train subjects, but they are its validation subjects: the call
    of [train_model] has validation tensors, drawn from the held-out
    subjects. *)
Theorem held_out_data_stays_out_of_training_tensors {St : Type}
    {scaler : Scaler St} {shuffler : Shuffle} (self : BaseModel)
    (sub_ids : list string) (test_set_sub_num i : nat)
    (test_sub_ids train_sub_ids : list string)
    (s1 s2 : state St) (c1 c2 : train_call) (s1' s2' : state St) :
  1 ≤ test_set_sub_num →
  cv_folds sub_ids test_set_sub_num !! i = Some (test_sub_ids, train_sub_ids) →
  (∀ sub arr, sub ∉ test_sub_ids → _data_all_sub self !! sub = Some arr →
     heap s1 !! buf arr = heap s2 !! buf arr) →
  Kam.prepare_train_call self train_sub_ids test_sub_ids s1 = (Ok c1, s1') →
  Kam.prepare_train_call self train_sub_ids test_sub_ids s2 = (Ok c2, s2') →
  (∀ sub, sub ∈ train_sub_ids → sub ∉ test_sub_ids)
  ∧ contents s1' (x_train c1) = contents s2' (x_train c2)
  ∧ contents s1' (y_train c1) = contents s2' (y_train c2)
  ∧ is_Some (x_validation c1) ∧ is_Some (y_validation c1)
  ∧ is_Some (validation_weight c1).
Proof.
  intros Hk Hfold Hsame H1 H2.
  apply cv_folds_lookup in Hfold as (Hi & -> & ->).
  assert (∀ sub, sub ∈ train_fold sub_ids test_set_sub_num i →
                 sub ∉ test_fold sub_ids test_set_sub_num i) as Hout.
  { intros sub Hsub. unfold train_fold in Hsub.
    by apply elem_of_setdiff1d in Hsub as [_ ?]. }
  split; [done|].
  destruct (prepare_train_call_two_runs self _ _ s1 s2 c1 c2 s1' s2'
              (λ sub arr Hsub, Hsame sub arr (Hout sub Hsub)) H1 H2) as [Hx Hy].
  split; [done|]. split; [done|].
  apply prepare_train_call_Ok in H1 as (? & ? & ? & ? & ? & ? & ? & Htl & _ & _ & _ & _ & _ & Hval).
  apply Hval. intros Hnil.
  assert (i < folder_num (length sub_ids) test_set_sub_num) as Hlt by done.
  assert (length (test_fold sub_ids test_set_sub_num i) = 0) as Hlen by (by rewrite Hnil).
  rewrite test_fold_eq, length_take, length_drop in Hlen.
  assert (sub_ids ≠ []) as Hne.
  { intros ->. unfold folder_num in Hlt. simpl in Hlt.
    rewrite Nat.Div0.div_0_l, Nat.Div0.mod_0_l in Hlt. simpl in Hlt. lia. }
  assert (1 ≤ length sub_ids) as Hn by (destruct sub_ids; [done|simpl; lia]).
  pose proof (folder_num_spec (length sub_ids) test_set_sub_num Hn Hk). nia.
Qed.

(** ** Cross-validation: the table of means *)

Section means.
Context {St Mdl : Type}.
Context {scaler : Scaler St} {model : Model St Mdl}.
Context {metrics : Metrics} {shuffler : Shuffle}.
Context (self : BaseModel).

Lemma mapM_loop_run {A B} (f : A → M St B) l (s : state St) ys s' :
  mapM f l s = (Ok ys, s') ↔ loop_run f l s ys s'.
Proof.
  split.
  - revert s ys. induction l as [|a l IH]; intros s ys.
    + intros [= <- <-]. constructor.
    + rewrite mapM_cons. intros H.
      apply M_bind_Ok in H as (b & s1 & Hb & H).
      apply M_bind_Ok in H as (bs & s2 & Hbs & [= <- <-]).
      econstructor; eauto.
  - induction 1 as [|a l s b s1 bs s2 Hb _ IH]; [done|].
    rewrite mapM_cons. apply M_bind_Ok. exists b, s1. split; [done|].
    apply M_bind_Ok. exists bs, s2. done.
Qed.

Lemma mean_of_concatenation_Ok arrays v :
  Kam.mean_of_concatenation arrays = Ok v →
  arrays ≠ [] ∧ v = np.round3 (np.mean (concat arrays)).
Proof. destruct arrays; [done|]. by intros [= <-]. Qed.

Lemma mean_results_of_Ok results means :
  Kam.mean_results_of self results = Ok means →
  map (λ m, (mean_output m, mean_field m)) means
  = flat_map (λ '(output_name, fields), map (λ f, (output_name, f)) fields)
             (_y_fields self)
  ∧ Forall (mean_of results) means.
Proof.
  unfold Kam.mean_results_of. intros H.
  apply result_bind_Ok in H as (per_output & Hper & [= <-]).
  revert per_output Hper.
  induction (_y_fields self) as [|[output_name fields] y_fields IH];
    intros per_output Hper; simpl in Hper.
  - injection Hper as <-. done.
  - apply result_bind_Ok in Hper as (ms & Hms & Hper).
    apply result_bind_Ok in Hper as (rest & Hrest & [= <-]).
    destruct (IH rest Hrest) as [Hkeys Hall]. cbn [concat flat_map].
    rewrite map_app, Hkeys.
    assert (map (λ m, (mean_output m, mean_field m)) ms
            = map (λ f, (output_name, f)) fields ∧ Forall (mean_of results) ms)
      as [-> Hms'].
    { clear -Hms. revert ms Hms. induction fields as [|f fields IHf];
        intros ms Hms; simpl in Hms.
      - injection Hms as <-. done.
      - apply result_bind_Ok in Hms as (m & Hm & Hms).
        apply result_bind_Ok in Hms as (ms' & Hms' & [= <-]).
        destruct (IHf ms' Hms') as [Hk Ha].
        apply result_bind_Ok in Hm as (v1 & H1 & Hm).
        apply result_bind_Ok in Hm as (v2 & H2 & Hm).
        apply result_bind_Ok in Hm as (v3 & H3 & Hm).
        apply result_bind_Ok in Hm as (v4 & H4 & Hm).
        apply result_bind_Ok in Hm as (v5 & H5 & [= <-]).
        apply mean_of_concatenation_Ok in H1 as [Hne ->].
        apply mean_of_concatenation_Ok in H2 as [_ ->].
        apply mean_of_concatenation_Ok in H3 as [_ ->].
        apply mean_of_concatenation_Ok in H4 as [_ ->].
        apply mean_of_concatenation_Ok in H5 as [_ ->].
        cbn [map]. rewrite Hk. split; [done|]. constructor; [|done].
        unfold mean_of. cbn [mean_output mean_field mean_r2 mean_rmse mean_mae
                             mean_r_rmse mean_cor_value].
        split; [|done]. intros Hnil. apply Hne. by rewrite Hnil. }
    split; [done|]. by apply Forall_app.
Qed.
End means.

(** C6: when [cross_validation] completes, the score records it collected
    are those of its folds, in fold order (each fold trained on its train
    subjects, validated and tested on its test subjects); the table of
    means has one record per (output, field) pair of the output fields, in
    their order; and each of the five means of a record is the arithmetic
    mean, rounded to 3 decimals, of the concatenation of the per-step values
    of all the score records of that pair - of all subjects and all folds
    at once. *)
Theorem mean_results_are_means_of_concatenation {St Mdl : Type}
    {scaler : Scaler St} {model : Model St Mdl} {metrics : Metrics}
    {shuffler : Shuffle} (self : BaseModel) (sub_ids : list string)
    (test_set_sub_num : nat) (s : state St) (results : list score)
    (mean_results : list mean_score) (s' : state St) :
  Kam.cross_validation self sub_ids test_set_sub_num s
  = (Ok (results, mean_results), s') →
  (∃ per_fold,
     loop_run (λ '(test_sub_ids, train_sub_ids),
                 Kam.preprocess_train_evaluation self train_sub_ids test_sub_ids
                                                 test_sub_ids)
              (cv_folds sub_ids test_set_sub_num) s per_fold s'
     ∧ results = concat per_fold)
  ∧ map (λ m, (mean_output m, mean_field m)) mean_results
    = flat_map (λ '(output_name, fields), map (λ f, (output_name, f)) fields)
               (_y_fields self)
  ∧ ∀ m, m ∈ mean_results →
      let field_results :=
        filter (λ x, output x = mean_output m ∧ field x = mean_field m) results in
      field_results ≠ []
      ∧ mean_r2 m = np.round3 (np.mean (concat (map r2 field_results)))
      ∧ mean_rmse m = np.round3 (np.mean (concat (map rmse field_results)))
      ∧ mean_mae m = np.round3 (np.mean (concat (map mae field_results)))
      ∧ mean_r_rmse m = np.round3 (np.mean (concat (map r_rmse field_results)))
      ∧ mean_cor_value m
        = np.round3 (np.mean (concat (map cor_value field_results))).
Proof.
  unfold Kam.cross_validation. case_decide as Hk; [done|]. intros Hrun.
  apply M_bind_Ok in Hrun as (results' & s1 & Hfolds & H).
  apply M_bind_Ok in H as (means & s2 & Hmeans & [= <- <- <-]).
  apply lift_Ok in Hmeans as [Hmeans ->].
  unfold Kam.run_folds in Hfolds.
  apply M_bind_Ok in Hfolds as (per_fold & s3 & Hloop & [= <- <-]).
  apply mapM_loop_run in Hloop.
  destruct (mean_results_of_Ok self _ _ Hmeans) as [Hkeys Hall].
  split; [eauto|]. split; [done|].
  intros m Hm. rewrite Forall_forall in Hall. exact (Hall m Hm).
Qed.

(** The two subjects of the example, one test subject per fold: the first
    fold scores two steps (RMSE 1 and 3), the second one step (RMSE 4). The
    mean RMSE is that of the three steps, 2.667, not the mean 3 of the two
    folds' means. *)
Lemma mean_results_are_means_of_concatenation_witness :
  ∃ results mean_results s',
    Kam.cross_validation (model := Example.model) Example.self ["s1"; "s2"] 1
                         Example.loaded
    = (Ok (results, mean_results), s')
    ∧ map (λ m, (mean_output m, mean_field m)) mean_results = [("output", "KAM")]
    ∧ map rmse results = [[1; 3]; [4]]%float
    ∧ map mean_rmse mean_results = [np.round3 (np.mean [1; 3; 4]%float)]
    ∧ np.round3 (np.mean [1; 3; 4]%float) = 2.6669999999999998%float
    ∧ np.round3 (np.mean [np.mean [1; 3]; np.mean [4]]%float) = 3%float.
Proof.
  let run := eval vm_compute in
    (Kam.cross_validation (model := Example.model) Example.self ["s1"; "s2"] 1
                          Example.loaded) in
  match run with
  | (Ok (?results, ?mean_results), ?s') => exists results, mean_results, s'
  end.
  match goal with
  | |- ?run ∧ _ => assert (Hrun : run) by (vm_compute; reflexivity)
  end.
  split; [exact Hrun|].
  split; [|repeat split; vm_compute; reflexivity].
  exact (proj1 (proj2 (mean_results_are_means_of_concatenation _ _ _ _ _ _ _ Hrun))).
Defined.

(** ** The recording model writes to no buffer it is handed *)

Section recording_frame.
Context {St : Type}.

Lemma protects_values w (d : dict ndarray) :
  protects w (Reference.values d : M St _) (λ _, True).
Proof.
  apply protects_mapM_any. intros [name a] _.
  eapply protects_bind; [apply protects_load|]. intros v _.
  by apply protects_ret.
Qed.

Lemma protects_values_opt w (d : option (dict ndarray)) :
  protects w (Reference.values_opt d : M St _) (λ _, True).
Proof.
  destruct d as [d|]; [|by apply protects_ret].
  eapply protects_fmap; [apply protects_values|done].
Qed.

Lemma protects_recording_train_model w outputs x y xv yv vw :
  protects w (train_model (Model := Reference.recording (St := St) outputs)
                          x y xv yv vw) (λ _, True).
Proof.
  cbn [train_model Reference.recording].
  eapply protects_bind; [apply protects_values|]. intros ? _.
  eapply protects_bind; [apply protects_values|]. intros ? _.
  eapply protects_bind; [apply protects_values_opt|]. intros ? _.
  eapply protects_bind; [apply protects_values_opt|]. intros ? _.
  eapply protects_bind; [apply protects_values_opt|]. intros ? _.
  by apply protects_ret.
Qed.

Lemma protects_recording_predict w outputs m x :
  protects w (predict (Model := Reference.recording (St := St) outputs) m x)
           (λ _, True).
Proof.
  cbn [predict Reference.recording]. destruct x as [|[name a] x].
  - apply protects_raise.
  - apply protects_mapM_any. intros output_name _.
    eapply protects_bind; [apply protects_copy|]. intros ? _.
    by apply protects_ret.
Qed.

Global Instance recording_framed outputs :
  Framed (Reference.recording (St := St) outputs).
Proof.
  split.
  - intros x y xv yv vw s l Hl _.
    apply (protects_lookup (length (heap s)) _ (λ _, True)); [|done..].
    apply protects_recording_train_model.
  - intros x y xv yv vw s. apply grows_length.
    apply (protects_grows _ (λ _ _, True)). intros w.
    apply protects_recording_train_model.
  - intros m x s l Hl _.
    apply (protects_lookup (length (heap s)) _ (λ _, True)); [|done..].
    apply protects_recording_predict.
  - intros m x s. apply grows_length.
    apply (protects_grows _ (λ _ _, True)). intros w.
    apply protects_recording_predict.
Qed.
End recording_frame.

(** Three calls on the example, the scalers fitted on the way: the store
    ends with 73 buffers, the two of the subjects as they were. *)
Lemma stored_arrays_unchanged_witness :
  let calls :=
    [call_normalize_data [("main_input_acc", NdArray 0 [2; 2; 4])] fit_transform
                         by_all_columns;
     call_preprocess_and_train ["s1"] ["s2"];
     call_cross_validation ["s1"; "s2"] 1] in
  let s' := run_calls (model := Example.model) Example.self calls Example.loaded in
  length (heap s') = 73
  ∧ heap s' !! 0 = Some Example.s1_values
  ∧ heap s' !! 1 = Some Example.s2_values.
Proof.
  cbv zeta.
  split; [vm_compute; reflexivity|].
  pose proof (stored_arrays_unchanged (model := Example.model)
                (recording_framed ["output"]) Example.self
                [call_normalize_data [("main_input_acc", NdArray 0 [2; 2; 4])]
                                     fit_transform by_all_columns;
                 call_preprocess_and_train ["s1"] ["s2"];
                 call_cross_validation ["s1"; "s2"] 1]
                Example.loaded) as [_ Hstore].
  split.
  - refine (Hstore "s1" (NdArray 0 [2; 2; 4]) _ _); [reflexivity|cbn; lia].
  - refine (Hstore "s2" (NdArray 1 [1; 2; 4]) _ _); [reflexivity|cbn; lia].
Defined.

(** ** The pipeline on the small data set *)

(** The two stores of the example differ in the second subject only. *)
Lemma example_stores_differ_in_s2 sub arr :
  sub ∉ ["s2"] → _data_all_sub Example.self !! sub = Some arr →
  heap Example.loaded !! buf arr = heap Example.loaded' !! buf arr.
Proof.
  intros Hsub Harr. cbn in Harr.
  apply lookup_insert_Some in Harr as [[<- <-]|[_ Harr]]; [reflexivity|].
  apply lookup_insert_Some in Harr as [[<- <-]|[_ Harr]].
  - exfalso. apply Hsub. by left.
  - by rewrite lookup_empty in Harr.
Qed.

(** C1, on the example: trained on the first subject and validated on the
    second, [train_model] is handed the raw accelerometer values of the
    training subject (in the shuffled order) and of the validation subject.
    The scaler of the group is fitted by then, and applied to the same
    values it gives others: the transformed arrays were computed and
    dropped. *)
Theorem train_model_is_handed_raw_values :
  let run := Kam.preprocess_and_train (model := Example.model) Example.self
               ["s1"] ["s2"] Example.loaded in
  Reference.seen_x_train <$> run.1
  = Ok [("main_input_acc", [6; 8;  5; 4;  2; 4;  4; 6]%float)]
  ∧ Reference.seen_x_validation <$> run.1
    = Ok (Some [("main_input_acc", [1; 1;  3; 2]%float)])
  ∧ _data_scalar run.2 !! "main_input_acc"
    = Some (Some [(0.25, -0.5); (0.25, -1)]%float)
  ∧ MinMaxScaler.transform (Some [(0.25, -0.5); (0.25, -1)]%float)
      [[6; 8]; [5; 4]; [2; 4]; [4; 6]]%float
    = Ok [[1; 1]; [0.75; 0]; [0; 0]; [0.5; 0.5]]%float
  ∧ MinMaxScaler.transform (Some [(0.25, -0.5); (0.25, -1)]%float)
      [[1; 1]; [3; 2]]%float
    = Ok [[-0.25; -0.75]; [0.25; -0.5]]%float.
Proof. cbv zeta. repeat split; vm_compute; reflexivity. Qed.

(** C3 as stated fails on the example: in the second fold of the
    cross-validation of its two subjects the second subject is held out,
    and [train_model] is handed its values as validation data; from two
    stores that differ in the held-out subject only, the recorded models
    differ. *)
Lemma held_out_data_reaches_train_model :
  let fold_train s := (Kam.preprocess_and_train (model := Example.model)
                         Example.self ["s1"] ["s2"] s).1 in
  cv_folds ["s1"; "s2"] 1 !! 1 = Some (["s2"], ["s1"])
  ∧ Reference.seen_x_validation <$> fold_train Example.loaded
    = Ok (Some [("main_input_acc", [1; 1;  3; 2]%float)])
  ∧ Reference.seen_x_validation <$> fold_train Example.loaded'
    = Ok (Some [("main_input_acc", [9; 9;  3; 2]%float)])
  ∧ fold_train Example.loaded ≠ fold_train Example.loaded'.
Proof.
  cbv zeta. split; [reflexivity|].
  split; [vm_compute; reflexivity|]. split; [vm_compute; reflexivity|].
  intros Heq.
  apply (f_equal (λ r, match Reference.seen_x_validation <$> r with
                       | Ok (Some [(_, x :: _)]) => PrimFloat.eqb x 1
                       | _ => false
                       end)) in Heq.
  vm_compute in Heq. discriminate.
Qed.

(** The second fold of the example, from its two stores: the training
    tensors have the same content, and there are validation tensors. *)
Lemma held_out_data_stays_out_of_training_tensors_witness :
  ∃ c1 c2 s1' s2',
    Kam.prepare_train_call Example.self ["s1"] ["s2"] Example.loaded = (Ok c1, s1')
    ∧ Kam.prepare_train_call Example.self ["s1"] ["s2"] Example.loaded' = (Ok c2, s2')
    ∧ contents s1' (x_train c1) = contents s2' (x_train c2)
    ∧ contents s1' (y_train c1) = contents s2' (y_train c2)
    ∧ is_Some (x_validation c1).
Proof.
  let run1 := eval vm_compute in
    (Kam.prepare_train_call Example.self ["s1"] ["s2"] Example.loaded) in
  let run2 := eval vm_compute in
    (Kam.prepare_train_call Example.self ["s1"] ["s2"] Example.loaded') in
  match constr:((run1, run2)) with
  | ((Ok ?c1, ?s1'), (Ok ?c2, ?s2')) => exists c1, c2, s1', s2'
  end.
  match goal with
  | |- ?run1 ∧ ?run2 ∧ _ =>
      assert (H1 : run1) by (vm_compute; reflexivity);
      assert (H2 : run2) by (vm_compute; reflexivity)
  end.
  split; [exact H1|]. split; [exact H2|].
  destruct (held_out_data_stays_out_of_training_tensors
              Example.self ["s1"; "s2"] 1 1 ["s2"] ["s1"] _ _ _ _ _ _
              (le_n 1) eq_refl example_stores_differ_in_s2 H1 H2)
    as (_ & Hx & Hy & Hv & _).
  split; [exact Hx|]. split; [exact Hy|exact Hv].
Defined.

(** The padded group of the example, column by column. Fitted and
    transformed, its second sample is zero again and the scaler is left
    fitted on the three other samples; fitted only, the scaler is left the
    same and there is no output. *)
Lemma padding_is_zero_after_normalization_witness :
  let fitted := Some [(0.25, -0.5); (0.25, -1)]%float in
  let run m := Kam.normalize_one m by_each_column "main_input_acc" Example.acc
                                 Example.padded in
  (∃ out s' v,
     run fit_transform = (Ok out, s') ∧ heap s' !! buf out = Some v
     ∧ np.chunks 2 4 v !! 1 = Some [0; 0]%float
     ∧ _data_scalar s' !! "main_input_acc" = Some fitted)
  ∧ MinMaxScaler.fit None [[2; 4]; [6; 8]; [4; 4]]%float = Ok fitted
  ∧ _data_scalar (run fit).2 !! "main_input_acc" = Some fitted
  ∧ ∃ e, (run fit).1 = Raise e.
Proof.
  cbv zeta.
  pose proof (padding_is_zero_after_normalization
                min_max_nan_aware fit_transform by_each_column "main_input_acc"
                Example.acc Example.padded
                [2; 4;  0; 0;  6; 8;  4; 4]%float 2 2 2 eq_refl eq_refl eq_refl)
    as H.
  cbv zeta in H. destruct H as (Hout & Hret & Hfit & _ & _).
  pose proof (padding_is_zero_after_normalization
                min_max_nan_aware fit by_each_column "main_input_acc"
                Example.acc Example.padded
                [2; 4;  0; 0;  6; 8;  4; 4]%float 2 2 2 eq_refl eq_refl eq_refl)
    as H.
  cbv zeta in H. destruct H as (_ & _ & Hfit' & _ & Hraise).
  destruct (Hret None (Some [(0.25, -0.5); (0.25, -1)]%float)
              [[0; 0]; [np.nan; np.nan]; [1; 1]; [0.5; 0]]%float)
    as (out & s' & Hrun).
  { cbn. lia. }
  { reflexivity. }
  { right. split; [reflexivity|]. vm_compute. reflexivity. }
  { vm_compute. reflexivity. }
  destruct (Hout out s' Hrun) as (v & _ & Hv & _ & Hpad).
  destruct (Hfit None (Some [(0.25, -0.5); (0.25, -1)]%float))
    as [Hsc Hfitted].
  { done. }
  { cbn. lia. }
  { reflexivity. }
  { vm_compute. reflexivity. }
  rewrite Hrun in Hsc. cbn [snd] in Hsc.
  split.
  { exists out, s', v. split; [exact Hrun|]. split; [exact Hv|].
    split; [apply (Hpad 1 [0; 0]%float); reflexivity|exact Hsc]. }
  split.
  { apply Hfitted. exists [2; 4]%float, 2%float.
    split; [by left|]. split; [reflexivity|]. split; [by left|reflexivity]. }
  destruct (Hfit' None (Some [(0.25, -0.5); (0.25, -1)]%float))
    as [Hsc' _].
  { done. }
  { cbn. lia. }
  { reflexivity. }
  { vm_compute. reflexivity. }
  split; [exact Hsc'|]. by apply Hraise.
Defined.

(** A group with a [nan] in its raw data, fitted and transformed over all
    its columns at once: the output has 0 where the [nan] was. *)
Lemma normalize_output_has_no_nan_witness :
  ∃ out s' v,
    Kam.normalize_one fit_transform by_all_columns "main_input_acc" Example.acc
                      Example.with_nan
    = (Ok out, s')
    ∧ heap s' !! buf out = Some v
    ∧ Forall (λ x, np.isnan x = false) v
    ∧ v !! 2 = Some 0%float.
Proof.
  pose (X := scaler_input by_all_columns
               (Kam.mask_padding (np.chunks 2 4 [2; 4;  np.nan; 5;  6; 8;  4; 4]%float))).
  let fitted := eval vm_compute in (MinMaxScaler.fit None X) in
  match fitted with
  | Ok ?sc' =>
      let scaled := eval vm_compute in (MinMaxScaler.transform sc' X) in
      match scaled with
      | Ok ?rows =>
          destruct (proj1 (normalize_output_has_no_nan (scaler := MinMaxScaler.scaler)
                             fit_transform by_all_columns)
                      "main_input_acc" Example.acc Example.with_nan
                      [2; 4;  np.nan; 5;  6; 8;  4; 4]%float 2 2 2 None sc' rows)
            as (out & s' & Hrun & _ & Hv & Hnan & Hzero)
      end
  end.
  - reflexivity.
  - reflexivity.
  - reflexivity.
  - cbn. lia.
  - reflexivity.
  - right. split; [reflexivity|]. vm_compute. reflexivity.
  - vm_compute. reflexivity.
  - eexists out, s', _. split; [exact Hrun|]. split; [exact Hv|].
    split; [exact Hnan|]. apply (Hzero 2 np.nan). reflexivity.
Defined.

(** ** The rows of the combined record *)

Section sync_alignment.
Import Sync.
Context {Imu Vicon : Type}.

Lemma pd_concat_axis1_lookup (a : DataFrame Imu) (b : DataFrame Vicon) i :
  i < length a `max` length b →
  pd_concat_axis1 a b !! i = Some (a !! i, b !! i).
Proof.
  intros Hi. unfold pd_concat_axis1.
  by rewrite list_lookup_fmap, lookup_seq_lt.
Qed.

Lemma sync_and_crop_lookup (imu : DataFrame Imu) (vicon : DataFrame Vicon)
    (fe sd : Z) i row :
  sync_and_crop_data_frame imu vicon fe sd !! i = Some row →
  row = (imu !! (Z.to_nat (sd - Z.min (- fe) sd) + i),
         vicon !! (Z.to_nat (0 - Z.min (- fe) sd) + i)).
Proof.
  unfold sync_and_crop_data_frame, loc_upto, crop. intros Hrow.
  apply lookup_take_Some in Hrow as [Hrow _].
  pose proof (lookup_lt_Some _ _ _ Hrow) as Hlt.
  rewrite SyncProps.length_pd_concat_axis1 in Hlt.
  rewrite pd_concat_axis1_lookup in Hrow by done.
  injection Hrow as <-. by rewrite !lookup_drop.
Qed.
End sync_alignment.

(** X1: with the first step event at a row [first_event_index ≥ 0] of the
    inertial stream, both crop offsets of [sync_and_crop_data_frame] are
    non-negative and differ by the synchronisation delay, and row [i] of the
    combined record pairs the inertial sample [imu_delay + i] with the
    motion-capture sample [vicon_delay + i]: paired samples are exactly the
    delay apart in their streams. *)
Theorem sync_and_crop_pairs_samples_the_delay_apart {Imu Vicon : Type}
    (imu_data : Sync.DataFrame Imu) (vicon_data : Sync.DataFrame Vicon)
    (first_event_index vicon_imu_sync_delay : Z) :
  (0 ≤ first_event_index)%Z →
  let minimum_delay := Z.min (- first_event_index) vicon_imu_sync_delay in
  let vicon_delay := (0 - minimum_delay)%Z in
  let imu_delay := (vicon_imu_sync_delay - minimum_delay)%Z in
  (0 ≤ vicon_delay)%Z ∧ (0 ≤ imu_delay)%Z
  ∧ (imu_delay - vicon_delay = vicon_imu_sync_delay)%Z
  ∧ (imu_delay = 0 ∨ vicon_delay = first_event_index)%Z
  ∧ ∀ i row,
      Sync.sync_and_crop_data_frame imu_data vicon_data first_event_index
                                    vicon_imu_sync_delay !! i = Some row →
      row = (imu_data !! (Z.to_nat imu_delay + i),
             vicon_data !! (Z.to_nat vicon_delay + i)).
Proof.
  intros Hfe minimum_delay vicon_delay imu_delay.
  unfold vicon_delay, imu_delay, minimum_delay.
  repeat split; try lia.
  intros i row. apply sync_and_crop_lookup.
Qed.

(** The first event at row 2 and the motion capture 3 samples late: the
    inertial stream loses its first 5 samples, the other its first 2. *)
Lemma sync_and_crop_pairs_samples_the_delay_apart_witness :
  Sync.sync_and_crop_data_frame [10; 11; 12; 13; 14; 15; 16; 17]
                                [20; 21; 22; 23; 24; 25] 2 3
  = [(Some 15, Some 22); (Some 16, Some 23); (Some 17, Some 24); (None, Some 25)]
  ∧ (Some 15, Some 22)
    = ([10; 11; 12; 13; 14; 15; 16; 17] !! (5 + 0), [20; 21; 22; 23; 24; 25] !! (2 + 0)).
Proof.
  split; [reflexivity|].
  refine (proj2 (proj2 (proj2 (proj2
    (sync_and_crop_pairs_samples_the_delay_apart
       [10; 11; 12; 13; 14; 15; 16; 17] [20; 21; 22; 23; 24; 25] 2 3 _)))) 0 _ _);
    [lia|reflexivity].
Defined.

(** ** Scoring under a mask *)

Section masked_scores.
Context {metrics : Metrics}.

Lemma for_each_ext {A B} (f g : A → result B) l :
  (∀ x, x ∈ l → f x = g x) → for_each f l = for_each g l.
Proof.
  induction l as [|x l IH]; intros Hfg; [done|]. simpl.
  rewrite (Hfg x) by by left.
  rewrite IH; [done|]. intros y Hy. apply Hfg. by right.
Qed.

Lemma result_bind_ext {A B} (r : result A) (k k' : A → result B) :
  (∀ a, r = Ok a → k a = k' a) → r ≫= k = r ≫= k'.
Proof. destruct r as [a|e]; intros Hk; [by apply Hk|done]. Qed.

Lemma length_for_each {A B} (f : A → result B) l ys :
  for_each f l = Ok ys → length ys = length l.
Proof. intros H. apply for_each_Ok in H. symmetry. by eapply Forall2_length. Qed.

Lemma mask_select_agree (row row' : list float) (w : list bool) :
  length row = length row' →
  (∀ j, w !! j = Some true → row !! j = row' !! j) →
  np.mask_select row w = np.mask_select row' w.
Proof.
  intros Hlen Hagree. unfold np.mask_select. rewrite <-Hlen.
  case_decide as Hw; [|done]. f_equal. f_equal.
  clear Hw. revert row row' Hlen Hagree.
  induction w as [|b w IH]; intros [|x row] [|x' row'] Hlen Hagree; try done.
  cbn [zip zip_with]. rewrite !filter_cons. cbn [snd].
  assert (filter (λ p : float * bool, p.2 = true) (zip row w)
          = filter (λ p : float * bool, p.2 = true) (zip row' w)) as Htl.
  { apply IH; [simpl in Hlen; lia|]. intros j Hj. apply (Hagree (S j) Hj). }
  destruct b.
  - rewrite !decide_True by done. f_equal; [|done].
    f_equal. specialize (Hagree 0 eq_refl). simpl in Hagree. congruence.
  - rewrite !decide_False by done. done.
Qed.

Lemma elem_of_nonzero (w : list bool) l : l ∈ np.nonzero w ↔ w !! l = Some true.
Proof.
  unfold np.nonzero. rewrite list_elem_of_fmap. split.
  - intros ([i b] & -> & Hin). apply list_elem_of_filter in Hin as [Hb Hin].
    simpl in Hb. subst b. apply list_elem_of_lookup in Hin as [k Hk].
    rewrite list_lookup_imap in Hk.
    destruct (w !! k) as [b|] eqn:Hwk; [|done]. simpl in Hk.
    injection Hk as <- <-. done.
  - intros Hl. exists (l, true). split; [done|].
    apply list_elem_of_filter. split; [done|].
    apply list_elem_of_lookup. exists l. by rewrite list_lookup_imap, Hl.
Qed.

Lemma concat_agree (w : list (list bool)) (a a' : list (list float)) :
  Forall2 (λ w_i row, length w_i = length row) w a →
  Forall2 (λ w_i row, length w_i = length row) w a' →
  (∀ i w_i row row', w !! i = Some w_i → a !! i = Some row → a' !! i = Some row' →
     ∀ j, w_i !! j = Some true → row !! j = row' !! j) →
  ∀ l, concat w !! l = Some true → concat a !! l = concat a' !! l.
Proof.
  intros Ha. revert a'. induction Ha as [|w_i row w a Hlen Ha IH];
    intros a' Ha' Hagree l Hl.
  - by apply Forall2_nil_inv_l in Ha' as ->.
  - apply Forall2_cons_inv_l in Ha' as (row' & a'' & Hlen' & Ha' & ->).
    simpl in Hl |- *. destruct (decide (l < length w_i)) as [Hlt|Hge].
    + rewrite lookup_app_l in Hl by done.
      rewrite !lookup_app_l by lia.
      by apply (Hagree 0 w_i row row').
    + rewrite lookup_app_r in Hl by lia.
      rewrite !lookup_app_r by lia. rewrite <-Hlen, <-Hlen'.
      apply IH; [done| |done].
      intros i. apply (Hagree (S i)).
Qed.

(** X6: the values a weight mask does not select have no influence on the
    scores. For arrays of the shape of the mask, [get_column_score] gives
    the same result - the same scores or the same exception - on two pairs
    of true and predicted arrays that agree wherever the mask is [True]. *)
Theorem masked_out_values_do_not_score
    (arr_true arr_pred arr_true' arr_pred' : list (list float))
    (w : list (list bool)) :
  Forall2 (λ w_i row, length w_i = length row) w arr_true →
  Forall2 (λ w_i row, length w_i = length row) w arr_true' →
  Forall2 (λ w_i row, length w_i = length row) w arr_pred →
  Forall2 (λ w_i row, length w_i = length row) w arr_pred' →
  (∀ i w_i row row', w !! i = Some w_i →
     arr_true !! i = Some row → arr_true' !! i = Some row' →
     ∀ j, w_i !! j = Some true → row !! j = row' !! j) →
  (∀ i w_i row row', w !! i = Some w_i →
     arr_pred !! i = Some row → arr_pred' !! i = Some row' →
     ∀ j, w_i !! j = Some true → row !! j = row' !! j) →
  Kam.get_column_score arr_true arr_pred w
  = Kam.get_column_score arr_true' arr_pred' w.
Proof.
  intros Ht Ht' Hp Hp' Htrue Hpred. unfold Kam.get_column_score.
  assert (length arr_true' = length arr_true) as ->.
  { by rewrite <-(Forall2_length _ _ _ Ht), <-(Forall2_length _ _ _ Ht'). }
  assert (∀ i, Kam.masked_step arr_true arr_pred w i
               = Kam.masked_step arr_true' arr_pred' w i) as Hstep.
  { intros i. unfold Kam.masked_step.
    destruct (w !! i) as [w_i|] eqn:Hwi.
    - destruct (Forall2_lookup_l _ _ _ _ _ Ht Hwi) as (rt & Hrt & Hlt).
      destruct (Forall2_lookup_l _ _ _ _ _ Ht' Hwi) as (rt' & Hrt' & Hlt').
      destruct (Forall2_lookup_l _ _ _ _ _ Hp Hwi) as (rp & Hrp & Hlp).
      destruct (Forall2_lookup_l _ _ _ _ _ Hp' Hwi) as (rp' & Hrp' & Hlp').
      rewrite Hrt, Hrt', Hrp, Hrp'. simpl.
      rewrite (mask_select_agree rt rt' w_i) by (by eauto || congruence).
      destruct (np.mask_select rt' w_i); [|done]. simpl.
      by rewrite (mask_select_agree rp rp' w_i) by (by eauto || congruence).
    - assert (arr_true !! i = None) as ->.
      { apply lookup_ge_None. rewrite <-(Forall2_length _ _ _ Ht).
        by apply lookup_ge_None. }
      assert (arr_true' !! i = None) as ->.
      { apply lookup_ge_None. rewrite <-(Forall2_length _ _ _ Ht').
        by apply lookup_ge_None. }
      done. }
  rewrite (for_each_ext _ (λ i, '(arr_true_i, arr_pred_i) ←
                                  Kam.masked_step arr_true' arr_pred' w i;
                                Kam.step_score arr_true_i arr_pred_i))
    by (intros i _; cbn beta; rewrite Hstep; reflexivity).
  apply result_bind_ext. intros steps _.
  rewrite (for_each_ext (λ l, or_raise IndexError (concat arr_true !! l))
                        (λ l, or_raise IndexError (concat arr_true' !! l))).
  2:{ intros l Hl. apply elem_of_nonzero in Hl.
      by rewrite (concat_agree w arr_true arr_true'). }
  apply result_bind_ext. intros true_all _.
  rewrite (for_each_ext (λ l, or_raise IndexError (concat arr_pred !! l))
                        (λ l, or_raise IndexError (concat arr_pred' !! l))).
  2:{ intros l Hl. apply elem_of_nonzero in Hl.
      by rewrite (concat_agree w arr_pred arr_pred'). }
  done.
Qed.

End masked_scores.


(** One step of three samples, the last masked out: other values in the
    last place give the same scores. *)
Lemma masked_out_values_do_not_score_witness :
  Kam.get_column_score (metrics := Reference.metrics)
    [[1; 3; 9]]%float [[3; 1; 9]]%float [[true; true; false]]
  = Kam.get_column_score (metrics := Reference.metrics)
      [[1; 3; 7]]%float [[3; 1; 0]]%float [[true; true; false]]
  ∧ is_ok (Kam.get_column_score (metrics := Reference.metrics)
             [[1; 3; 9]]%float [[3; 1; 9]]%float [[true; true; false]]) = true.
Proof.
  split; [|vm_compute; reflexivity].
  apply masked_out_values_do_not_score.
  - repeat constructor.
  - repeat constructor.
  - repeat constructor.
  - repeat constructor.
  - intros [|i] w_i row row' [= <-] [= <-] [= <-] [|[|[|j]]] Hj; done.
  - intros [|i] w_i row row' [= <-] [= <-] [= <-] [|[|[|j]]] Hj; done.
Defined.

(** X7: when [get_column_score] returns, each of its six arrays has one
    entry per step, and the entries of [r2_all] are all the same number,
    the R2 over the selected values of all steps pooled. *)
Theorem column_scores_have_one_entry_per_step {metrics : Metrics}
    (arr_true arr_pred : list (list float)) (w : list (list bool))
    (cs : column_score) :
  Kam.get_column_score arr_true arr_pred w = Ok cs →
  length (col_r2 cs) = length arr_true
  ∧ length (col_rmse cs) = length arr_true
  ∧ length (col_mae cs) = length arr_true
  ∧ length (col_r_rmse cs) = length arr_true
  ∧ length (col_cor_value cs) = length arr_true
  ∧ ∃ true_all pred_all pooled,
      for_each (λ l, or_raise IndexError (concat arr_true !! l))
               (np.nonzero (concat w)) = Ok true_all
      ∧ for_each (λ l, or_raise IndexError (concat arr_pred !! l))
                 (np.nonzero (concat w)) = Ok pred_all
      ∧ r2_score true_all pred_all = Ok pooled
      ∧ col_r2_all cs = replicate (length arr_true) pooled.
Proof.
  unfold Kam.get_column_score. intros H.
  apply result_bind_Ok in H as (steps & Hsteps & H).
  apply result_bind_Ok in H as (true_all & Htrue & H).
  apply result_bind_Ok in H as (pred_all & Hpred & H).
  apply result_bind_Ok in H as (pooled & Hpooled & [= <-]).
  apply length_for_each in Hsteps. rewrite length_seq in Hsteps.
  cbn [col_r2 col_rmse col_mae col_r_rmse col_cor_value col_r2_all].
  rewrite !length_map. repeat split; try done.
  exists true_all, pred_all, pooled. repeat split; try done.
  rewrite <-Hsteps. clear. induction steps; [done|].
  simpl. by f_equal.
Qed.

(** Two steps of two samples, all selected. *)
Lemma column_scores_have_one_entry_per_step_witness :
  ∃ cs, Kam.get_column_score (metrics := Reference.metrics)
          [[1; 3]; [1; 3]]%float [[1; 3]; [3; 1]]%float
          [[true; true]; [true; true]] = Ok cs
        ∧ length (col_rmse cs) = 2
        ∧ col_r2 cs = [1; -3]%float
        ∧ col_r2_all cs = [-1; -1]%float.
Proof.
  let run := eval vm_compute in
    (Kam.get_column_score (metrics := Reference.metrics)
       [[1; 3]; [1; 3]]%float [[1; 3]; [3; 1]]%float
       [[true; true]; [true; true]]) in
  match run with Ok ?cs => exists cs end.
  match goal with
  | |- ?run ∧ _ => assert (Hrun : run) by (vm_compute; reflexivity)
  end.
  split; [exact Hrun|].
  destruct (column_scores_have_one_entry_per_step _ _ _ _ Hrun)
    as (_ & Hlen & _).
  split; [exact Hlen|]. split; vm_compute; reflexivity.
Defined.

(** ** Subjects that cannot be used *)

Section subject_errors.
Context {St Mdl : Type}.
Context {scaler : Scaler St} {model : Model St Mdl}.
Context {metrics : Metrics} {shuffler : Shuffle}.
Context (self : BaseModel).

Lemma subject_data_unknown (sub_ids : list string) :
  (∃ sub, sub ∈ sub_ids ∧ _data_all_sub self !! sub = None) →
  for_each (Kam.subject_data self) sub_ids = Raise KeyError.
Proof.
  induction sub_ids as [|sub sub_ids IH]; intros (x & Hx & Hnone).
  - by apply elem_of_nil in Hx.
  - cbn [for_each].
    destruct (Kam.subject_data self sub) as [arr|e] eqn:Hsub.
    + apply elem_of_cons in Hx as [->|Hx].
      * unfold Kam.subject_data in Hsub. by rewrite Hnone in Hsub.
      * rewrite IH by eauto. reflexivity.
    + unfold Kam.subject_data in Hsub.
      destruct (_data_all_sub self !! sub); [done|]. by injection Hsub as <-.
Qed.

Lemma setdiff1d_self (l : list string) : setdiff1d l l = [].
Proof.
  destruct (setdiff1d l l) as [|x l'] eqn:Heq; [done|].
  assert (x ∈ setdiff1d l l) as Hx by (rewrite Heq; by left).
  apply elem_of_setdiff1d in Hx as [? ?]. done.
Qed.

Lemma folder_num_one n k : 1 ≤ n → n ≤ k → folder_num n k = 1.
Proof.
  intros Hn Hk. unfold folder_num.
  destruct (decide (n = k)) as [->|Hne].
  - rewrite Nat.div_same, Nat.Div0.mod_same by lia. done.
  - rewrite Nat.div_small, Nat.mod_small by lia.
    destruct (n =? 0) eqn:Hz; [apply Nat.eqb_eq in Hz; lia|done].
Qed.

Lemma preprocess_and_train_unknown train_sub_ids validate_sub_ids (s : state St) :
  (∃ sub, sub ∈ train_sub_ids ∧ _data_all_sub self !! sub = None) →
  Kam.preprocess_and_train self train_sub_ids validate_sub_ids s
  = (Raise KeyError, s).
Proof.
  intros Hunknown.
  unfold Kam.preprocess_and_train, Kam.prepare_train_call.
  rewrite !M_bind_run. unfold lift. by rewrite subject_data_unknown.
Qed.

Lemma preprocess_and_train_nil validate_sub_ids (s : state St) :
  Kam.preprocess_and_train self [] validate_sub_ids s = (Raise ValueError, s).
Proof. reflexivity. Qed.

End subject_errors.

(** X10: a training subject that is not in the store makes
    [preprocess_and_train] raise [KeyError], and an empty list of training
    subjects makes it raise [ValueError] (there is nothing to concatenate);
    in both cases before anything is allocated or fitted: the state is what
    it was. *)
Theorem preprocess_and_train_rejects_its_train_subjects {St Mdl : Type}
    {scaler : Scaler St} {model : Model St Mdl} {shuffler : Shuffle}
    (self : BaseModel) (train_sub_ids validate_sub_ids : list string)
    (s : state St) :
  ((∃ sub, sub ∈ train_sub_ids ∧ _data_all_sub self !! sub = None) →
   Kam.preprocess_and_train self train_sub_ids validate_sub_ids s
   = (Raise KeyError, s))
  ∧ Kam.preprocess_and_train self [] validate_sub_ids s = (Raise ValueError, s).
Proof.
  split; [apply preprocess_and_train_unknown|apply preprocess_and_train_nil].
Qed.

(** X11: a test subject that is not in the store makes [model_evaluation]
    raise [KeyError] before any subject is evaluated: [predict] is not
    called and the state is what it was, also when the unknown subject is
    the last of the list. *)
Theorem model_evaluation_rejects_unknown_subjects {St Mdl : Type}
    {scaler : Scaler St} {model : Model St Mdl} {metrics : Metrics}
    (self : BaseModel) (m : Mdl) (test_sub_ids : list string) (s : state St) :
  (∃ sub, sub ∈ test_sub_ids ∧ _data_all_sub self !! sub = None) →
  Kam.model_evaluation self m test_sub_ids s = (Raise KeyError, s).
Proof.
  intros Hunknown. unfold Kam.model_evaluation.
  rewrite !M_bind_run. unfold lift. by rewrite subject_data_unknown.
Qed.

(** The subject [s3] is not in the store of the example. *)
Lemma model_evaluation_rejects_unknown_subjects_witness :
  Kam.model_evaluation (model := Example.model) Example.self
    (Reference.Recorded [] [] None None None) ["s2"; "s3"] Example.loaded
  = (Raise KeyError, Example.loaded).
Proof.
  apply model_evaluation_rejects_unknown_subjects.
  exists "s3". split; [set_solver|reflexivity].
Defined.

(** X12: with a test fold size of at least the number of subjects (one
    subject, for one) [cross_validation] has a single fold whose test
    subjects are all the subjects; nothing is left to train on, and it
    raises [ValueError] without touching the state. *)
Theorem cross_validation_needs_two_folds {St Mdl : Type}
    {scaler : Scaler St} {model : Model St Mdl} {metrics : Metrics}
    {shuffler : Shuffle} (self : BaseModel) (sub_ids : list string)
    (test_set_sub_num : nat) (s : state St) :
  sub_ids ≠ [] → length sub_ids ≤ test_set_sub_num →
  cv_folds sub_ids test_set_sub_num = [(sub_ids, [])]
  ∧ Kam.cross_validation self sub_ids test_set_sub_num s = (Raise ValueError, s).
Proof.
  intros Hne Hk.
  assert (1 ≤ length sub_ids) as Hn by (destruct sub_ids; [done|simpl; lia]).
  assert (cv_folds sub_ids test_set_sub_num = [(sub_ids, [])]) as Hfolds.
  { unfold cv_folds. rewrite folder_num_one by done. cbn [seq map].
    unfold train_fold. rewrite test_fold_eq, Nat.mul_0_r, drop_0, take_ge by done.
    by rewrite setdiff1d_self. }
  split; [done|].
  unfold Kam.cross_validation. rewrite decide_False by lia.
  rewrite Hfolds. reflexivity.
Qed.

(** The two subjects of the example in folds of two. *)
Lemma cross_validation_needs_two_folds_witness :
  Kam.cross_validation (model := Example.model) Example.self ["s1"; "s2"] 2
                       Example.loaded
  = (Raise ValueError, Example.loaded).
Proof.
  refine (proj2 (cross_validation_needs_two_folds Example.self ["s1"; "s2"] 2
                   Example.loaded _ _)); [done|simpl; lia].
Defined.

(** ** Which scalers a computation fits *)

Section scalars.
Context {St Mdl : Type}.
Context {scaler : Scaler St} {shuffler : Shuffle}.
Context (R : relation (gmap string St)) `{!PreOrder R}.
Implicit Types (s : state St).

Lemma scalars_kept_weaken {A} (m : M St A) (P Q : A → Prop) :
  scalars_kept R m P → (∀ a, P a → Q a) → scalars_kept R m Q.
Proof.
  intros Hm HPQ s. destruct (Hm s) as [HR HP]. split; [done|].
  destruct (m s).1; auto.
Qed.

Lemma scalars_kept_ret {A} (a : A) (Q : A → Prop) :
  Q a → scalars_kept R (mret a : M St A) Q.
Proof. intros HQ s. by split. Qed.

Lemma scalars_kept_lift {A} (r : result A) (Q : A → Prop) :
  (∀ a, r = Ok a → Q a) → scalars_kept R (lift r : M St A) Q.
Proof. intros HQ s. split; [done|]. simpl. destruct r; auto. Qed.

Lemma scalars_kept_pure {A} (r : result A) :
  scalars_kept R (lift r : M St A) (λ _, True).
Proof. by apply scalars_kept_lift. Qed.

Lemma scalars_kept_raise {A} e (Q : A → Prop) : scalars_kept R (raise e : M St A) Q.
Proof. intros s. by split. Qed.

Lemma scalars_kept_bind {A B} (m : M St A) (k : A → M St B) P Q :
  scalars_kept R m P → (∀ a, P a → scalars_kept R (k a) Q) →
  scalars_kept R (m ≫= k) Q.
Proof.
  intros Hm Hk s. rewrite M_bind_run. destruct (Hm s) as [HR HP].
  destruct (m s) as [[a|e] s1]; simpl in *; [|done].
  destruct (Hk a HP s1) as [HR1 HQ]. split; [by etrans|done].
Qed.

Lemma scalars_kept_fmap {A B} (f : A → B) (m : M St A) P (Q : B → Prop) :
  scalars_kept R m P → (∀ a, P a → Q (f a)) → scalars_kept R (f <$> m) Q.
Proof.
  intros Hm HPQ s. destruct (Hm s) as [HR HP].
  unfold fmap, M_fmap. destruct (m s) as [[a|e] s1]; simpl in *; auto.
Qed.

Lemma scalars_kept_mapM {A B} (f : A → M St B) (l : list A) (Q : A → B → Prop) :
  (∀ x, x ∈ l → scalars_kept R (f x) (Q x)) →
  scalars_kept R (mapM f l) (Forall2 Q l).
Proof.
  induction l as [|x l IH]; intros Hf.
  - by apply scalars_kept_ret.
  - rewrite mapM_cons. eapply scalars_kept_bind; [apply Hf; left|].
    intros y Hy. eapply scalars_kept_bind.
    + apply IH. intros x' Hx'. apply Hf. by right.
    + intros ys Hys. apply scalars_kept_ret. by constructor.
Qed.

Lemma scalars_kept_alloc d sh :
  scalars_kept R (Kam.alloc d sh : M St _) (λ a, shape a = sh).
Proof. intros s. by split. Qed.

Lemma scalars_kept_load arr : scalars_kept R (Kam.load arr : M St _) (λ _, True).
Proof. intros s. split; [done|]. simpl. by destruct (heap s !! buf arr). Qed.

Lemma scalars_kept_store arr d :
  scalars_kept R (Kam.store arr d : M St _) (λ _, True).
Proof. intros s. by split. Qed.

Lemma scalars_kept_get_scalar name :
  scalars_kept R (Kam.get_scalar name) (λ _ : St, True).
Proof. intros s. split; [done|]. simpl. by destruct (_ !! _). Qed.

Lemma scalars_kept_copy arr :
  scalars_kept R (Kam.copy arr : M St _) (λ a, shape a = shape arr).
Proof.
  eapply scalars_kept_bind; [apply scalars_kept_load|].
  intros d _. apply scalars_kept_alloc.
Qed.

Lemma scalars_kept_take_cols arr cols :
  scalars_kept R (Kam.take_cols arr cols : M St _) (λ _, True).
Proof.
  unfold Kam.take_cols. destruct (shape arr) as [|n [|k [|c [|]]]];
    try apply scalars_kept_raise.
  eapply scalars_kept_bind; [apply scalars_kept_load|]. intros d _.
  eapply scalars_kept_bind; [apply scalars_kept_pure|]. intros rows _.
  eapply scalars_kept_weaken; [apply scalars_kept_alloc|done].
Qed.

Lemma scalars_kept_concatenate arrays :
  scalars_kept R (Kam.concatenate arrays : M St _) (λ _, True).
Proof.
  unfold Kam.concatenate. destruct arrays as [|a0 arrays];
    [apply scalars_kept_raise|].
  destruct (shape a0) as [|n rest]; [apply scalars_kept_raise|].
  eapply scalars_kept_bind; [apply scalars_kept_pure|]. intros ns _.
  eapply scalars_kept_bind.
  { apply (scalars_kept_mapM _ _ (λ _ _, True)). intros arr _.
    apply scalars_kept_load. }
  intros ds _. eapply scalars_kept_weaken; [apply scalars_kept_alloc|done].
Qed.

Lemma scalars_kept_shuffle arr :
  scalars_kept R (Kam.shuffle arr : M St _) (λ _, True).
Proof.
  unfold Kam.shuffle. destruct (shape arr) as [|n rest];
    [apply scalars_kept_raise|].
  eapply scalars_kept_bind; [apply scalars_kept_load|]. intros d _.
  eapply scalars_kept_bind; [apply scalars_kept_pure|]. intros picked _.
  eapply scalars_kept_weaken; [apply scalars_kept_alloc|done].
Qed.

Lemma scalars_kept_get_raw_data_dict self data fields_dict :
  scalars_kept R (Kam._get_raw_data_dict self data fields_dict : M St _)
               (λ d, keys d = keys fields_dict).
Proof.
  unfold Kam._get_raw_data_dict.
  eapply scalars_kept_weaken.
  - apply (scalars_kept_mapM _ _ (λ kf kv, kv.1 = kf.1)).
    intros [input_name input_fields] _. unfold Kam.extract_group.
    eapply scalars_kept_bind; [apply scalars_kept_pure|]. intros cols _.
    eapply scalars_kept_bind; [apply scalars_kept_take_cols|]. intros picked _.
    eapply scalars_kept_bind; [apply scalars_kept_copy|]. intros picked' _.
    by apply scalars_kept_ret.
  - intros d Hd. unfold keys.
    induction Hd as [|kf kv l l' Hk Hd IH]; [done|].
    cbn [map]. by rewrite Hk, IH.
Qed.

Lemma scalars_kept_load_rows arr :
  scalars_kept R (Kam.load_rows arr : M St _) (λ _, True).
Proof.
  unfold Kam.load_rows. destruct (shape arr) as [|r [|c [|]]];
    try apply scalars_kept_raise.
  eapply scalars_kept_bind; [apply scalars_kept_load|]. intros d _.
  by apply scalars_kept_ret.
Qed.

Lemma scalars_kept_call_scalar input_name m arr :
  (m ≠ transform → ∀ scalars sc, R scalars (<[input_name := sc]> scalars)) →
  scalars_kept R (Kam.call_scalar input_name m arr) (λ _, True).
Proof.
  intros Hset. unfold Kam.call_scalar.
  eapply scalars_kept_bind; [apply scalars_kept_get_scalar|]. intros sc _.
  eapply scalars_kept_bind; [apply scalars_kept_load_rows|]. intros X _.
  assert ((m ≠ transform) →
          ∀ sc', scalars_kept R (Kam.set_scalar input_name sc') (λ _, True))
    as Hset' by (intros Hm sc' s; split; [by apply Hset|done]).
  destruct m.
  - eapply scalars_kept_bind; [apply scalars_kept_pure|]. intros sc' _.
    eapply scalars_kept_bind; [by apply Hset'|]. intros _ _.
    by apply scalars_kept_ret.
  - eapply scalars_kept_bind; [apply scalars_kept_pure|]. intros out _.
    eapply scalars_kept_fmap; [apply scalars_kept_alloc|done].
  - eapply scalars_kept_bind; [apply scalars_kept_pure|]. intros sc' _.
    eapply scalars_kept_bind; [by apply Hset'|]. intros _ _.
    eapply scalars_kept_bind; [apply scalars_kept_pure|]. intros out _.
    eapply scalars_kept_fmap; [apply scalars_kept_alloc|done].
Qed.

Lemma scalars_kept_normalize_one m mode input_name arr :
  (m ≠ transform → ∀ scalars sc, R scalars (<[input_name := sc]> scalars)) →
  scalars_kept R (Kam.normalize_one m mode input_name arr) (λ _, True).
Proof.
  intros Hset. unfold Kam.normalize_one.
  eapply scalars_kept_bind; [apply scalars_kept_copy|]. intros a1 _.
  destruct (shape a1) as [|n [|k [|c [|]]]]; try apply scalars_kept_raise.
  eapply scalars_kept_bind; [apply scalars_kept_load|]. intros d _.
  eapply scalars_kept_bind; [apply scalars_kept_store|]. intros _ _.
  eapply scalars_kept_bind; [apply scalars_kept_pure|]. intros view _.
  eapply scalars_kept_bind; [by apply scalars_kept_call_scalar|]. intros r _.
  eapply scalars_kept_bind; [apply scalars_kept_pure|]. intros a3 _.
  eapply scalars_kept_bind; [apply scalars_kept_load|]. intros d3 _.
  eapply scalars_kept_bind; [apply scalars_kept_store|]. intros _ _.
  by apply scalars_kept_ret.
Qed.

Lemma scalars_kept_normalize_data data m mode :
  (m ≠ transform →
   ∀ name, name ∈ keys data → ∀ scalars sc, R scalars (<[name := sc]> scalars)) →
  scalars_kept R (Kam.normalize_data data m mode) (λ _, True).
Proof.
  intros Hset. unfold Kam.normalize_data.
  eapply scalars_kept_weaken; [|done].
  apply (scalars_kept_mapM _ _ (λ _ _, True)). intros [input_name arr] Hin.
  eapply scalars_kept_bind; [|intros; by apply scalars_kept_ret].
  apply scalars_kept_normalize_one. intros Hm. apply Hset; [done|].
  unfold keys. apply list_elem_of_fmap. by exists (input_name, arr).
Qed.
End scalars.

Section scalars_of_the_pipeline.
Context {St : Type} {scaler : Scaler St} {shuffler : Shuffle}.
Context (self : BaseModel).

Global Instance same_scalar_preorder name : PreOrder (same_scalar (St := St) name).
Proof.
  split.
  - by intros scalars.
  - intros a b c Hab Hbc. unfold same_scalar in *. congruence.
Qed.

Lemma scalars_kept_preprocess_validation_test_data
    (R : relation (gmap string St)) `{!PreOrder R} x y :
  scalars_kept R (Kam.preprocess_validation_test_data x y) (λ xy, xy = (x, y)).
Proof.
  unfold Kam.preprocess_validation_test_data.
  eapply (scalars_kept_bind _).
  { apply (scalars_kept_normalize_data R). intros Hm. by destruct Hm. }
  intros _ _. by apply (scalars_kept_ret _).
Qed.

Lemma scalars_kept_prepare_predict_call
    (R : relation (gmap string St)) `{!PreOrder R} test_sub_data :
  scalars_kept R (Kam.prepare_predict_call self test_sub_data) (λ _, True).
Proof.
  unfold Kam.prepare_predict_call.
  eapply (scalars_kept_bind _); [apply (scalars_kept_get_raw_data_dict _)|].
  intros x _.
  eapply (scalars_kept_bind _); [apply (scalars_kept_get_raw_data_dict _)|].
  intros y _.
  eapply (scalars_kept_bind _); [apply (scalars_kept_get_raw_data_dict _)|].
  intros w _.
  eapply (scalars_kept_bind _);
    [apply (scalars_kept_preprocess_validation_test_data _)|].
  intros [x' y'] _. by apply (scalars_kept_ret _).
Qed.

Lemma scalars_kept_prepare_train_call name train_sub_ids validate_sub_ids :
  name ∉ keys (_x_fields self) →
  scalars_kept (same_scalar name)
    (Kam.prepare_train_call self train_sub_ids validate_sub_ids) (λ _, True).
Proof.
  intros Hname. unfold Kam.prepare_train_call.
  eapply (scalars_kept_bind _); [apply (scalars_kept_pure _)|]. intros l _.
  eapply (scalars_kept_bind _); [apply (scalars_kept_concatenate _)|]. intros joined _.
  eapply (scalars_kept_bind _); [apply (scalars_kept_shuffle _)|]. intros train_data _.
  eapply (scalars_kept_bind _); [apply (scalars_kept_get_raw_data_dict _)|].
  intros x Hx.
  eapply (scalars_kept_bind _); [apply (scalars_kept_get_raw_data_dict _)|].
  intros y _.
  eapply (scalars_kept_bind _).
  { unfold Kam.preprocess_train_data.
    eapply (scalars_kept_bind _); [|intros; by apply (scalars_kept_ret _ _ (λ _, True))].
    apply (scalars_kept_normalize_data _).
    intros _ input_name Hin scalars sc. unfold same_scalar.
    apply lookup_insert_ne. rewrite Hx in Hin. by intros ->. }
  intros [x' y'] _.
  eapply (scalars_kept_bind _); [apply (scalars_kept_pure _)|]. intros lv _.
  destruct lv as [|v lv]; [by apply (scalars_kept_ret _)|].
  eapply (scalars_kept_bind _); [apply (scalars_kept_concatenate _)|]. intros vd _.
  eapply (scalars_kept_bind _); [apply (scalars_kept_get_raw_data_dict _)|].
  intros xv _.
  eapply (scalars_kept_bind _); [apply (scalars_kept_get_raw_data_dict _)|].
  intros yv _.
  eapply (scalars_kept_bind _); [apply (scalars_kept_get_raw_data_dict _)|].
  intros wv _.
  eapply (scalars_kept_bind _);
    [apply (scalars_kept_preprocess_validation_test_data _)|].
  intros [xv' yv'] _. by apply (scalars_kept_ret _).
Qed.
End scalars_of_the_pipeline.

(** X4: the preprocessing of validation and test data never fits a scaler.
    [normalize_data] with the method [transform],
    [preprocess_validation_test_data] and the part of [model_evaluation]
    that prepares the input of [predict] leave every scaler object as it
    was, whether they return or raise. *)
Theorem validation_and_test_data_fit_no_scaler {St : Type} {scaler : Scaler St}
    (self : BaseModel) (s : state St) :
  (∀ data mode,
     _data_scalar (Kam.normalize_data data transform mode s).2 = _data_scalar s)
  ∧ (∀ x y,
       _data_scalar (Kam.preprocess_validation_test_data x y s).2 = _data_scalar s)
  ∧ (∀ test_sub_data,
       _data_scalar (Kam.prepare_predict_call self test_sub_data s).2
       = _data_scalar s).
Proof.
  split; [|split].
  - intros data mode.
    by destruct (scalars_kept_normalize_data (flip eq) data transform mode
                   ltac:(done) s) as [-> _].
  - intros x y.
    by destruct (scalars_kept_preprocess_validation_test_data (flip eq) x y s)
      as [-> _].
  - intros test_sub_data.
    by destruct (scalars_kept_prepare_predict_call self (flip eq) test_sub_data s)
      as [-> _].
Qed.

(** X5: up to its call of [train_model], [preprocess_and_train] fits the
    scalers of the input groups only: the scaler object of any name that is
    not a key of [_x_fields] - that of an output group, for one - is after
    the preparation what it was before, whether it returns or raises. *)
Theorem only_input_scalers_are_fitted {St : Type} {scaler : Scaler St}
    {shuffler : Shuffle} (self : BaseModel)
    (train_sub_ids validate_sub_ids : list string) (name : string)
    (s : state St) :
  name ∉ keys (_x_fields self) →
  _data_scalar (Kam.prepare_train_call self train_sub_ids validate_sub_ids s).2
    !! name
  = _data_scalar s !! name.
Proof.
  intros Hname.
  by destruct (scalars_kept_prepare_train_call self name train_sub_ids
                 validate_sub_ids Hname s) as [-> _].
Qed.

(** On the example the scaler of the group [output] is still the one
    [__init__] made, while that of the input group is fitted. *)
Lemma only_input_scalers_are_fitted_witness :
  let s' := (Kam.prepare_train_call Example.self ["s1"] ["s2"] Example.loaded).2 in
  _data_scalar s' !! "output" = Some base_scalar
  ∧ _data_scalar s' !! "main_input_acc"
    = Some (Some [(0.25, -0.5); (0.25, -1)]%float).
Proof.
  cbv zeta. split; [|vm_compute; reflexivity].
  rewrite (only_input_scalers_are_fitted Example.self ["s1"] ["s2"] "output").
  - reflexivity.
  - cbn. set_solver.
Defined.

(** ** The records of the score table *)

Section results.
Context {St Mdl : Type}.
Context {scaler : Scaler St} {model : Model St Mdl}.
Context {metrics : Metrics} {shuffler : Shuffle}.
Context (self : BaseModel).

(** What a computation returns, when it returns. *)
Local Abbreviation returns m Q := (scalars_kept (λ _ _ : gmap string St, True) m Q).

Local Instance any_scalars : PreOrder (λ _ _ : gmap string St, True).
Proof. by split. Qed.

Lemma returns_any {A} (m : M St A) : returns m (λ _, True).
Proof. intros s. split; [done|]. by destruct (m s).1. Qed.

Lemma map_snd_enumerate {A} (l : list A) : map snd (enumerate l) = l.
Proof.
  unfold enumerate. change (map snd) with (fmap (M := list) (@snd nat A)).
  rewrite fmap_imap. induction l as [|x l IH] using rev_ind; [done|].
  rewrite imap_app, IH. done.
Qed.

Lemma returns_get_all_scores y_true y_pred weights :
  returns (Kam.get_all_scores self y_true y_pred weights)
          (λ scores, map (λ r, (subject r, (output r, field r))) scores
                     = map (λ key, (None, key)) (output_fields self)).
Proof.
  unfold Kam.get_all_scores, output_fields.
  eapply (scalars_kept_bind _).
  { apply (scalars_kept_mapM _ _ _
             (λ key recs, map (λ r, (subject r, (output r, field r))) recs
                         = map (λ f, (None, (key.1, f))) key.2)).
    intros [output_name fields] _. cbn [fst snd].
    eapply scalars_kept_weaken.
    - apply (scalars_kept_mapM _ _ _
               (λ cf r, (subject r, (output r, field r))
                        = (None, (output_name, cf.2)))).
      intros [col f] _.
      eapply (scalars_kept_bind _); [apply returns_any|]. intros true_arr _.
      eapply (scalars_kept_bind _); [apply returns_any|]. intros yt _.
      eapply (scalars_kept_bind _); [apply returns_any|]. intros pred_arr _.
      eapply (scalars_kept_bind _); [apply returns_any|]. intros yp _.
      eapply (scalars_kept_bind _); [apply returns_any|]. intros w _.
      eapply (scalars_kept_bind _); [apply returns_any|]. intros cs _.
      by apply (scalars_kept_ret _).
    - intros recs Hrecs.
      assert (map (λ f, (None (A := string), (output_name, f))) fields
              = map (λ cf : nat * string, (None, (output_name, cf.2)))
                    (enumerate fields)) as ->.
      { by rewrite <-(map_snd_enumerate fields) at 1; rewrite map_map. }
      induction Hrecs as [|cf r l l' Hr _ IH]; [done|].
      cbn [map]. by rewrite Hr, IH. }
  intros scores Hscores. apply (scalars_kept_ret _).
  induction Hscores as [|[o fields] recs l l' Hr _ IH]; [done|].
  cbn [concat flat_map]. rewrite !map_app, IH. f_equal.
  rewrite Hr, map_map. done.
Qed.

Lemma returns_model_evaluation (m : Mdl) test_sub_ids :
  returns (Kam.model_evaluation self m test_sub_ids)
          (λ results, map (λ r, (subject r, (output r, field r))) results
                      = flat_map (λ sub, map (λ key, (Some sub, key))
                                             (output_fields self))
                                 test_sub_ids).
Proof.
  unfold Kam.model_evaluation.
  eapply (scalars_kept_bind _); [apply returns_any|]. intros test_data_list _.
  eapply (scalars_kept_bind _).
  { apply (scalars_kept_mapM _ _ _
             (λ isub recs, map (λ r, (subject r, (output r, field r))) recs
                           = map (λ key, (Some isub.2, key)) (output_fields self))).
    intros [i sub] _. cbn [snd].
    eapply (scalars_kept_bind _); [apply returns_any|]. intros test_sub_data _.
    eapply (scalars_kept_bind _); [apply returns_any|]. intros [[x y] w] _.
    eapply (scalars_kept_bind _); [apply returns_any|]. intros pred _.
    eapply (scalars_kept_bind _); [apply returns_get_all_scores|].
    intros all_scores Hall. apply (scalars_kept_ret _).
    rewrite map_map. cbn [subject output field].
    apply (f_equal (map (λ k : option string * (string * string), (Some sub, k.2))))
      in Hall.
    rewrite !map_map in Hall. exact Hall. }
  intros recs Hrecs. apply (scalars_kept_ret _).
  assert (flat_map (λ sub, map (λ key, (Some sub, key)) (output_fields self))
                   test_sub_ids
          = flat_map (λ isub : nat * string,
                        map (λ key, (Some isub.2, key)) (output_fields self))
                     (enumerate test_sub_ids)) as ->.
  { rewrite <-(map_snd_enumerate test_sub_ids) at 1.
    generalize (enumerate test_sub_ids). intros l.
    induction l as [|x l IH]; [done|]. cbn [map flat_map]. by rewrite IH. }
  induction Hrecs as [|isub r l l' Hr _ IH]; [done|].
  cbn [concat flat_map map]. by rewrite map_app, IH, Hr.
Qed.
End results.

(** X8: when [get_all_scores] returns, it returns one score record per
    field of every output group, in the order of [_y_fields], and none of
    them names a subject yet. *)
Theorem get_all_scores_has_one_record_per_output_field {St : Type}
    {metrics : Metrics} (self : BaseModel) (y_true y_pred : dict ndarray)
    (weights : option (dict ndarray)) (s : state St) (scores : list score)
    (s' : state St) :
  Kam.get_all_scores self y_true y_pred weights s = (Ok scores, s') →
  map (λ r, (output r, field r)) scores = output_fields self
  ∧ Forall (λ r, subject r = None) scores.
Proof.
  intros Hrun.
  destruct (returns_get_all_scores self y_true y_pred weights s) as [_ Hkeys].
  rewrite Hrun in Hkeys. cbn in Hkeys. split.
  - apply (f_equal (map snd)) in Hkeys. rewrite !map_map in Hkeys.
    cbn in Hkeys. by rewrite map_id in Hkeys.
  - clear Hrun. revert Hkeys. generalize (output_fields self).
    induction scores as [|r scores IH]; intros [|k ks] Hkeys; try done.
    injection Hkeys as Hr _ Hks. constructor; [done|]. by eapply IH.
Qed.

(** X9: when [model_evaluation] returns, its score records are those of
    the test subjects in the order of [test_sub_ids], every subject with one
    record per field of every output group in the order of [_y_fields], each
    naming its subject. *)
Theorem model_evaluation_scores_every_test_subject {St Mdl : Type}
    {scaler : Scaler St} {model : Model St Mdl} {metrics : Metrics}
    (self : BaseModel) (m : Mdl) (test_sub_ids : list string)
    (s : state St) (results : list score) (s' : state St) :
  Kam.model_evaluation self m test_sub_ids s = (Ok results, s') →
  map (λ r, (subject r, (output r, field r))) results
  = flat_map (λ sub, map (λ key, (Some sub, key)) (output_fields self))
             test_sub_ids.
Proof.
  intros Hrun.
  destruct (returns_model_evaluation self m test_sub_ids s) as [_ Hkeys].
  by rewrite Hrun in Hkeys.
Qed.

(** The true and predicted output of the example's second subject. *)
Lemma get_all_scores_has_one_record_per_output_field_witness :
  ∃ scores s',
    Kam.get_all_scores (metrics := Reference.metrics) Example.self
      [("output", NdArray 0 [1; 2; 1])] [("output", NdArray 1 [1; 2; 1])] None
      (State [[5; 7]; [1; 3]]%float (∅ : gmap string (option MinMaxScaler.fitted)))
    = (Ok scores, s')
    ∧ map (λ r, (output r, field r)) scores = [("output", "KAM")]
    ∧ map rmse scores = [[4]]%float.
Proof.
  let run := eval vm_compute in
    (Kam.get_all_scores (metrics := Reference.metrics) Example.self
       [("output", NdArray 0 [1; 2; 1])] [("output", NdArray 1 [1; 2; 1])] None
       (State [[5; 7]; [1; 3]]%float (∅ : gmap string (option MinMaxScaler.fitted)))) in
  match run with (Ok ?scores, ?s') => exists scores, s' end.
  match goal with
  | |- ?run ∧ _ => assert (Hrun : run) by (vm_compute; reflexivity)
  end.
  split; [exact Hrun|]. split; [|vm_compute; reflexivity].
  exact (proj1 (get_all_scores_has_one_record_per_output_field _ _ _ _ _ _ _ Hrun)).
Defined.

(** The example's model, trained on the first subject and evaluated on the
    second and the first. *)
Lemma model_evaluation_scores_every_test_subject_witness :
  let trained := Kam.preprocess_and_train (model := Example.model) Example.self
                   ["s1"] ["s2"] Example.loaded in
  ∃ m results s',
    trained.1 = Ok m
    ∧ Kam.model_evaluation (model := Example.model) Example.self m ["s2"; "s1"]
                           trained.2
      = (Ok results, s')
    ∧ map (λ r, (subject r, (output r, field r))) results
      = [(Some "s2", ("output", "KAM")); (Some "s1", ("output", "KAM"))].
Proof.
  cbv zeta.
  let trained := eval vm_compute in
    (Kam.preprocess_and_train (model := Example.model) Example.self
       ["s1"] ["s2"] Example.loaded) in
  match trained with
  | (Ok ?m, ?s0) =>
      let run := eval vm_compute in
        (Kam.model_evaluation (model := Example.model) Example.self m
           ["s2"; "s1"] s0) in
      match run with (Ok ?results, ?s') => exists m, results, s' end
  end.
  split; [vm_compute; reflexivity|].
  match goal with
  | |- ?run ∧ _ => assert (Hrun : run) by (vm_compute; reflexivity)
  end.
  split; [exact Hrun|].
  exact (model_evaluation_scores_every_test_subject _ _ _ _ _ _ Hrun).
Defined.

(** ** Field extraction *)

Section extraction.
Context {St : Type}.
Context (self : BaseModel).
Implicit Types (s : state St).

Lemma list_index_Ok (l : list string) x i :
  list_index l x = Ok i ↔ l !! i = Some x ∧ ∀ j, j < i → l !! j ≠ Some x.
Proof.
  unfold list_index.
  destruct (list_find (λ y, y = x) l) as [[k y]|] eqn:Hfind; cbn.
  - apply list_find_Some in Hfind as (Hk & -> & Hmin). split.
    + intros [= <-]. split; [done|]. intros j Hj Hjx.
      by apply (Hmin j x).
    + intros [Hi Hleast]. f_equal.
      destruct (Nat.lt_trichotomy k i) as [Hlt|[->|Hgt]]; [|done|].
      * by destruct (Hleast k Hlt).
      * by destruct (Hmin i x Hi Hgt).
  - apply list_find_None in Hfind. split; [done|]. intros [Hi _].
    rewrite Forall_forall in Hfind. destruct (Hfind x); [|done].
    by eapply list_elem_of_lookup_2.
Qed.

Lemma list_index_Raise (l : list string) x e :
  list_index l x = Raise e ↔ x ∉ l ∧ e = ValueError.
Proof.
  unfold list_index.
  destruct (list_find (λ y, y = x) l) as [[k y]|] eqn:Hfind; cbn.
  - apply list_find_Some in Hfind as (Hk & -> & _). split; [done|].
    intros [Hx _]. destruct Hx. by eapply list_elem_of_lookup_2.
  - apply list_find_None in Hfind. rewrite Forall_forall in Hfind. split.
    + intros [= <-]. split; [|done]. intros Hx. by apply (Hfind x).
    + by intros [_ ->].
Qed.

Lemma for_each_list_index (l fields : list string) :
  match for_each (list_index l) fields with
  | Ok cols => Forall2 (λ f col, list_index l f = Ok col) fields cols
  | Raise e => e = ValueError ∧ ∃ f, f ∈ fields ∧ f ∉ l
  end.
Proof.
  induction fields as [|f fields IH]; [by constructor|]. cbn [for_each].
  destruct (list_index l f) as [col|e] eqn:Hf.
  - destruct (for_each (list_index l) fields) as [cols|e'].
    + by constructor.
    + destruct IH as [-> (f' & Hin & Hout)]. split; [done|].
      exists f'. split; [by right|done].
  - apply list_index_Raise in Hf as [Hout ->]. split; [done|].
    exists f. split; [by left|done].
Qed.

(** The values [a[r, cols]] of one sample. *)
Lemma pick_row (row : list float) (cols : list nat) :
  Forall (λ col, col < length row) cols →
  ∃ picked, for_each (λ col, or_raise IndexError (row !! col)) cols = Ok picked
            ∧ Forall2 (λ col x, row !! col = Some x) cols picked.
Proof.
  induction 1 as [|col cols Hcol _ (picked & Hpicked & Hall)].
  - exists []. by split; [|constructor].
  - destruct (lookup_lt_is_Some_2 row col Hcol) as [x Hx].
    exists (x :: picked). cbn [for_each]. rewrite Hx, Hpicked.
    split; [done|]. by constructor.
Qed.

Lemma pick_rows (rows : list (list float)) (cols : list nat) c :
  Forall (λ row, length row = c) rows → Forall (λ col, col < c) cols →
  ∃ picked,
    for_each (λ row, for_each (λ col, or_raise IndexError (row !! col)) cols)
             rows = Ok picked
    ∧ Forall2 (λ row p, Forall2 (λ col x, row !! col = Some x) cols p) rows picked.
Proof.
  intros Hrows Hcols. induction Hrows as [|row rows Hrow _ (picked & Hp & Hall)].
  - exists []. by split; [|constructor].
  - destruct (pick_row row cols) as (p & Hrowp & Hprow).
    { by rewrite Hrow. }
    exists (p :: picked). cbn [for_each]. rewrite Hrowp, Hp.
    split; [done|]. by constructor.
Qed.

Lemma lookup_concat_rows {A} (rows : list (list A)) c r j row :
  Forall (λ row, length row = c) rows → rows !! r = Some row → j < c →
  concat rows !! (r * c + j) = row !! j.
Proof.
  intros Hrows. revert r. induction Hrows as [|row0 rows Hlen _ IH];
    intros r Hr Hj; [done|].
  destruct r as [|r]; cbn [concat].
  - injection Hr as ->. rewrite lookup_app_l by lia. done.
  - rewrite lookup_app_r by lia. rewrite Hlen.
    replace (S r * c + j - c) with (r * c + j) by lia. by apply IH.
Qed.

Lemma take_cols_rows (arr : ndarray) (cols : list nat) s d n k c :
  heap s !! buf arr = Some d → shape arr = [n; k; c] → length d = n * k * c →
  Forall (λ col, col < c) cols →
  ∃ picked,
    Forall2 (λ row p, Forall2 (λ col x, row !! col = Some x) cols p)
            (np.chunks c (n * k) d) picked
    ∧ Kam.take_cols arr cols s
      = (Ok (NdArray (length (heap s)) [n; k; length cols]),
         State (heap s ++ [concat picked]) (_data_scalar s)).
Proof.
  intros Hd Hsh Hlen Hcols.
  assert (Forall (λ row, length row = c) (np.chunks c (n * k) d)) as Hrect
    by (apply Forall_length_chunks; lia).
  destruct (pick_rows _ cols c Hrect Hcols) as (picked & Hpicked & Hall).
  exists picked. split; [done|].
  unfold Kam.take_cols. rewrite Hsh. rewrite M_bind_run.
  unfold Kam.load. rewrite Hd. cbn [or_raise]. rewrite M_bind_run.
  unfold lift. rewrite Hpicked. reflexivity.
Qed.

Lemma take_cols_run (arr : ndarray) (cols : list nat) s d n k c :
  heap s !! buf arr = Some d → shape arr = [n; k; c] → length d = n * k * c →
  Forall (λ col, col < c) cols →
  ∃ v, Kam.take_cols arr cols s
       = (Ok (NdArray (length (heap s)) [n; k; length cols]),
          State (heap s ++ [v]) (_data_scalar s))
       ∧ length v = n * k * length cols
       ∧ ∀ r j col, r < n * k → cols !! j = Some col →
           v !! (r * length cols + j) = d !! (r * c + col).
Proof.
  intros Hd Hsh Hlen Hcols.
  destruct (take_cols_rows arr cols s d n k c Hd Hsh Hlen Hcols)
    as (picked & Hall & Hrun).
  assert (Forall (λ p, length p = length cols) picked) as Hprect.
  { clear -Hall. induction Hall as [|row p rows ps Hp _ IH]; constructor; [|done].
    symmetry. by eapply Forall2_length. }
  assert (length picked = n * k) as Hnk.
  { rewrite <-(Forall2_length _ _ _ Hall). apply length_chunks. }
  exists (concat picked). split; [done|]. split.
  - rewrite (length_concat_rows (length cols)) by done. by rewrite Hnk.
  - intros r j col Hr Hj.
    pose proof (chunks_lookup c (n * k) d r Hr) as Hrow.
    destruct (Forall2_lookup_l _ _ _ _ _ Hall Hrow) as (p & Hp & Hrowp).
    destruct (Forall2_lookup_l _ _ _ _ _ Hrowp Hj) as (x & Hx & Hcol).
    rewrite (lookup_concat_rows picked (length cols) r j p Hprect Hp)
      by (by eapply lookup_lt_Some).
    rewrite Hx, <-Hcol.
    assert (col < c) as Hlt by (rewrite Forall_forall in Hcols; apply Hcols;
                                 by eapply list_elem_of_lookup_2).
    rewrite lookup_take_lt by done. by rewrite lookup_drop.
Qed.

Lemma extract_group_run (data : ndarray) input_name input_fields s d n k :
  heap s !! buf data = Some d →
  shape data = [n; k; length (_data_fields self)] →
  length d = n * k * length (_data_fields self) →
  match Kam.extract_group self data input_name input_fields s with
  | (Ok kv, s') =>
      input_fields ⊆ _data_fields self
      ∧ ∃ v, kv = (input_name,
                   NdArray (S (length (heap s))) [n; k; length input_fields])
             ∧ s' = State (heap s ++ [v; v]) (_data_scalar s)
             ∧ length v = n * k * length input_fields
             ∧ ∀ r j f, r < n * k → input_fields !! j = Some f →
                 ∃ col, list_index (_data_fields self) f = Ok col
                        ∧ v !! (r * length input_fields + j)
                          = d !! (r * length (_data_fields self) + col)
  | (Raise e, s') =>
      e = ValueError ∧ s' = s ∧ ∃ f, f ∈ input_fields ∧ f ∉ _data_fields self
  end.
Proof.
  intros Hd Hsh Hlen. unfold Kam.extract_group. rewrite M_bind_run.
  unfold lift at 1.
  pose proof (for_each_list_index (_data_fields self) input_fields) as Hcols.
  destruct (for_each (list_index (_data_fields self)) input_fields)
    as [cols|e]; [|by destruct Hcols as [-> ?]].
  assert (Forall (λ col, col < length (_data_fields self)) cols) as Hlt.
  { clear -Hcols. induction Hcols as [|f col fs cs Hf _ IH]; constructor; [|done].
    apply list_index_Ok in Hf as [Hf _]. by eapply lookup_lt_Some. }
  destruct (take_cols_run data cols s d n k _ Hd Hsh Hlen Hlt)
    as (v & Hrun & Hv & Hval).
  rewrite M_bind_run, Hrun, M_bind_run.
  pose proof (Forall2_length _ _ _ Hcols) as Hcl.
  assert (Kam.copy (NdArray (length (heap s)) [n; k; length cols])
                   (State (heap s ++ [v]) (_data_scalar s))
          = (Ok (NdArray (S (length (heap s))) [n; k; length cols]),
             State (heap s ++ [v; v]) (_data_scalar s))) as ->.
  { unfold Kam.copy. rewrite M_bind_run. unfold Kam.load. cbn [heap buf].
    rewrite lookup_app_r, Nat.sub_diag by done. cbn [lookup list_lookup or_raise].
    unfold Kam.alloc. cbn [heap _data_scalar shape].
    rewrite length_app, <-app_assoc. cbn [length app].
    by rewrite Nat.add_1_r. }
  split.
  { intros f Hf. apply list_elem_of_lookup in Hf as [j Hj].
    destruct (Forall2_lookup_l _ _ _ _ _ Hcols Hj) as (col & _ & Hcol).
    apply list_index_Ok in Hcol as [Hcol _]. by eapply list_elem_of_lookup_2. }
  exists v. rewrite <-Hcl in *. split; [done|]. split; [done|]. split; [done|].
  intros r j f Hr Hj.
  destruct (Forall2_lookup_l _ _ _ _ _ Hcols Hj) as (col & Hcj & Hcol).
  exists col. split; [done|]. by apply Hval.
Qed.
End extraction.

Section extraction_dict.
Context {St : Type}.
Context (self : BaseModel).
Implicit Types (s : state St).

Lemma get_raw_data_dict_cons (data : ndarray) input_name input_fields fields_dict :
  Kam._get_raw_data_dict self data ((input_name, input_fields) :: fields_dict)
  = (kv ← Kam.extract_group self data input_name input_fields;
     rest ← Kam._get_raw_data_dict self data fields_dict;
     mret (kv :: rest) : M St _).
Proof. reflexivity. Qed.

Lemma get_raw_data_dict_run (data : ndarray) fields_dict s d n k :
  heap s !! buf data = Some d →
  shape data = [n; k; length (_data_fields self)] →
  length d = n * k * length (_data_fields self) →
  match Kam._get_raw_data_dict self data fields_dict s with
  | (Ok out, s') =>
      Forall (λ kf, kf.2 ⊆ _data_fields self) fields_dict
      ∧ ∃ ext, heap s' = heap s ++ ext
               ∧ Forall2 (extracted self d n k (heap s ++ ext)) fields_dict out
  | (Raise e, s') =>
      e = ValueError
      ∧ ∃ kf f, kf ∈ fields_dict ∧ f ∈ kf.2 ∧ f ∉ _data_fields self
  end.
Proof.
  intros Hd Hsh Hlen. revert s Hd.
  induction fields_dict as [|[input_name input_fields] fields_dict IH]; intros s Hd.
  - cbn. split; [done|]. exists []. by rewrite app_nil_r.
  - rewrite get_raw_data_dict_cons, M_bind_run.
    pose proof (extract_group_run self data input_name input_fields s d n k
                  Hd Hsh Hlen) as Hgroup.
    destruct (Kam.extract_group self data input_name input_fields s)
      as [[kv|e] s1].
    + destruct Hgroup as (Hknown & v & -> & -> & Hv & Hval).
      rewrite M_bind_run.
      assert (heap (State (heap s ++ [v; v]) (_data_scalar s)) !! buf data
              = Some d) as Hd1.
      { cbn [heap]. rewrite lookup_app_l; [done|]. by eapply lookup_lt_Some. }
      specialize (IH _ Hd1).
      destruct (Kam._get_raw_data_dict self data fields_dict _) as [[out|e] s'].
      * destruct IH as (Hall & ext & Hext & Hout).
        cbn [heap] in Hext, Hout. split; [by constructor|].
        exists ([v; v] ++ ext). rewrite app_assoc. split; [done|].
        constructor; [|done]. split; [done|]. split; [done|].
        exists v. cbn [snd buf]. split; [|done].
        rewrite <-app_assoc. rewrite lookup_app_r by lia.
        by replace (S (length (heap s)) - length (heap s)) with 1 by lia.
      * destruct IH as (-> & kf & f & Hkf & Hf & Hout).
        split; [done|]. exists kf, f. split; [by right|done].
    + destruct Hgroup as (-> & -> & f & Hf & Hout). split; [done|].
      exists (input_name, input_fields), f. split; [by left|done].
Qed.
End extraction_dict.

(** X2: from an array of [n] steps of [k] samples with one column per data
    field, [_get_raw_data_dict], when it returns, returns the groups of
    [fields_dict] under their names and in their order, each a new array of
    shape [(n, k, number of fields of the group)] whose column [j] holds, for
    every sample, the value of the first column of the data named like the
    [j]-th field of the group; a field named twice has two columns. The
    buffers that existed are left as they were. *)
Theorem get_raw_data_dict_copies_the_named_columns {St : Type}
    (self : BaseModel) (data : ndarray) (fields_dict : dict (list string))
    (s : state St) (d : list float) (n k : nat) (out : dict ndarray)
    (s' : state St) :
  heap s !! buf data = Some d →
  shape data = [n; k; length (_data_fields self)] →
  length d = n * k * length (_data_fields self) →
  Kam._get_raw_data_dict self data fields_dict s = (Ok out, s') →
  take (length (heap s)) (heap s') = heap s
  ∧ Forall2 (λ (kf : string * list string) (kv : string * ndarray),
       kv.1 = kf.1 ∧ shape kv.2 = [n; k; length kf.2]
       ∧ length (heap s) ≤ buf kv.2
       ∧ ∃ v, heap s' !! buf kv.2 = Some v ∧ length v = n * k * length kf.2
              ∧ ∀ r j f, r < n * k → kf.2 !! j = Some f →
                  ∃ col, _data_fields self !! col = Some f
                         ∧ (∀ col', col' < col → _data_fields self !! col' ≠ Some f)
                         ∧ v !! (r * length kf.2 + j)
                           = d !! (r * length (_data_fields self) + col))
      fields_dict out.
Proof.
  intros Hd Hsh Hlen Hrun.
  pose proof (get_raw_data_dict_run self data fields_dict s d n k Hd Hsh Hlen)
    as H.
  rewrite Hrun in H. destruct H as (_ & ext & Hext & Hout).
  split; [by rewrite Hext, take_app_length|].
  destruct (protects_get_raw_data_dict (length (heap s)) self data fields_dict s
              (le_n _)) as [_ Habove].
  rewrite Hrun in Habove. cbn in Habove.
  rewrite Hext. clear Hrun Hext.
  induction Hout as [|kf kv l l' Hkv _ IH]; [constructor|].
  apply Forall_cons in Habove as [Hkv_above Habove].
  constructor; [|by apply IH].
  destruct Hkv as (Hname & Hshape & v & Hv & Hvlen & Hval).
  split; [done|]. split; [done|]. split; [done|].
  exists v. split; [done|]. split; [done|].
  intros r j f Hr Hj. destruct (Hval r j f Hr Hj) as (col & Hcol & Heq).
  apply list_index_Ok in Hcol as [Hcol Hfirst]. by exists col.
Qed.

(** The input group of the example, from the array of its first subject:
    the two accelerometer columns of its four samples. *)
Lemma get_raw_data_dict_copies_the_named_columns_witness :
  ∃ out s',
    Kam._get_raw_data_dict Example.self (NdArray 0 [2; 2; 4])
                           (_x_fields Example.self) Example.loaded
    = (Ok out, s')
    ∧ out = [("main_input_acc", NdArray 3 [2; 2; 2])]
    ∧ heap s' !! 3 = Some [2; 4;  4; 6;  6; 8;  5; 4]%float
    ∧ take 2 (heap s') = heap Example.loaded.
Proof.
  let run := eval vm_compute in
    (Kam._get_raw_data_dict Example.self (NdArray 0 [2; 2; 4])
                            (_x_fields Example.self) Example.loaded) in
  match run with (Ok ?out, ?s') => exists out, s' end.
  match goal with
  | |- ?run ∧ _ => assert (Hrun : run) by (vm_compute; reflexivity)
  end.
  split; [exact Hrun|]. split; [reflexivity|]. split; [reflexivity|].
  refine (proj1 (get_raw_data_dict_copies_the_named_columns
                   Example.self (NdArray 0 [2; 2; 4]) (_x_fields Example.self)
                   Example.loaded Example.s1_values 2 2 _ _ _ _ _ Hrun));
    reflexivity.
Defined.

(** X3: on such an array [_get_raw_data_dict] returns exactly when every
    field of every group is a data field, and raises [ValueError] exactly
    when one is not; it raises nothing else. *)
Theorem get_raw_data_dict_needs_known_fields {St : Type}
    (self : BaseModel) (data : ndarray) (fields_dict : dict (list string))
    (s : state St) (d : list float) (n k : nat) :
  heap s !! buf data = Some d →
  shape data = [n; k; length (_data_fields self)] →
  length d = n * k * length (_data_fields self) →
  let r := (Kam._get_raw_data_dict self data fields_dict s).1 in
  (is_ok r = true ↔ Forall (λ kf, kf.2 ⊆ _data_fields self) fields_dict)
  ∧ (r = Raise ValueError ↔
     ∃ kf f, kf ∈ fields_dict ∧ f ∈ kf.2 ∧ f ∉ _data_fields self)
  ∧ (is_ok r = true ∨ r = Raise ValueError).
Proof.
  intros Hd Hsh Hlen r. unfold r. clear r.
  pose proof (get_raw_data_dict_run self data fields_dict s d n k Hd Hsh Hlen)
    as H.
  destruct (Kam._get_raw_data_dict self data fields_dict s) as [[out|e] s'];
    cbn [fst is_ok].
  - destruct H as (Hknown & _). split; [done|]. split; [|by left].
    split; [done|]. intros (kf & f & Hkf & Hf & Hout).
    rewrite Forall_forall in Hknown. destruct Hout. by apply (Hknown kf).
  - destruct H as (-> & kf & f & Hkf & Hf & Hout). split; [|split; [|by right]].
    + split; [done|]. intros Hknown. rewrite Forall_forall in Hknown.
      destruct Hout. by apply (Hknown kf).
    + split; [eauto|done].
Qed.

(** On the example a group that asks for [GyroX] cannot be extracted. *)
Lemma get_raw_data_dict_needs_known_fields_witness :
  (Kam._get_raw_data_dict Example.self (NdArray 0 [2; 2; 4])
                          [("main_input_gyr", ["GyroX"])] Example.loaded).1
  = Raise ValueError.
Proof.
  apply (get_raw_data_dict_needs_known_fields Example.self (NdArray 0 [2; 2; 4])
           [("main_input_gyr", ["GyroX"])] Example.loaded Example.s1_values 2 2);
    try reflexivity.
  exists ("main_input_gyr", ["GyroX"]), "GyroX".
  split; [by left|]. split; [by left|]. cbn. set_solver.
Defined.

(** ** Calibration by gravity *)

Section calibration.
Context {St : Type} {static : StaticCalibration}.
Context (self : BaseModel).
Implicit Types (s : state St).

Lemma matmul_rows (m : mat3) (rows : list (list float)) :
  Forall (λ row, length row = 3) rows →
  ∃ res, for_each (Calibration.matmul m) rows = Ok res
         ∧ Forall2 (λ row r, Calibration.matmul m row = Ok r) rows res
         ∧ Forall (λ r, length r = 3) res.
Proof.
  induction 1 as [|row rows Hrow _ (res & Hres & Hall & Hlen)].
  - exists []. by repeat split; constructor.
  - destruct row as [|x [|y [|z [|]]]]; try done.
    destruct m as [[[[a b] c] [[d e] f]] [[g h] i]].
    eexists (_ :: res). cbn [for_each]. rewrite Hres.
    split; [reflexivity|]. split; constructor; done.
Qed.

Lemma length_assign_row locs (row vals : list float) :
  length (Calibration.assign_row locs row vals) = length row.
Proof.
  unfold Calibration.assign_row. generalize (zip locs vals). intros l.
  revert row. induction l as [|lv l IH]; intros row; [done|].
  cbn [foldl]. by rewrite IH, length_insert.
Qed.

Lemma assign_row_lookup_ne locs (row vals : list float) col :
  col ∉ locs → Calibration.assign_row locs row vals !! col = row !! col.
Proof.
  unfold Calibration.assign_row. revert row vals.
  induction locs as [|loc locs IH]; intros row vals Hcol; [done|].
  destruct vals as [|x vals]; [done|]. cbn [zip zip_with foldl fst snd].
  rewrite IH by set_solver. apply list_lookup_insert_ne. set_solver.
Qed.

(** The state after [rotate_columns], when the array of the subject is
    laid out: its buffer holds rotated samples, or what it held. *)
Lemma rotate_columns_run subject (m : mat3) kind sensor s arr n k d :
  _data_all_sub self !! subject = Some arr →
  shape arr = [n; k; length (_data_fields self)] →
  heap s !! buf arr = Some d →
  length d = n * k * length (_data_fields self) →
  ∃ d' ext,
    (Calibration.rotate_columns self subject m kind sensor s).2
    = State (<[buf arr := d']> (heap s) ++ ext) (_data_scalar s)
    ∧ (d' = d
       ∨ ∃ locs rows',
           Forall2 (λ f loc, list_index (_data_fields self) f = Ok loc)
                   (Calibration.axis_cols kind sensor) locs
           ∧ d' = concat rows'
           ∧ Forall2 (rotated_row m locs)
                     (np.chunks (length (_data_fields self)) (n * k) d) rows').
Proof.
  intros Hsub Hsh Hd Hlen.
  assert (∀ ext, State (heap s ++ ext) (_data_scalar s)
                 = State (<[buf arr := d]> (heap s) ++ ext) (_data_scalar s))
    as Hsame by (intros ext; by rewrite list_insert_id).
  unfold Calibration.rotate_columns. rewrite M_bind_run. unfold lift at 1.
  pose proof (for_each_list_index (_data_fields self)
                (Calibration.axis_cols kind sensor)) as Hlocs.
  destruct (for_each (list_index (_data_fields self))
                     (Calibration.axis_cols kind sensor)) as [locs|e].
  2:{ exists d, []. split; [|by left]. cbn [snd].
      rewrite <-Hsame, app_nil_r. by destruct s. }
  assert (length locs = 3) as Hlocs3.
  { by rewrite <-(Forall2_length _ _ _ Hlocs). }
  assert (Forall (λ col, col < length (_data_fields self)) locs) as Hlt.
  { clear -Hlocs. induction Hlocs as [|f col fs cs Hf _ IH]; constructor; [|done].
    apply list_index_Ok in Hf as [Hf _]. by eapply lookup_lt_Some. }
  rewrite M_bind_run. unfold lift at 1, Kam.subject_data at 1.
  rewrite Hsub. cbn [or_raise].
  destruct (take_cols_rows arr locs s d n k _ Hd Hsh Hlen Hlt)
    as (picked & Hpicked & Hrun).
  rewrite M_bind_run, Hrun. rewrite Hlocs3.
  assert (Forall (λ p, length p = 3) picked) as Hp3.
  { clear -Hpicked Hlocs3.
    induction Hpicked as [|row p rows ps Hp _ IH]; constructor; [|done].
    rewrite <-Hlocs3. symmetry. by eapply Forall2_length. }
  assert (length picked = n * k) as Hnk.
  { rewrite <-(Forall2_length _ _ _ Hpicked). apply length_chunks. }
  rewrite M_bind_run. unfold Calibration.apply_along_axis_2 at 1.
  cbn [shape]. destruct (decide (n * k = 0)) as [Hzero|Hpos].
  { exists d, [concat picked]. split; [|by left]. cbn [snd raise].
    by rewrite <-Hsame. }
  rewrite M_bind_run. unfold Kam.load at 1. cbn [heap buf].
  rewrite lookup_app_r, Nat.sub_diag by done. cbn [lookup list_lookup or_raise].
  rewrite chunks_concat by done.
  destruct (matmul_rows m picked Hp3) as (res & Hres & Hmul & Hres3).
  rewrite M_bind_run. unfold lift at 1. rewrite Hres.
  assert (length res = n * k) as Hresnk.
  { by rewrite <-(Forall2_length _ _ _ Hmul). }
  destruct res as [|r0 res]; [simpl in Hresnk; lia|].
  assert (length r0 = 3) as Hr0 by by apply Forall_cons in Hres3 as [? _].
  rewrite decide_True.
  2:{ eapply Forall_impl; [exact Hres3|]. intros r Hr. cbn beta. congruence. }
  unfold Kam.alloc at 1. cbn [heap _data_scalar]. rewrite Hr0.
  rewrite length_app, <-app_assoc. cbn [length app]. rewrite Nat.add_1_r.
  rewrite M_bind_run. unfold lift at 1, Kam.subject_data at 1.
  rewrite Hsub. cbn [or_raise].
  unfold Calibration.assign_cols. rewrite Hsh, Hlocs3.
  rewrite decide_True by done. cbn [shape]. rewrite decide_True by done.
  rewrite M_bind_run. unfold Kam.load at 1. cbn [heap].
  rewrite lookup_app_l by by eapply lookup_lt_Some. rewrite Hd. cbn [or_raise].
  rewrite M_bind_run. unfold Kam.load at 1. cbn [heap buf].
  rewrite lookup_app_r by lia.
  replace (S (length (heap s)) - length (heap s)) with 1 by lia.
  cbn [lookup list_lookup or_raise]. unfold Kam.store. cbn [snd heap _data_scalar].
  rewrite chunks_concat by done.
  rewrite insert_app_l by by eapply lookup_lt_Some.
  eexists _, _. split; [reflexivity|]. right.
  exists locs, (zip_with (Calibration.assign_row locs)
                         (np.chunks (length (_data_fields self)) (n * k) d)
                         (r0 :: res)).
  split; [done|]. split; [done|].
  clear -Hpicked Hmul. revert Hmul. generalize (r0 :: res). clear r0 res.
  induction Hpicked as [|row p rows ps Hp _ IH]; intros res Hmul.
  - apply Forall2_nil_inv_l in Hmul as ->. constructor.
  - apply Forall2_cons_inv_l in Hmul as (r & res' & Hr & Hmul & ->).
    cbn [zip_with]. constructor; [|by apply IH].
    by exists p, r.
Qed.
End calibration.

Section calibration_invariant.
Context {St : Type} {static : StaticCalibration}.
Context (self : BaseModel).
Context (R : relation (list float)) `{!PreOrder R}.
Implicit Types (s : state St).

Lemma samples_eq s arr d :
  heap s !! buf arr = Some d →
  samples self s arr
  = np.chunks (length (_data_fields self))
              (length d `div` length (_data_fields self)) d.
Proof. intros Hd. unfold samples. by rewrite Hd. Qed.

Lemma store_related_refl s : store_laid_out self s → store_related self R s s.
Proof.
  intros Hlaid sub arr Harr. destruct (Hlaid sub arr Harr) as (n & k & d & _ & Hd & _).
  exists d, d. split; [done|]. split; [done|]. split; [done|].
  apply Forall_Forall2_diag, Forall_forall. by intros row _.
Qed.

Lemma rotate_columns_unknown subject (m : mat3) kind sensor s :
  _data_all_sub self !! subject = None →
  (Calibration.rotate_columns self subject m kind sensor s).2 = s.
Proof.
  intros Hsub. unfold Calibration.rotate_columns. rewrite M_bind_run.
  unfold lift at 1.
  destruct (for_each _ (Calibration.axis_cols kind sensor)); [|done].
  rewrite M_bind_run. unfold lift at 1, Kam.subject_data at 1.
  by rewrite Hsub.
Qed.

Lemma store_related_rotate s0 s subject (m : mat3) kind sensor :
  store_laid_out self s0 → store_related self R s0 s →
  (∀ locs row row',
     Forall2 (λ f loc, list_index (_data_fields self) f = Ok loc)
             (Calibration.axis_cols kind sensor) locs →
     length row = length (_data_fields self) →
     rotated_row m locs row row' → R row row') →
  store_related self R s0
    (Calibration.rotate_columns self subject m kind sensor s).2.
Proof.
  intros Hlaid Hrel Hstep.
  destruct (_data_all_sub self !! subject) as [arr|] eqn:Hsub;
    [|by rewrite rotate_columns_unknown].
  destruct (Hlaid subject arr Hsub) as (n & k & d0 & Hsh & Hd0 & Hlen0).
  destruct (Hrel subject arr Hsub) as (d0' & d & Hd0' & Hd & Hlen & _).
  assert (d0' = d0) as -> by congruence.
  destruct (rotate_columns_run self subject m kind sensor s arr n k d
              Hsub Hsh Hd ltac:(congruence)) as (d' & ext & -> & Hd').
  intros sub2 arr2 Harr2.
  destruct (Hrel sub2 arr2 Harr2) as (e0 & e & He0 & He & Hlene & Hrows).
  assert (buf arr2 < length (heap s)) as Hlt2 by by eapply lookup_lt_Some.
  destruct (decide (buf arr2 = buf arr)) as [Heq|Hne].
  - assert (e = d) as -> by congruence.
    assert (heap (State (<[buf arr:=d']> (heap s) ++ ext) (_data_scalar s))
              !! buf arr2 = Some d') as Hnew.
    { cbn [heap]. rewrite lookup_app_l by by rewrite length_insert.
      rewrite Heq. apply list_lookup_insert_eq. by eapply lookup_lt_Some. }
    destruct Hd' as [->|(locs & rows' & Hlocs & -> & Hrot)].
    + exists e0, d. split; [done|]. split; [done|]. split; [done|].
      by rewrite (samples_eq _ _ _ Hnew), <-(samples_eq _ _ _ He).
    + assert (0 < length (_data_fields self)) as Hc.
      { destruct locs as [|loc locs]; [by apply Forall2_nil_inv_r in Hlocs|].
        apply Forall2_cons_inv_r in Hlocs as (f & fs & Hf & _ & _).
        apply list_index_Ok in Hf as [Hf _].
        apply lookup_lt_Some in Hf. lia. }
      assert (Forall (λ row, length row = length (_data_fields self))
                     (np.chunks (length (_data_fields self)) (n * k) d)) as Hrect
        by (apply Forall_length_chunks; lia).
      assert (Forall (λ row, length row = length (_data_fields self)) rows')
        as Hrect'.
      { clear -Hrot Hrect.
        induction Hrot as [|row row' rows rows' Hrow _ IH]; [constructor|].
        apply Forall_cons in Hrect as [Hlen Hrect].
        constructor; [|by apply IH].
        destruct Hrow as (p & vals & _ & _ & ->). by rewrite length_assign_row. }
      assert (length rows' = n * k) as Hrows'.
      { rewrite <-(Forall2_length _ _ _ Hrot). apply length_chunks. }
      assert (length (concat rows') = n * k * length (_data_fields self)) as Hlen'.
      { rewrite (length_concat_rows _ _ Hrect'). by rewrite Hrows'. }
      exists e0, (concat rows'). split; [done|]. split; [done|].
      split; [congruence|].
      rewrite (samples_eq _ _ _ Hnew), Hlen', Nat.div_mul by lia.
      rewrite chunks_concat by done.
      rewrite (samples_eq _ _ _ He) in Hrows.
      rewrite Hlen, Hlen0, Nat.div_mul in Hrows by lia.
      assert (∀ rows, Forall (λ row, length row = length (_data_fields self)) rows →
                      Forall2 (rotated_row m locs) rows rows' →
                      Forall2 R rows rows') as Hgen.
      { clear -Hstep Hlocs. intros rows Hrect Hrot.
        induction Hrot as [|row row' rows rows'' Hrow _ IH]; [constructor|].
        apply Forall_cons in Hrect as [Hl Hrect].
        constructor; [by eapply Hstep|by apply IH]. }
      eapply Forall2_trans; [|exact Hrows|by apply Hgen].
      intros x y z Hxy Hyz. by etrans.
  - exists e0, e. split; [done|].
    assert (heap (State (<[buf arr:=d']> (heap s) ++ ext) (_data_scalar s))
              !! buf arr2 = Some e) as Hnew.
    { cbn [heap]. rewrite lookup_app_l by by rewrite length_insert.
      by rewrite list_lookup_insert_ne. }
    split; [done|]. split; [done|].
    by rewrite (samples_eq _ _ _ Hnew), <-(samples_eq _ _ _ He).
Qed.

Lemma mapM_invariant {A B} (I : state St → Prop) (f : A → M St B) l :
  (∀ x s, x ∈ l → I s → I (f x s).2) →
  ∀ s, I s → I (mapM f l s).2.
Proof.
  induction l as [|x l IH]; intros Hf s Hs; [done|].
  rewrite mapM_cons, M_bind_run.
  assert (I (f x s).2) as Hx by (apply Hf; [by left|done]).
  destruct (f x s) as [[y|e] s1]; [|done]. cbn [snd] in Hx.
  rewrite M_bind_run.
  assert (I (mapM f l s1).2) as Hl.
  { apply IH; [|done]. intros x' s' Hx'. apply Hf. by right. }
  by destruct (mapM f l s1) as [[ys|e] s2].
Qed.

Lemma store_related_cali_via_gravity s0 subjects :
  store_laid_out self s0 →
  (∀ subject transform_mat_dict sensor m kind locs row row',
     get_static_calibration subject = Ok transform_mat_dict →
     dict_get transform_mat_dict sensor = Some m →
     sensor ∈ Const.SENSOR_LIST → kind ∈ ["Accel"; "Gyro"] →
     Forall2 (λ f loc, list_index (_data_fields self) f = Ok loc)
             (Calibration.axis_cols kind sensor) locs →
     length row = length (_data_fields self) →
     rotated_row m locs row row' → R row row') →
  store_related self R s0 (Calibration.cali_via_gravity self subjects s0).2.
Proof.
  intros Hlaid Hstep.
  assert (∀ s, store_related self R s0 s →
               store_related self R s0
                 (Calibration.cali_via_gravity self subjects s).2) as Hall.
  2:{ by apply Hall, store_related_refl. }
  intros s Hs. unfold Calibration.cali_via_gravity. rewrite M_bind_run.
  assert (store_related self R s0
            (mapM (Calibration.cali_subject self) subjects s).2) as Hloop.
  2:{ by destruct (mapM (Calibration.cali_subject self) subjects s) as [[ys|e] s1]. }
  apply (mapM_invariant (store_related self R s0)); [|done].
  clear s Hs. intros subject s _ Hs.
  unfold Calibration.cali_subject. rewrite M_bind_run. unfold lift at 1.
  destruct (get_static_calibration subject) as [transform_mat_dict|e] eqn:Hcal;
    [|done].
  rewrite M_bind_run.
  assert (store_related self R s0
            (mapM (Calibration.cali_sensor self subject transform_mat_dict)
                  Const.SENSOR_LIST s).2) as Hloop.
  2:{ by destruct (mapM (Calibration.cali_sensor self subject transform_mat_dict)
                      Const.SENSOR_LIST s) as [[ys|e] s1]. }
  apply (mapM_invariant (store_related self R s0)); [|done].
  clear s Hs. intros sensor s Hsensor Hs.
  unfold Calibration.cali_sensor. rewrite M_bind_run. unfold lift at 1.
  destruct (dict_get transform_mat_dict sensor) as [m|] eqn:Hm; [|done].
  cbn [or_raise]. rewrite M_bind_run.
  assert (store_related self R s0
            (Calibration.rotate_columns self subject m "Accel" sensor s).2)
    as Hacc.
  { apply store_related_rotate; [done..|]. intros locs row row'.
    apply (Hstep subject transform_mat_dict sensor m "Accel"); try done.
    set_solver. }
  destruct (Calibration.rotate_columns self subject m "Accel" sensor s)
    as [[[]|e] s1]; [|done].
  apply store_related_rotate; [done..|]. intros locs row row'.
  apply (Hstep subject transform_mat_dict sensor m "Gyro"); try done.
  set_solver.
Qed.
End calibration_invariant.

Section zero_floats.

Lemma zero_spec x : (x =? 0)%float = true ↔ ∃ sg, Prim2SF x = S754_zero sg.
Proof.
  rewrite FloatAxioms.eqb_spec.
  assert (Prim2SF 0 = S754_zero false) as -> by reflexivity.
  destruct (Prim2SF x) as [sg|sg| |sg m e]; cbn.
  - split; eauto.
  - split; [by destruct sg|]. by intros [? ?].
  - split; [done|]. by intros [? ?].
  - split; [by destruct sg|]. by intros [? ?].
Qed.

Lemma isfinite_spec x :
  isfinite x = true →
  (∃ sg, Prim2SF x = S754_zero sg) ∨ (∃ sg m e, Prim2SF x = S754_finite sg m e).
Proof.
  unfold isfinite. intros [Hnan Hinf]%andb_true_iff.
  apply negb_true_iff in Hnan, Hinf.
  unfold np.abs in Hinf.
  rewrite FloatAxioms.eqb_spec, FloatAxioms.abs_spec in Hinf.
  assert (Prim2SF infinity = S754_infinity false) as Hi by reflexivity.
  rewrite Hi in Hinf.
  destruct (Prim2SF x) as [sg|sg| |sg m e] eqn:Hx; eauto.
  - by destruct sg.
  - apply isnan_spec in Hx. congruence.
Qed.

Lemma zero_mul a x :
  isfinite a = true → (x =? 0)%float = true → (a * x =? 0)%float = true.
Proof.
  intros Ha [sx Hx]%zero_spec. apply zero_spec.
  rewrite FloatAxioms.mul_spec, Hx. unfold SF64mul.
  destruct (isfinite_spec a Ha) as [[sa ->]|(sa & m & e & ->)]; cbn; eauto.
Qed.

Lemma zero_add x y :
  (x =? 0)%float = true → (y =? 0)%float = true → (x + y =? 0)%float = true.
Proof.
  intros [sx Hx]%zero_spec [sy Hy]%zero_spec. apply zero_spec.
  rewrite FloatAxioms.add_spec, Hx, Hy. unfold SF64add.
  destruct sx, sy; cbn; eauto.
Qed.

Lemma is_padding_Forall row :
  Kam.is_padding row = true ↔ Forall (λ x, (x =? 0)%float = true) row.
Proof.
  unfold Kam.is_padding. rewrite forallb_forall, Forall_forall.
  by setoid_rewrite list_elem_of_In.
Qed.

Lemma matmul_zero (m : mat3) picked vals :
  finite_mat m → Forall (λ x, (x =? 0)%float = true) picked →
  Calibration.matmul m picked = Ok vals →
  Forall (λ x, (x =? 0)%float = true) vals.
Proof.
  destruct m as [[[[a b] c] [[d e] f]] [[g h] i]]. intros Hm Hzero.
  destruct picked as [|x [|y [|z [|]]]]; try done. intros [= <-].
  unfold finite_mat in Hm. cbv beta iota in Hm.
  rewrite !Forall_cons in Hm. rewrite !Forall_cons in Hzero.
  destruct Hm as (Ha & Hb & Hc & Hd & He & Hf & Hg & Hh & Hi & _).
  destruct Hzero as (Hx & Hy & Hz & _).
  repeat constructor; repeat apply zero_add; by apply zero_mul.
Qed.

Lemma assign_row_Forall (P : float → Prop) locs row vals :
  Forall P row → Forall P vals → Forall P (Calibration.assign_row locs row vals).
Proof.
  unfold Calibration.assign_row. revert row vals.
  induction locs as [|loc locs IH]; intros row vals Hrow Hvals; [done|].
  destruct vals as [|x vals]; [done|]. cbn [zip zip_with foldl fst snd].
  apply Forall_cons in Hvals as [Hx Hvals].
  apply IH; [|done]. by apply Forall_insert.
Qed.

Lemma rotated_row_padding (m : mat3) locs row row' :
  finite_mat m → rotated_row m locs row row' →
  Kam.is_padding row = true → Kam.is_padding row' = true.
Proof.
  intros Hm (picked & vals & Hpicked & Hvals & ->) Hpad.
  apply is_padding_Forall in Hpad. apply is_padding_Forall.
  apply assign_row_Forall; [done|].
  apply (matmul_zero m picked); [done| |done].
  clear -Hpicked Hpad. induction Hpicked as [|loc x locs xs Hx _ IH];
    constructor; [|done].
  rewrite Forall_forall in Hpad. apply Hpad. by eapply list_elem_of_lookup_2.
Qed.
End zero_floats.

Section calibration_frame.
Context {St : Type} {static : StaticCalibration}.
Context (self : BaseModel).
Implicit Types (s : state St).

Global Instance other_columns_kept_preorder : PreOrder (other_columns_kept self).
Proof.
  split.
  - by intros row.
  - intros a b c [Hab Hab'] [Hbc Hbc']. split; [congruence|].
    intros col f Hf Hout. rewrite (Hbc' col f), (Hab' col f); done.
Qed.

Global Instance padding_kept_preorder : PreOrder padding_kept.
Proof.
  split.
  - intros row Hpad. exact Hpad.
  - intros a b c Hab Hbc Ha. by apply Hbc, Hab.
Qed.

Lemma axis_cols_rotated kind sensor :
  sensor ∈ Const.SENSOR_LIST → kind ∈ ["Accel"; "Gyro"] →
  Calibration.axis_cols kind sensor ⊆ Calibration.rotated_fields.
Proof.
  intros Hsensor Hkind f Hf. unfold Calibration.rotated_fields.
  apply list_elem_of_In, in_flat_map. exists sensor.
  split; [by apply list_elem_of_In|]. apply list_elem_of_In, elem_of_app.
  set_solver.
Qed.

Lemma rotated_row_other_columns (m : mat3) kind sensor locs row row' :
  sensor ∈ Const.SENSOR_LIST → kind ∈ ["Accel"; "Gyro"] →
  Forall2 (λ f loc, list_index (_data_fields self) f = Ok loc)
          (Calibration.axis_cols kind sensor) locs →
  rotated_row m locs row row' → other_columns_kept self row row'.
Proof.
  intros Hsensor Hkind Hlocs (picked & vals & _ & _ & ->).
  split; [apply length_assign_row|]. intros col f Hf Hout.
  apply assign_row_lookup_ne. intros Hcol.
  apply list_elem_of_lookup in Hcol as [j Hj].
  destruct (Forall2_lookup_r _ _ _ _ _ Hlocs Hj) as (f' & Hf' & Hidx).
  apply list_index_Ok in Hidx as [Hidx _].
  assert (f' = f) as -> by congruence.
  apply Hout, (axis_cols_rotated kind sensor); [done..|].
  by eapply list_elem_of_lookup_2.
Qed.

Lemma dict_get_elem_of {V} (d : dict V) key v :
  dict_get d key = Some v → (key, v) ∈ d.
Proof.
  unfold dict_get. intros Hget.
  destruct (list_find (λ kv, kv.1 = key) d) as [[i [k v']]|] eqn:Hfind; [|done].
  apply list_find_Some in Hfind as (Hi & Hk & _). cbn in Hget, Hk.
  injection Hget as ->. subst k. by eapply list_elem_of_lookup_2.
Qed.

Lemma store_related_laid_out (R : relation (list float)) s0 s :
  store_laid_out self s0 → store_related self R s0 s → store_laid_out self s.
Proof.
  intros Hlaid Hrel sub arr Harr.
  destruct (Hlaid sub arr Harr) as (n & k & d0 & Hsh & Hd0 & Hlen0).
  destruct (Hrel sub arr Harr) as (d0' & d & Hd0' & Hd & Hlen & _).
  exists n, k, d. split; [done|]. split; [done|]. congruence.
Qed.
End calibration_frame.

(** X13: on a store that is laid out, [cali_via_gravity] - over any list
    of subjects, with any calibration matrices, whether it returns or
    raises - leaves the store laid out, every array with its buffer length,
    and changes no value in a column other than the [Accel] and [Gyro]
    columns of the three axes of the sensors of [SENSOR_LIST]. *)
Theorem cali_via_gravity_rotates_its_columns_only {St : Type}
    {static : StaticCalibration} (self : BaseModel) (subjects : list string)
    (s : state St) :
  store_laid_out self s →
  let s' := (Calibration.cali_via_gravity self subjects s).2 in
  store_laid_out self s'
  ∧ ∀ sub arr, _data_all_sub self !! sub = Some arr →
      Forall2 (λ row row',
                 length row' = length row
                 ∧ ∀ col f, _data_fields self !! col = Some f →
                     f ∉ Calibration.rotated_fields → row' !! col = row !! col)
              (samples self s arr) (samples self s' arr).
Proof.
  intros Hlaid s'.
  assert (store_related self (other_columns_kept self) s s') as Hrel.
  { apply store_related_cali_via_gravity; [apply _|done|].
    intros subject transform_mat_dict sensor m kind locs row row' _ _
      Hsensor Hkind Hlocs _.
    by apply (rotated_row_other_columns self m kind sensor). }
  split; [by eapply store_related_laid_out|].
  intros sub arr Harr. by destruct (Hrel sub arr Harr) as (? & ? & _ & _ & _ & ?).
Qed.

(** X14: when the matrices of [get_static_calibration] have no [nan] and
    no infinite entry, [cali_via_gravity] keeps the padding: a sample of a
    stored array that is zero in every column is still zero in every column
    afterwards, whether the calibration returns or raises. *)
Theorem cali_via_gravity_keeps_padding {St : Type}
    {static : StaticCalibration} (self : BaseModel) (subjects : list string)
    (s : state St) :
  store_laid_out self s →
  (∀ subject transform_mat_dict sensor m,
     get_static_calibration subject = Ok transform_mat_dict →
     dict_get transform_mat_dict sensor = Some m → finite_mat m) →
  let s' := (Calibration.cali_via_gravity self subjects s).2 in
  ∀ sub arr, _data_all_sub self !! sub = Some arr →
    Forall2 (λ row row', Kam.is_padding row = true → Kam.is_padding row' = true)
            (samples self s arr) (samples self s' arr).
Proof.
  intros Hlaid Hfinite s'.
  assert (store_related self padding_kept s s') as Hrel.
  { apply store_related_cali_via_gravity; [apply _|done|].
    intros subject transform_mat_dict sensor m kind locs row row' Hcal Hm
      _ _ _ _ Hrot Hpad.
    apply (rotated_row_padding m locs row row'); [by eapply Hfinite|done..]. }
  intros sub arr Harr. by destruct (Hrel sub arr Harr) as (? & ? & _ & _ & _ & ?).
Qed.

Lemma calibration_example_laid_out :
  store_laid_out CalibrationExample.self CalibrationExample.loaded.
Proof.
  intros sub arr Harr. cbn in Harr.
  apply lookup_insert_Some in Harr as [[_ <-]|[_ Harr]];
    [|by rewrite lookup_empty in Harr].
  exists 1, 2, CalibrationExample.s1_values. repeat split; vm_compute; reflexivity.
Qed.

(** The example: the accelerometer and the gyroscope of every sensor are
    turned by a quarter, the magnetometer and [KAM] are what they were. *)
Lemma cali_via_gravity_rotates_its_columns_only_witness :
  let s' := (Calibration.cali_via_gravity (static := CalibrationExample.static)
               CalibrationExample.self ["s1"] CalibrationExample.loaded).2 in
  take 9 <$> heap s' !! 0 = Some [-2; 1; 3;  -5; 4; 6;  7; 8; 9]%float
  ∧ (heap s' !! 0) ≫= (.!! 104) = Some 105%float
  ∧ store_laid_out CalibrationExample.self s'.
Proof.
  cbv zeta. split; [vm_compute; reflexivity|]. split; [vm_compute; reflexivity|].
  exact (proj1 (cali_via_gravity_rotates_its_columns_only
                  (static := CalibrationExample.static) CalibrationExample.self
                  ["s1"] CalibrationExample.loaded calibration_example_laid_out)).
Defined.

(** The example: its second sample is padding before and after. *)
Lemma cali_via_gravity_keeps_padding_witness :
  let s' := (Calibration.cali_via_gravity (static := CalibrationExample.static)
               CalibrationExample.self ["s1"] CalibrationExample.loaded).2 in
  map Kam.is_padding
      (samples CalibrationExample.self CalibrationExample.loaded (NdArray 0 [1; 2; 105]))
  = [false; true]
  ∧ Forall2 (λ row row', Kam.is_padding row = true → Kam.is_padding row' = true)
      (samples CalibrationExample.self CalibrationExample.loaded (NdArray 0 [1; 2; 105]))
      (samples CalibrationExample.self s' (NdArray 0 [1; 2; 105])).
Proof.
  cbv zeta. split; [vm_compute; reflexivity|].
  apply (cali_via_gravity_keeps_padding (static := CalibrationExample.static)
           CalibrationExample.self ["s1"] CalibrationExample.loaded
           calibration_example_laid_out) with (sub := "s1"); [|reflexivity].
  intros subject transform_mat_dict sensor m [= <-] Hm.
  apply dict_get_elem_of in Hm.
  assert (m = CalibrationExample.quarter_turn) as -> by set_solver.
  repeat constructor.
Defined.

(** X15: the columns [cali_via_gravity] looks up are columns of
    [const.IMU_DATA_FIELDS]: for every sensor of [SENSOR_LIST], ['Accel'] and
    ['Gyro'] followed by ['X_'], ['Y_'] or ['Z_'] and the sensor is the name
    [extract_imu_fields] forms from the field and the sensor. So on data
    whose fields include [IMU_DATA_FIELDS] the column lookups of the
    calibration succeed. *)
Theorem cali_via_gravity_finds_the_imu_columns (self : BaseModel)
    (kind sensor : string) :
  Const.IMU_DATA_FIELDS ⊆ _data_fields self →
  sensor ∈ Const.SENSOR_LIST → kind ∈ ["Accel"; "Gyro"] →
  Calibration.axis_cols kind sensor ⊆ Const.IMU_DATA_FIELDS
  ∧ ∃ col_locs,
      for_each (list_index (_data_fields self)) (Calibration.axis_cols kind sensor)
      = Ok col_locs
      ∧ Forall2 (λ f loc, _data_fields self !! loc = Some f)
                (Calibration.axis_cols kind sensor) col_locs.
Proof.
  intros Hfields Hsensor Hkind.
  assert (Calibration.axis_cols kind sensor ⊆ Const.IMU_DATA_FIELDS) as Hcols.
  { intros f Hf. unfold Const.IMU_DATA_FIELDS, Const.extract_imu_fields.
    apply list_elem_of_In, in_flat_map. exists sensor.
    split; [by apply list_elem_of_In|]. apply list_elem_of_In.
    unfold Calibration.axis_cols in Hf.
    apply list_elem_of_fmap in Hf as (axis & -> & Haxis).
    apply list_elem_of_fmap.
    assert (kind = "Accel" ∨ kind = "Gyro") as [-> | ->] by set_solver;
      (assert (axis = "X_" ∨ axis = "Y_" ∨ axis = "Z_") as [-> | [-> | ->]]
         by set_solver);
      [exists "AccelX"|exists "AccelY"|exists "AccelZ"
      |exists "GyroX"|exists "GyroY"|exists "GyroZ"];
      (split; [reflexivity|unfold Const.IMU_FIELDS; set_solver]). }
  split; [done|].
  pose proof (for_each_list_index (_data_fields self)
                (Calibration.axis_cols kind sensor)) as Hlocs.
  destruct (for_each _ (Calibration.axis_cols kind sensor)) as [col_locs|e].
  - exists col_locs. split; [done|].
    eapply Forall2_impl; [exact Hlocs|]. intros f loc Hloc.
    by apply list_index_Ok in Hloc as [? _].
  - destruct Hlocs as [_ (f & Hf & Hout)]. destruct Hout. by apply Hfields, Hcols.
Qed.

(** The data fields of the example and the right shank. *)
Lemma cali_via_gravity_finds_the_imu_columns_witness :
  for_each (list_index (_data_fields CalibrationExample.self))
           (Calibration.axis_cols "Gyro" "R_SHANK")
  = Ok [29; 30; 31]
  ∧ Calibration.axis_cols "Gyro" "R_SHANK" ⊆ Const.IMU_DATA_FIELDS.
Proof.
  split; [vm_compute; reflexivity|].
  refine (proj1 (cali_via_gravity_finds_the_imu_columns CalibrationExample.self
                   "Gyro" "R_SHANK" _ _ _)).
  - intros f Hf. cbn [_data_fields CalibrationExample.self].
    apply elem_of_app. by left.
  - unfold Const.SENSOR_LIST. set_solver.
  - set_solver.
Defined.

(** ** Step lengths *)

Section step_len.
Context {St : Type}.
Implicit Types (s : state St).

Lemma chunks_map {A B} (f : A → B) c n (l : list A) :
  np.chunks c n (map f l) = map (map f) (np.chunks c n l).
Proof.
  revert l. induction n as [|n IH]; intros l; [done|].
  cbn [np.chunks map].
  change (map f) with (fmap (M := list) f).
  by rewrite <-fmap_take, <-fmap_drop, IH.
Qed.

Lemma column_values (rows : list (list float)) col c :
  Forall (λ row, length row = c) rows → col < c →
  for_each (λ row, or_raise IndexError (row !! col)) rows
  = Ok (map (λ row, default 0%float (row !! col)) rows).
Proof.
  intros Hrows Hcol. induction Hrows as [|row rows Hrow _ IH]; [done|].
  cbn [for_each map]. rewrite IH.
  destruct (lookup_lt_is_Some_2 row col) as [x Hx]; [lia|].
  by rewrite Hx.
Qed.

Lemma field_column_run (arr : ndarray) col s d n k c :
  heap s !! buf arr = Some d → shape arr = [n; k; c] → length d = n * k * c →
  col < c →
  Kam.field_column arr col s
  = (Ok (map (map (λ row, default 0%float (row !! col))) (steps_of n k c d)), s).
Proof.
  intros Hd Hsh Hlen Hcol. unfold Kam.field_column. rewrite Hsh, M_bind_run.
  unfold Kam.load. rewrite Hd. cbn [or_raise]. rewrite M_bind_run.
  unfold lift. rewrite (column_values _ col c) by
    (by (apply Forall_length_chunks; lia) || done).
  by rewrite chunks_map.
Qed.

Lemma count_not_padding (step : list (list float)) col :
  length (filter (λ z, negb z = true)
            (map (λ x, (x =? 0)%float)
                 (map (λ row, default 0%float (row !! col)) step)))
  = length (filter (λ row, (default 0 (row !! col) =? 0)%float = false) step).
Proof.
  induction step as [|row step IH]; [done|].
  cbn [map]. rewrite !filter_cons.
  destruct (default 0%float (row !! col) =? 0)%float eqn:Hz; cbn [negb].
  - rewrite decide_False, decide_False by done. done.
  - rewrite decide_True, decide_True by done. cbn [length]. by rewrite IH.
Qed.

Lemma length_filter_le {A} (P Q : A → Prop) `{!∀ x, Decision (P x)}
    `{!∀ x, Decision (Q x)} (l : list A) :
  (∀ x, x ∈ l → P x → Q x) → length (filter P l) ≤ length (filter Q l).
Proof.
  induction l as [|x l IH]; intros HPQ; [done|]. rewrite !filter_cons.
  assert (length (filter P l) ≤ length (filter Q l)) as Hl.
  { apply IH. intros y Hy. apply HPQ. by right. }
  destruct (decide (P x)) as [HP|HP].
  - rewrite decide_True by (apply HPQ; [by left|done]). cbn [length]. lia.
  - destruct (decide (Q x)); cbn [length]; lia.
Qed.
End step_len.

(** X16: for a group array that is laid out and a feature column it has,
    [_get_step_len] returns, without touching the state, one length per
    step: the number of samples of the step whose feature is not zero. A
    padding sample is never counted, so the length of a step is at most the
    number of its samples that are not padding; it is smaller when a sample
    that is not padding has a zero in the feature column. A group that is
    not in [data] makes it raise [KeyError]. *)
Theorem get_step_len_counts_no_padding {St : Type} (data : dict ndarray)
    (input_cate : string) (feature_col_num : nat) (s : state St)
    (arr : ndarray) (d : list float) (n k c : nat) :
  (dict_get data input_cate = None →
   Tian._get_step_len data input_cate feature_col_num s = (Raise KeyError, s))
  ∧ (dict_get data input_cate = Some arr →
     heap s !! buf arr = Some d → shape arr = [n; k; c] →
     length d = n * k * c → feature_col_num < c →
     ∃ lens,
       Tian._get_step_len data input_cate feature_col_num s = (Ok lens, s)
       ∧ Forall2 (λ step len,
            len = length (filter (λ row, (default 0 (row !! feature_col_num) =? 0)%float
                                         = false) step)
            ∧ len ≤ length (filter (λ row, Kam.is_padding row = false) step)
            ∧ length (filter (λ row, Kam.is_padding row = false) step) ≤ k)
           (steps_of n k c d) lens).
Proof.
  split.
  - intros Hnone. unfold Tian._get_step_len. rewrite M_bind_run.
    unfold lift. by rewrite Hnone.
  - intros Harr Hd Hsh Hlen Hcol. unfold Tian._get_step_len.
    rewrite M_bind_run. unfold lift. rewrite Harr. cbn [or_raise].
    rewrite M_bind_run, (field_column_run arr _ s d n k c) by done.
    eexists. split; [reflexivity|].
    assert (Forall (λ step, length step = k
                            ∧ Forall (λ row, length row = c) step)
                   (steps_of n k c d)) as Hsteps.
    { unfold steps_of.
      assert (Forall (λ row, length row = c) (np.chunks c (n * k) d)) as Hrows
        by (apply Forall_length_chunks; lia).
      assert (length (np.chunks c (n * k) d) = n * k) as Hnk
        by apply length_chunks.
      revert Hrows Hnk. generalize (np.chunks c (n * k) d). clear.
      induction n as [|n IH]; intros rows Hrows Hnk; [constructor|].
      cbn [np.chunks]. constructor.
      - split; [rewrite length_take; lia|by apply Forall_take].
      - apply IH; [by apply Forall_drop|rewrite length_drop; lia]. }
    rewrite !map_map. apply Forall2_fmap_r, Forall_Forall2_diag.
    eapply Forall_impl; [exact Hsteps|]. intros step [Hk Hrows].
    unfold compose. cbn beta. rewrite count_not_padding. split; [done|]. split.
    + apply length_filter_le. intros row Hrow Hnz.
      destruct (Kam.is_padding row) eqn:Hpad; [|done].
      apply is_padding_Forall in Hpad. rewrite Forall_forall in Hpad.
      rewrite Forall_forall in Hrows.
      destruct (lookup_lt_is_Some_2 row feature_col_num) as [x Hx];
        [rewrite (Hrows row Hrow); lia|].
      rewrite Hx in Hnz. cbn in Hnz.
      rewrite (Hpad x) in Hnz; [done|]. by eapply list_elem_of_lookup_2.
    + rewrite <-Hk. apply length_filter.
Qed.

(** The padded group of the example, one step of four samples: the first
    column counts the three samples that are not padding. *)
Lemma get_step_len_counts_no_padding_witness :
  Tian._get_step_len [("main_input_acc", NdArray 0 [1; 4; 2])] "main_input_acc" 0
                     Example.padded
  = (Ok [3], Example.padded).
Proof.
  destruct (proj2 (get_step_len_counts_no_padding
                     [("main_input_acc", NdArray 0 [1; 4; 2])] "main_input_acc" 0
                     Example.padded (NdArray 0 [1; 4; 2])
                     [2; 4;  0; 0;  6; 8;  4; 4]%float 1 4 2)
                  eq_refl eq_refl eq_refl eq_refl ltac:(lia))
    as (lens & Hrun & _).
  rewrite Hrun. f_equal. vm_compute in Hrun. by injection Hrun as <-.
Defined.

(** ** The subjects of a cross-validation *)

Section all_subjects.
Context {St Mdl : Type}.
Context {scaler : Scaler St} {model : Model St Mdl}.
Context {metrics : Metrics} {shuffler : Shuffle}.
Context (self : BaseModel).

Local Abbreviation returns m Q := (scalars_kept (λ _ _ : gmap string St, True) m Q).

Local Instance any_scalars' : PreOrder (λ _ _ : gmap string St, True).
Proof. by split. Qed.

Lemma concat_cv_test_folds sub_ids k :
  1 ≤ k → concat (map fst (cv_folds sub_ids k)) = sub_ids.
Proof.
  intros Hk. unfold cv_folds. rewrite map_map. cbn [fst].
  apply concat_test_folds.
  destruct sub_ids as [|x sub_ids]; [simpl; lia|].
  pose proof (folder_num_spec (length (x :: sub_ids)) k) as Hspec.
  cbn [length] in *. lia.
Qed.

Lemma returns_cross_validation sub_ids test_set_sub_num :
  returns (Kam.cross_validation self sub_ids test_set_sub_num)
          (λ tables, map (λ r, (subject r, (output r, field r))) tables.1
                     = flat_map (λ sub, map (λ key, (Some sub, key))
                                            (output_fields self))
                                sub_ids).
Proof.
  unfold Kam.cross_validation. case_decide as Hk; [apply (scalars_kept_raise _)|].
  eapply (scalars_kept_bind _ _ _
            (λ results, map (λ r, (subject r, (output r, field r))) results
                        = flat_map (λ sub, map (λ key, (Some sub, key))
                                               (output_fields self))
                                   sub_ids)).
  { unfold Kam.run_folds. eapply (scalars_kept_bind _).
    - apply (scalars_kept_mapM _ _ _
               (λ fold recs, map (λ r, (subject r, (output r, field r))) recs
                             = flat_map (λ sub, map (λ key, (Some sub, key))
                                                    (output_fields self))
                                        fold.1)).
      intros [test train] _. cbn [fst].
      unfold Kam.preprocess_train_evaluation.
      eapply (scalars_kept_bind _); [apply returns_any|]. intros m _.
      apply returns_model_evaluation.
    - intros per_fold Hper. apply (scalars_kept_ret _).
      assert (flat_map (λ sub, map (λ key, (Some sub, key)) (output_fields self))
                       sub_ids
              = flat_map (λ sub, map (λ key, (Some sub, key)) (output_fields self))
                         (concat (map fst (cv_folds sub_ids test_set_sub_num))))
        as -> by (by rewrite concat_cv_test_folds by lia).
      induction Hper as [|fold recs folds per_fold Hrecs _ IH]; [done|].
      cbn [concat map]. rewrite map_app, flat_map_app. by rewrite Hrecs, IH. }
  intros results Hresults.
  eapply (scalars_kept_bind _); [apply returns_any|]. intros means _.
  by apply (scalars_kept_ret _).
Qed.
End all_subjects.

(** X17: when [cross_validation] returns, the records it collected are
    those of the subjects of [sub_ids], in the order of the list and as
    often as the list names them: every subject with one record per field
    of every output group, in the order of [_y_fields]. No subject is
    scored in a fold in which it is not a test subject. *)
Theorem cross_validation_scores_every_subject {St Mdl : Type}
    {scaler : Scaler St} {model : Model St Mdl} {metrics : Metrics}
    {shuffler : Shuffle} (self : BaseModel) (sub_ids : list string)
    (test_set_sub_num : nat) (s : state St) (results : list score)
    (mean_results : list mean_score) (s' : state St) :
  Kam.cross_validation self sub_ids test_set_sub_num s
  = (Ok (results, mean_results), s') →
  map (λ r, (subject r, (output r, field r))) results
  = flat_map (λ sub, map (λ key, (Some sub, key)) (output_fields self)) sub_ids.
Proof.
  intros Hrun.
  destruct (returns_cross_validation self sub_ids test_set_sub_num s) as [_ Hkeys].
  by rewrite Hrun in Hkeys.
Qed.

(** The cross-validation of the two subjects of the example. *)
Lemma cross_validation_scores_every_subject_witness :
  ∃ results mean_results s',
    Kam.cross_validation (model := Example.model) Example.self ["s1"; "s2"] 1
                         Example.loaded
    = (Ok (results, mean_results), s')
    ∧ map (λ r, (subject r, (output r, field r))) results
      = [(Some "s1", ("output", "KAM")); (Some "s2", ("output", "KAM"))].
Proof.
  let run := eval vm_compute in
    (Kam.cross_validation (model := Example.model) Example.self ["s1"; "s2"] 1
                          Example.loaded) in
  match run with
  | (Ok (?results, ?mean_results), ?s') => exists results, mean_results, s'
  end.
  match goal with
  | |- ?run ∧ _ => assert (Hrun : run) by (vm_compute; reflexivity)
  end.
  split; [exact Hrun|].
  exact (cross_validation_scores_every_subject _ _ _ _ _ _ _ Hrun).
Defined.

Section sorted_train_subjects.

Lemma string_lt_spec a b :
  string_lt a b ↔ OrderedTypeEx.String_as_OT.lt a b.
Proof.
  unfold string_lt, String.ltb. rewrite <-OrderedTypeEx.String_as_OT.cmp_lt.
  unfold OrderedTypeEx.String_as_OT.cmp. by destruct (String.compare a b).
Qed.

Global Instance string_lt_trans : Transitive string_lt.
Proof.
  intros a b c. rewrite !string_lt_spec.
  apply OrderedTypeEx.String_as_OT.lt_trans.
Qed.

Lemma string_lt_irrefl a : ¬ string_lt a a.
Proof.
  rewrite string_lt_spec. intros Hlt.
  by apply OrderedTypeEx.String_as_OT.lt_not_eq in Hlt.
Qed.

Lemma string_lt_total a b : a ≠ b → ¬ string_lt a b → string_lt b a.
Proof.
  unfold string_lt, String.ltb. intros Hne Hlt.
  pose proof (OrderedTypeEx.String_as_OT.cmp_antisym b a) as Hanti.
  pose proof (OrderedTypeEx.String_as_OT.cmp_eq a b) as Heq.
  unfold OrderedTypeEx.String_as_OT.cmp in *.
  destruct (String.compare a b); [by destruct Hne; apply Heq|done|].
  by rewrite Hanti.
Qed.

Lemma insert_unique_sorted x l :
  StronglySorted string_lt l → StronglySorted string_lt (insert_unique x l).
Proof.
  induction 1 as [|y l Hl IH Hy]; [repeat constructor|].
  cbn [insert_unique]. destruct (String.eqb_spec x y) as [->|Hne];
    [by constructor|].
  destruct (String.ltb x y) eqn:Hlt.
  - constructor; [by constructor|]. constructor; [done|].
    eapply Forall_impl; [exact Hy|]. intros z Hz. by etrans.
  - constructor; [done|]. apply Forall_forall. intros z Hz.
    apply elem_of_insert_unique in Hz as [->|Hz].
    + apply string_lt_total; [done|]. unfold string_lt. by rewrite Hlt.
    + rewrite Forall_forall in Hy. by apply Hy.
Qed.

Lemma np_unique_sorted l : StronglySorted string_lt (np_unique l).
Proof.
  induction l as [|x l IH]; [constructor|]. by apply insert_unique_sorted.
Qed.

Lemma filter_sorted (P : string → Prop) `{!∀ x, Decision (P x)} l :
  StronglySorted string_lt l → StronglySorted string_lt (filter P l).
Proof.
  induction 1 as [|y l Hl IH Hy]; [constructor|]. rewrite filter_cons.
  destruct (decide (P y)); [|done]. constructor; [done|].
  apply Forall_forall. intros z Hz. apply list_elem_of_filter in Hz as [_ Hz].
  rewrite Forall_forall in Hy. by apply Hy.
Qed.

Lemma sorted_NoDup l : StronglySorted string_lt l → NoDup l.
Proof.
  induction 1 as [|y l Hl IH Hy]; constructor; [|done].
  intros Hin. rewrite Forall_forall in Hy. by apply (string_lt_irrefl y), Hy.
Qed.

Lemma setdiff1d_sorted ar1 ar2 : StronglySorted string_lt (setdiff1d ar1 ar2).
Proof. apply filter_sorted, np_unique_sorted. Qed.
End sorted_train_subjects.

(** X18: the train subjects of a fold of [cross_validation] are in
    increasing order of their names and without repetition, whatever the
    order of [sub_ids] and however often it names a subject; they are the
    same list for every list of subjects with the same members. *)
Theorem train_subjects_are_sorted (sub_ids : list string)
    (test_set_sub_num i : nat) (test_sub_ids train_sub_ids : list string) :
  cv_folds sub_ids test_set_sub_num !! i = Some (test_sub_ids, train_sub_ids) →
  StronglySorted string_lt train_sub_ids
  ∧ NoDup train_sub_ids
  ∧ ∀ sub_ids', (∀ sub, sub ∈ sub_ids' ↔ sub ∈ sub_ids) →
      setdiff1d sub_ids' test_sub_ids = train_sub_ids.
Proof.
  intros Hfold. apply cv_folds_lookup in Hfold as (_ & -> & ->).
  unfold train_fold. split; [apply setdiff1d_sorted|].
  split; [apply sorted_NoDup, setdiff1d_sorted|].
  intros sub_ids' Hsame.
  apply (StronglySorted_unique_strong string_lt); try apply setdiff1d_sorted.
  - intros x1 x2 _ _ H12 H21. destruct (string_lt_irrefl x1). by etrans.
  - apply NoDup_Permutation; try apply sorted_NoDup, setdiff1d_sorted.
    intros x. rewrite !elem_of_setdiff1d. by rewrite Hsame.
Qed.

(** Three subjects listed out of order, one of them twice. *)
Lemma train_subjects_are_sorted_witness :
  cv_folds ["s5"; "s2"; "s4"; "s2"] 1 !! 0 = Some (["s5"], ["s2"; "s4"])
  ∧ setdiff1d ["s4"; "s5"; "s2"] ["s5"] = ["s2"; "s4"].
Proof.
  split; [reflexivity|].
  refine (proj2 (proj2 (train_subjects_are_sorted ["s5"; "s2"; "s4"; "s2"] 1 0
                          ["s5"] ["s2"; "s4"] eq_refl)) ["s4"; "s5"; "s2"] _).
  intros sub. set_solver.
Defined.

(** ** Groups without a scaler *)

(** X19: [normalize_data] looks for the scaler of a group after it has
    copied the group's array and marked the padding of the copy. A group
    without a scaler makes it raise [KeyError], with any method and before
    any other group is looked at, leaving the marked copy behind and
    everything else as it was. *)
Theorem normalize_data_needs_a_scaler {St : Type} {scaler : Scaler St}
    (m : method) (mode : scalar_mode) (input_name : string) (arr : ndarray)
    (data : dict ndarray) (s : state St) (d : list float) (n k c : nat) :
  heap s !! buf arr = Some d → shape arr = [n; k; c] →
  Kam.target_cols mode c ≠ 0 →
  _data_scalar s !! input_name = None →
  Kam.normalize_data ((input_name, arr) :: data) m mode s
  = (Raise KeyError,
     State (heap s ++ [concat (Kam.mask_padding (np.chunks c (n * k) d))])
           (_data_scalar s)).
Proof.
  intros Hd Hsh Htc Hname. unfold Kam.normalize_data.
  rewrite mapM_cons, !M_bind_run.
  assert (Kam.normalize_one m mode input_name arr s
          = (Raise KeyError,
             State (heap s ++ [concat (Kam.mask_padding (np.chunks c (n * k) d))])
                   (_data_scalar s))) as ->; [|done].
  unfold Kam.normalize_one. rewrite M_bind_run.
  assert (Kam.copy arr s
          = (Ok (NdArray (length (heap s)) (shape arr)),
             State (heap s ++ [d]) (_data_scalar s))) as ->.
  { apply copy_Ok. by exists d. }
  cbn [shape]. rewrite Hsh, M_bind_run. unfold Kam.load at 1. cbn [heap buf].
  rewrite lookup_app_r, Nat.sub_diag by done. cbn [lookup list_lookup or_raise].
  rewrite M_bind_run. unfold Kam.store at 1. cbn [heap buf _data_scalar].
  rewrite insert_last, M_bind_run. unfold lift at 1, Kam.reshape_rows.
  cbn [shape buf]. rewrite decide_False by done.
  destruct (size_div_target n k c mode Htc) as [Hmod _].
  rewrite decide_True by done. rewrite M_bind_run.
  unfold Kam.call_scalar. rewrite M_bind_run. unfold Kam.get_scalar at 1.
  cbn [_data_scalar]. by rewrite Hname.
Qed.

(** The weights of the example have no scaler. *)
Lemma normalize_data_needs_a_scaler_witness :
  Kam.normalize_data [("phase", Example.acc)] transform by_each_column
                     Example.padded
  = (Raise KeyError,
     State [[2; 4;  0; 0;  6; 8;  4; 4]; [2; 4;  np.nan; np.nan;  6; 8;  4; 4]]%float
           (_data_scalar Example.padded)).
Proof.
  apply (normalize_data_needs_a_scaler transform by_each_column "phase"
           Example.acc [] Example.padded [2; 4;  0; 0;  6; 8;  4; 4]%float 2 2 2);
    try reflexivity.
  cbn. lia.
Defined.

(** ** The training data *)

Section aligned.
Context {St : Type} {scaler : Scaler St} {shuffler : Shuffle}.
Context (self : BaseModel).
Implicit Types (s : state St).

Lemma extracted_mono d n k (h h' : list (list float)) kf kv :
  (∀ l v, h !! l = Some v → h' !! l = Some v) →
  extracted self d n k h kf kv → extracted self d n k h' kf kv.
Proof.
  intros Hh (Hname & Hshape & v & Hv & Hrest). split; [done|]. split; [done|].
  exists v. split; [by apply Hh|done].
Qed.

Lemma grows_lookup_Some s s' l v :
  grows s s' → heap s !! l = Some v → heap s' !! l = Some v.
Proof.
  intros Hg Hl. rewrite (grows_lookup s s'); [done|done|].
  by eapply lookup_lt_Some.
Qed.

Lemma length_concat_loaded (arrays : list ndarray) s ns ds k c :
  Forall (λ arr, ∃ n k' d, shape arr = [n; k'; c] ∧ heap s !! buf arr = Some d
                           ∧ length d = n * k' * c) arrays →
  Forall2 (λ a n, match shape a with
                  | n' :: rest' =>
                      if decide (rest' = [k; c]) then Ok n' else Raise ValueError
                  | [] => Raise ValueError
                  end = Ok n) arrays ns →
  Forall2 (λ arr d, heap s !! buf arr = Some d) arrays ds →
  length (concat ds) = sum_list ns * k * c.
Proof.
  intros Hwf Hns. revert ds.
  induction Hns as [|a n arrays ns Hn _ IH]; intros ds Hds.
  - by apply Forall2_nil_inv_l in Hds as ->.
  - apply Forall2_cons_inv_l in Hds as (d & ds' & Hd & Hds & ->).
    apply Forall_cons in Hwf as [(n' & k' & d' & Hsh & Hd' & Hlen) Hwf].
    rewrite Hsh in Hn. case_decide as Hk; [|done].
    injection Hn as ->. injection Hk as ->.
    assert (d' = d) as -> by congruence.
    cbn [concat sum_list sum_list_with]. rewrite length_app, (IH Hwf ds' Hds), Hlen.
    by rewrite !Nat.mul_add_distr_r.
Qed.

Lemma concatenate_run (arrays : list ndarray) s joined sa :
  Forall (λ arr, ∃ n k d, shape arr = [n; k; length (_data_fields self)]
                          ∧ heap s !! buf arr = Some d
                          ∧ length d = n * k * length (_data_fields self)) arrays →
  Kam.concatenate arrays s = (Ok joined, sa) →
  ∃ ds n k,
    Forall2 (λ arr d, heap s !! buf arr = Some d) arrays ds
    ∧ joined = NdArray (length (heap s)) [n; k; length (_data_fields self)]
    ∧ sa = State (heap s ++ [concat ds]) (_data_scalar s)
    ∧ length (concat ds) = n * k * length (_data_fields self).
Proof.
  intros Hwf H. unfold Kam.concatenate in H.
  destruct arrays as [|a0 arrays]; [done|].
  pose proof Hwf as Hwf0.
  apply Forall_cons in Hwf0 as [(n0 & k & d0 & Hsh0 & _ & _) _].
  rewrite Hsh0 in H.
  apply M_bind_Ok in H as (ns & t & Hns & H). apply lift_Ok in Hns as [Hns ->].
  apply M_bind_Ok in H as (ds & t & Hds & H). apply mapM_load_Ok in Hds as [-> Hds].
  unfold Kam.alloc in H. injection H as <- <-.
  exists ds, (sum_list ns), k. split; [done|]. split; [done|]. split; [done|].
  apply for_each_Ok in Hns.
  by apply (length_concat_loaded (a0 :: arrays) s ns ds).
Qed.

Lemma shuffle_run joined s train_data sb d n k c :
  shape joined = [n; k; c] → heap s !! buf joined = Some d →
  length d = n * k * c →
  Kam.shuffle joined s = (Ok train_data, sb) →
  ∃ steps,
    Forall2 (λ i step, np.chunks (k * c) n d !! i = Some step)
            (shuffle_indices n) steps
    ∧ train_data = NdArray (length (heap s)) [length steps; k; c]
    ∧ sb = State (heap s ++ [concat steps]) (_data_scalar s)
    ∧ length (concat steps) = length steps * k * c.
Proof.
  intros Hsh Hd Hlen H. unfold Kam.shuffle in H. rewrite Hsh in H.
  apply M_bind_Ok in H as (d' & t & Hd' & H). apply load_Ok in Hd' as [Hd' ->].
  assert (d' = d) as -> by congruence.
  assert (np.size [k; c] = k * c) as Hsize by (unfold np.size; cbn; lia).
  rewrite Hsize in H.
  apply M_bind_Ok in H as (steps & t & Hsteps & H).
  apply lift_Ok in Hsteps as [Hsteps ->].
  unfold Kam.alloc in H. injection H as <- <-.
  apply for_each_Ok in Hsteps.
  assert (Forall2 (λ i step, np.chunks (k * c) n d !! i = Some step)
                  (shuffle_indices n) steps) as Hlook.
  { eapply Forall2_impl; [exact Hsteps|]. intros i step Hi. cbn beta in Hi.
    by destruct (np.chunks (k * c) n d !! i); [injection Hi as ->|]. }
  exists steps. split; [done|]. split; [done|]. split; [done|].
  rewrite <-Nat.mul_assoc. apply length_concat_rows.
  apply Forall_forall. intros step Hstep.
  apply list_elem_of_lookup in Hstep as [j Hj].
  destruct (Forall2_lookup_r _ _ _ _ _ Hlook Hj) as (i & _ & Hi).
  pose proof (Forall_length_chunks (k * c) n d) as Hall.
  rewrite Forall_forall in Hall. apply Hall; [lia|].
  by eapply list_elem_of_lookup_2.
Qed.
End aligned.

Lemma example_laid_out : store_laid_out Example.self Example.loaded.
Proof.
  intros sub arr Harr. cbn in Harr.
  apply lookup_insert_Some in Harr as [[_ <-]|[_ Harr]].
  { exists 2, 2, Example.s1_values. repeat split; vm_compute; reflexivity. }
  apply lookup_insert_Some in Harr as [[_ <-]|[_ Harr]];
    [|by rewrite lookup_empty in Harr].
  exists 1, 2, Example.s2_values. repeat split; vm_compute; reflexivity.
Qed.

(** X20: on a store whose arrays have one column per data field, the
    training inputs and outputs that [preprocess_and_train] hands to
    [train_model] are drawn from one array: the steps of the train
    subjects' arrays, joined in the order of [train_sub_ids] and put in the
    shuffled order. When the preparation has returned (after the scalers
    were fitted and the validation data extracted), sample [r] of every
    input group and sample [r] of every output group still hold the values
    of row [r] of that array: inputs and outputs stay aligned, step by step
    and sample by sample. *)
Theorem training_inputs_and_outputs_stay_aligned {St : Type}
    {scaler : Scaler St} {shuffler : Shuffle} (self : BaseModel)
    (train_sub_ids validate_sub_ids : list string) (s : state St)
    (c : train_call) (s' : state St) :
  store_laid_out self s →
  Kam.prepare_train_call self train_sub_ids validate_sub_ids s = (Ok c, s') →
  ∃ arrays ds n k steps,
    for_each (Kam.subject_data self) train_sub_ids = Ok arrays
    ∧ Forall2 (λ arr d, heap s !! buf arr = Some d) arrays ds
    ∧ length (concat ds) = n * k * length (_data_fields self)
    ∧ Forall2 (λ i step,
                 np.chunks (k * length (_data_fields self)) n (concat ds) !! i
                 = Some step)
              (shuffle_indices n) steps
    ∧ Forall2 (extracted self (concat steps) (length steps) k (heap s'))
              (_x_fields self) (x_train c)
    ∧ Forall2 (extracted self (concat steps) (length steps) k (heap s'))
              (_y_fields self) (y_train c).
Proof.
  intros Hstore Hrun.
  apply prepare_train_call_Ok in Hrun
    as (tl & joined & sa & td & sb & sx & sy & Htl & Hcat & Hsh & Hx & Hy & Hg & _).
  assert (Forall (λ arr, ∃ n k d, shape arr = [n; k; length (_data_fields self)]
                                  ∧ heap s !! buf arr = Some d
                                  ∧ length d = n * k * length (_data_fields self))
                 tl) as Hwf.
  { apply Forall_forall. intros arr Harr.
    destruct (for_each_elem_of _ _ _ _ Htl Harr) as (sub & _ & Hsub).
    unfold Kam.subject_data in Hsub.
    destruct (_data_all_sub self !! sub) as [arr'|] eqn:Harr'; [|done].
    injection Hsub as ->. by apply (Hstore sub). }
  destruct (concatenate_run self tl s joined sa Hwf Hcat)
    as (ds & n & k & Hds & -> & -> & Hlen).
  set (h := heap s ++ [concat ds]) in *.
  assert (heap (State h (_data_scalar s)) !! length (heap s) = Some (concat ds))
    as Hjoined.
  { cbn [heap]. unfold h. by rewrite lookup_app_r, Nat.sub_diag. }
  destruct (shuffle_run
              (NdArray (length (heap s)) [n; k; length (_data_fields self)])
              (State h (_data_scalar s)) td sb (concat ds) n k
              (length (_data_fields self)) eq_refl Hjoined Hlen Hsh)
    as (steps & Hsteps & -> & -> & Hslen).
  cbn [heap _data_scalar] in *.
  pose proof (get_raw_data_dict_run self
                (NdArray (length h) [length steps; k; length (_data_fields self)])
                (_x_fields self) (State (h ++ [concat steps]) (_data_scalar s))
                (concat steps) (length steps) k) as HX.
  rewrite Hx in HX. destruct HX as (_ & ext & Hext & HXout); [|done|done|].
  { cbn [heap buf]. by rewrite lookup_app_r, Nat.sub_diag. }
  cbn [heap] in Hext, HXout.
  pose proof (get_raw_data_dict_run self
                (NdArray (length h) [length steps; k; length (_data_fields self)])
                (_y_fields self) sx
                (concat steps) (length steps) k) as HY.
  rewrite Hy in HY. destruct HY as (_ & ext' & Hext' & HYout); [|done|done|].
  { rewrite Hext. cbn [buf]. rewrite <-app_assoc.
    by rewrite lookup_app_r, Nat.sub_diag. }
  exists tl, ds, n, k, steps.
  split; [done|]. split; [done|]. split; [done|]. split; [done|]. split.
  - eapply Forall2_impl; [exact HXout|]. intros kf kv.
    apply extracted_mono. intros l v Hl.
    apply (grows_lookup_Some sy s'); [done|].
    rewrite Hext', Hext. by apply lookup_app_l_Some.
  - eapply Forall2_impl; [exact HYout|]. intros kf kv.
    apply extracted_mono. intros l v Hl.
    apply (grows_lookup_Some sy s'); [done|]. by rewrite Hext'.
Qed.

(** The example, trained on its first subject and validated on the second:
    the input group holds the two accelerometer columns and the output
    group the [KAM] column of the same four samples, the second step
    first. *)
Lemma training_inputs_and_outputs_stay_aligned_witness :
  ∃ c s',
    Kam.prepare_train_call Example.self ["s1"] ["s2"] Example.loaded = (Ok c, s')
    ∧ contents s' (x_train c)
      = [("main_input_acc", ([2; 2; 2], Some [6; 8;  5; 4;  2; 4;  4; 6]%float))]
    ∧ contents s' (y_train c)
      = [("output", ([2; 2; 1], Some [3; 2;  1; 3]%float))]
    ∧ ∃ arrays ds n k steps,
        for_each (Kam.subject_data Example.self) ["s1"] = Ok arrays
        ∧ Forall2 (λ arr d, heap Example.loaded !! buf arr = Some d) arrays ds
        ∧ length (concat ds) = n * k * length (_data_fields Example.self)
        ∧ Forall2 (λ i step,
                     np.chunks (k * length (_data_fields Example.self)) n
                               (concat ds) !! i
                     = Some step)
                  (shuffle_indices n) steps
        ∧ Forall2 (extracted Example.self (concat steps) (length steps) k (heap s'))
                  (_x_fields Example.self) (x_train c)
        ∧ Forall2 (extracted Example.self (concat steps) (length steps) k (heap s'))
                  (_y_fields Example.self) (y_train c).
Proof.
  let run := eval vm_compute in
    (Kam.prepare_train_call Example.self ["s1"] ["s2"] Example.loaded) in
  match run with (Ok ?c, ?s') => exists c, s' end.
  match goal with
  | |- ?run ∧ _ => assert (Hrun : run) by (vm_compute; reflexivity)
  end.
  split; [exact Hrun|]. split; [vm_compute; reflexivity|].
  split; [vm_compute; reflexivity|].
  exact (training_inputs_and_outputs_stay_aligned Example.self ["s1"] ["s2"]
           Example.loaded _ _ example_laid_out Hrun).
Defined.

(** ** What a calibration does *)

Section rotation_rows.
Context (self : BaseModel).

Lemma elem_of_concat_2 {A} (ls : list (list A)) l x :
  l ∈ ls → x ∈ l → x ∈ concat ls.
Proof.
  intros Hl Hx. apply list_elem_of_In, in_concat. exists l.
  by split; apply list_elem_of_In.
Qed.

Lemma assign_row_lookup locs (row vals : list float) i loc x :
  NoDup locs → locs !! i = Some loc → vals !! i = Some x → loc < length row →
  Calibration.assign_row locs row vals !! loc = Some x.
Proof.
  unfold Calibration.assign_row. revert row vals i.
  induction locs as [|l0 locs IH]; intros row vals i Hnd Hloc Hx Hlt; [done|].
  destruct vals as [|v0 vals]; [done|].
  apply NoDup_cons in Hnd as [Hl0 Hnd]. cbn [zip zip_with foldl fst snd].
  destruct i as [|i]; cbn in Hloc, Hx.
  - injection Hloc as ->. injection Hx as ->.
    pose proof (assign_row_lookup_ne locs (<[loc:=x]> row) vals loc Hl0) as Hne.
    unfold Calibration.assign_row in Hne. rewrite Hne.
    by apply list_lookup_insert_eq.
  - apply (IH _ _ i); [done..|]. by rewrite length_insert.
Qed.

Lemma locs_NoDup (names : list string) (locs : list nat) :
  NoDup names →
  Forall2 (λ f loc, list_index (_data_fields self) f = Ok loc) names locs →
  NoDup locs.
Proof.
  intros Hnd Hlocs. apply NoDup_alt. intros i j loc Hi Hj.
  destruct (Forall2_lookup_r _ _ _ _ _ Hlocs Hi) as (f & Hf & Hidx).
  destruct (Forall2_lookup_r _ _ _ _ _ Hlocs Hj) as (f' & Hf' & Hidx').
  apply list_index_Ok in Hidx as [Hidx _].
  apply list_index_Ok in Hidx' as [Hidx' _].
  assert (f' = f) as -> by congruence.
  by eapply (proj1 (NoDup_alt names)).
Qed.

Lemma locs_named (names : list string) (locs : list nat) col f :
  Forall2 (λ f loc, list_index (_data_fields self) f = Ok loc) names locs →
  col ∈ locs → _data_fields self !! col = Some f → f ∈ names.
Proof.
  intros Hlocs Hcol Hf. apply list_elem_of_lookup in Hcol as [j Hj].
  destruct (Forall2_lookup_r _ _ _ _ _ Hlocs Hj) as (f' & Hf' & Hidx).
  apply list_index_Ok in Hidx as [Hidx _].
  assert (f' = f) as -> by congruence. by eapply list_elem_of_lookup_2.
Qed.

Lemma locs_functional (names : list string) (locs locs' : list nat) :
  Forall2 (λ f loc, list_index (_data_fields self) f = Ok loc) names locs →
  Forall2 (λ f loc, list_index (_data_fields self) f = Ok loc) names locs' →
  locs' = locs.
Proof.
  intros H. revert locs'. induction H as [|f loc names locs Hf _ IH]; intros locs' H'.
  - by apply Forall2_nil_inv_l in H'.
  - apply Forall2_cons_inv_l in H' as (loc' & locs'' & Hf' & H' & ->).
    f_equal; [congruence|by apply IH].
Qed.

Lemma matmul_length (m : mat3) picked vals :
  Calibration.matmul m picked = Ok vals → length picked = 3 ∧ length vals = 3.
Proof.
  destruct picked as [|x [|y [|z [|]]]]; try done.
  destruct m as [[[[a b] c] [[d e] f]] [[g h] i]]. by intros [= <-].
Qed.

Lemma rotated_row_rotations (m : mat3) names locs row row' :
  NoDup names →
  Forall2 (λ f loc, list_index (_data_fields self) f = Ok loc) names locs →
  rotated_row m locs row row' → rotations self [(m, names)] row row'.
Proof.
  intros Hnd Hlocs (picked & vals & Hpicked & Hmul & ->).
  split; [apply length_assign_row|]. split.
  - constructor; [|constructor]. exists locs, picked, vals. cbn [fst snd].
    split; [done|]. split; [done|]. split; [done|].
    destruct (matmul_length _ _ _ Hmul) as [Hp3 Hv3].
    apply Forall2_same_length_lookup_2.
    { rewrite Hv3, <-Hp3. by eapply Forall2_length. }
    intros i loc x Hloc Hx.
    apply (assign_row_lookup _ _ _ i); [by eapply locs_NoDup|done..|].
    destruct (Forall2_lookup_l _ _ _ _ _ Hpicked Hloc) as (y & _ & Hy).
    by eapply lookup_lt_Some.
  - intros col f Hf Hout. apply assign_row_lookup_ne. intros Hcol.
    apply Hout. cbn. rewrite app_nil_r. by eapply locs_named.
Qed.

Lemma rotations_nil row : rotations self [] row row.
Proof. split; [done|]. split; [constructor|done]. Qed.

Lemma rotated_by_frame (m : mat3) names row1 row1' row2 row2' :
  (∀ col f, _data_fields self !! col = Some f → f ∈ names →
            row2 !! col = row1 !! col) →
  (∀ col f, _data_fields self !! col = Some f → f ∈ names →
            row2' !! col = row1' !! col) →
  rotated_by self m names row1 row1' → rotated_by self m names row2 row2'.
Proof.
  intros Hrow Hrow' (locs & picked & vals & Hlocs & Hpicked & Hmul & Hvals).
  assert (∀ loc, loc ∈ locs → ∃ f, _data_fields self !! loc = Some f ∧ f ∈ names)
    as Hnamed.
  { intros loc Hloc. apply list_elem_of_lookup in Hloc as [j Hj].
    destruct (Forall2_lookup_r _ _ _ _ _ Hlocs Hj) as (f & Hf & Hidx).
    apply list_index_Ok in Hidx as [Hidx _]. exists f.
    split; [done|]. by eapply list_elem_of_lookup_2. }
  exists locs, picked, vals. split; [done|]. split; [|split; [done|]].
  - apply Forall2_same_length_lookup_2; [by eapply Forall2_length|].
    intros i loc x Hloc Hx.
    destruct (Hnamed loc) as (f & Hf & Hin); [by eapply list_elem_of_lookup_2|].
    rewrite (Hrow loc f Hf Hin).
    destruct (Forall2_lookup_l _ _ _ _ _ Hpicked Hloc) as (y & Hy & Hrowy).
    congruence.
  - apply Forall2_same_length_lookup_2; [by eapply Forall2_length|].
    intros i loc x Hloc Hx.
    destruct (Hnamed loc) as (f & Hf & Hin); [by eapply list_elem_of_lookup_2|].
    rewrite (Hrow' loc f Hf Hin).
    destruct (Forall2_lookup_l _ _ _ _ _ Hvals Hloc) as (y & Hy & Hrowy).
    congruence.
Qed.

Lemma rotations_app js1 js2 row row1 row2 :
  (∀ f, f ∈ concat (map snd js1) → f ∉ concat (map snd js2)) →
  rotations self js1 row row1 → rotations self js2 row1 row2 →
  rotations self (js1 ++ js2) row row2.
Proof.
  intros Hdisj (Hlen1 & Hjs1 & Hframe1) (Hlen2 & Hjs2 & Hframe2).
  split; [congruence|]. split.
  - apply Forall_app. split.
    + apply Forall_forall. intros j Hj. rewrite Forall_forall in Hjs1.
      apply (rotated_by_frame j.1 j.2 row row1); [done| |by apply Hjs1].
      intros col f Hf Hin. apply (Hframe2 col f Hf), Hdisj.
      apply (elem_of_concat_2 _ j.2); [|done].
      apply list_elem_of_fmap. by exists j.
    + apply Forall_forall. intros j Hj. rewrite Forall_forall in Hjs2.
      apply (rotated_by_frame j.1 j.2 row1 row2); [|done|by apply Hjs2].
      intros col f Hf Hin. symmetry. apply (Hframe1 col f Hf).
      intros Hin1. apply (Hdisj f Hin1).
      apply (elem_of_concat_2 _ j.2); [|done].
      apply list_elem_of_fmap. by exists j.
  - intros col f Hf Hout. rewrite map_app, concat_app in Hout.
    rewrite (Hframe2 col f Hf), (Hframe1 col f Hf); [done|..];
      intros Hin; apply Hout, elem_of_app; auto.
Qed.

Lemma Forall2_rotations_app js1 js2 rows rows1 rows2 :
  (∀ f, f ∈ concat (map snd js1) → f ∉ concat (map snd js2)) →
  Forall2 (rotations self js1) rows rows1 →
  Forall2 (rotations self js2) rows1 rows2 →
  Forall2 (rotations self (js1 ++ js2)) rows rows2.
Proof.
  intros Hdisj H1 H2. eapply Forall2_trans; [|exact H1|exact H2].
  intros x y z. by apply rotations_app.
Qed.
End rotation_rows.

Section rotation_states.
Context {St : Type} {static : StaticCalibration}.
Context (self : BaseModel).
Implicit Types (s : state St).

(** What [rotate_columns] has done when it returns, on an array that is
    laid out: every sample of the array is rotated. *)
Lemma rotate_columns_Ok subject (m : mat3) kind sensor s s' arr n k d :
  _data_all_sub self !! subject = Some arr →
  shape arr = [n; k; length (_data_fields self)] →
  heap s !! buf arr = Some d →
  length d = n * k * length (_data_fields self) →
  Calibration.rotate_columns self subject m kind sensor s = (Ok (), s') →
  ∃ locs rows' ext,
    Forall2 (λ f loc, list_index (_data_fields self) f = Ok loc)
            (Calibration.axis_cols kind sensor) locs
    ∧ s' = State (<[buf arr := concat rows']> (heap s) ++ ext) (_data_scalar s)
    ∧ Forall2 (rotated_row m locs)
              (np.chunks (length (_data_fields self)) (n * k) d) rows'.
Proof.
  intros Hsub Hsh Hd Hlen H. unfold Calibration.rotate_columns in H.
  apply M_bind_Ok in H as (locs & t & Hlocs & H).
  apply lift_Ok in Hlocs as [Hlocs ->]. apply for_each_Ok in Hlocs.
  assert (length locs = 3) as Hlocs3.
  { by rewrite <-(Forall2_length _ _ _ Hlocs). }
  assert (Forall (λ col, col < length (_data_fields self)) locs) as Hlt.
  { clear -Hlocs. induction Hlocs as [|f col fs cs Hf _ IH]; constructor; [|done].
    apply list_index_Ok in Hf as [Hf _]. by eapply lookup_lt_Some. }
  apply M_bind_Ok in H as (arr' & t & Harr & H).
  apply lift_Ok in Harr as [Harr ->].
  unfold Kam.subject_data in Harr. rewrite Hsub in Harr. injection Harr as <-.
  destruct (take_cols_rows arr locs s d n k _ Hd Hsh Hlen Hlt)
    as (picked & Hpicked & Hrun).
  apply M_bind_Ok in H as (p & t & Hp & H). rewrite Hrun in Hp.
  injection Hp as <- <-. rewrite Hlocs3 in H.
  assert (Forall (λ p, length p = 3) picked) as Hp3.
  { clear -Hpicked Hlocs3.
    induction Hpicked as [|row p rows ps Hp _ IH]; constructor; [|done].
    rewrite <-Hlocs3. symmetry. by eapply Forall2_length. }
  assert (length picked = n * k) as Hnk.
  { rewrite <-(Forall2_length _ _ _ Hpicked). apply length_chunks. }
  apply M_bind_Ok in H as (rotated & t & Hrot & H).
  unfold Calibration.apply_along_axis_2 in Hrot. cbn [shape] in Hrot.
  destruct (decide (n * k = 0)) as [Hzero|Hpos]; [done|].
  apply M_bind_Ok in Hrot as (v & t' & Hv & Hrot).
  apply load_Ok in Hv as [Hv ->]. cbn [heap buf] in Hv.
  rewrite lookup_app_r, Nat.sub_diag in Hv by done. injection Hv as <-.
  rewrite chunks_concat in Hrot by done.
  apply M_bind_Ok in Hrot as (res & t' & Hres & Hrot).
  apply lift_Ok in Hres as [Hres ->]. apply for_each_Ok in Hres.
  assert (Forall (λ r, length r = 3) res) as Hres3.
  { clear -Hres. induction Hres as [|p r ps rs Hr _ IH]; constructor; [|done].
    by destruct (matmul_length _ _ _ Hr). }
  destruct res as [|r0 res]; [done|].
  assert (length r0 = 3) as Hr0 by by apply Forall_cons in Hres3 as [? _].
  case_decide as Hsame; [|done].
  unfold Kam.alloc in Hrot. cbn [heap _data_scalar] in Hrot.
  injection Hrot as <- <-. rewrite Hr0 in H.
  apply M_bind_Ok in H as (arr' & t & Harr & H).
  apply lift_Ok in Harr as [Harr ->].
  unfold Kam.subject_data in Harr. rewrite Hsub in Harr. injection Harr as <-.
  unfold Calibration.assign_cols in H. rewrite Hsh, Hlocs3 in H.
  rewrite decide_True in H by done. cbn [shape] in H.
  rewrite decide_True in H by done.
  apply M_bind_Ok in H as (d1 & t & Hd1 & H). apply load_Ok in Hd1 as [Hd1 ->].
  cbn [heap] in Hd1. rewrite <-app_assoc in Hd1.
  rewrite lookup_app_l in Hd1 by by eapply lookup_lt_Some.
  assert (d1 = d) as -> by congruence.
  apply M_bind_Ok in H as (v & t & Hv & H). apply load_Ok in Hv as [Hv ->].
  cbn [heap buf] in Hv. rewrite lookup_app_r, Nat.sub_diag in Hv by done.
  injection Hv as <-.
  unfold Kam.store in H. cbn [heap _data_scalar] in H. injection H as <-.
  change (r0 ++ concat res) with (concat (r0 :: res)).
  assert (length (r0 :: res) = n * k) as Hresnk.
  { by rewrite <-(Forall2_length _ _ _ Hres). }
  rewrite chunks_concat by done.
  exists locs, (zip_with (Calibration.assign_row locs)
                         (np.chunks (length (_data_fields self)) (n * k) d)
                         (r0 :: res)),
         [concat picked; concat (r0 :: res)].
  split; [done|]. split.
  { f_equal. rewrite <-app_assoc. cbn [app].
    by rewrite insert_app_l by by eapply lookup_lt_Some. }
  clear -Hpicked Hres. revert Hres. generalize (r0 :: res). clear r0 res.
  induction Hpicked as [|row p rows ps Hp _ IH]; intros res Hmul.
  - apply Forall2_nil_inv_l in Hmul as ->. constructor.
  - apply Forall2_cons_inv_l in Hmul as (r & res' & Hr & Hmul & ->).
    cbn [zip_with]. constructor; [|by apply IH].
    by exists p, r.
Qed.
End rotation_states.

Section rotation_loops.
Context {St : Type} {static : StaticCalibration}.
Context (self : BaseModel).
Implicit Types (s : state St).

Lemma others_kept_refl b s : others_kept b s s.
Proof. by split. Qed.

Lemma others_kept_trans b s1 s2 s3 :
  others_kept b s1 s2 → others_kept b s2 s3 → others_kept b s1 s3.
Proof.
  intros [Hl1 H1] [Hl2 H2]. split; [lia|]. intros b' Hne Hlt.
  rewrite H2, H1; [done..|]. lia.
Qed.

Lemma rotate_columns_rotations subject (m : mat3) kind sensor s s' arr n k d :
  _data_all_sub self !! subject = Some arr →
  shape arr = [n; k; length (_data_fields self)] →
  heap s !! buf arr = Some d →
  length d = n * k * length (_data_fields self) →
  NoDup (Calibration.axis_cols kind sensor) →
  Calibration.rotate_columns self subject m kind sensor s = (Ok (), s') →
  0 < length (_data_fields self)
  ∧ others_kept (buf arr) s s'
  ∧ ∃ d', heap s' !! buf arr = Some d'
          ∧ length d' = n * k * length (_data_fields self)
          ∧ Forall2 (rotations self [(m, Calibration.axis_cols kind sensor)])
                    (np.chunks (length (_data_fields self)) (n * k) d)
                    (np.chunks (length (_data_fields self)) (n * k) d').
Proof.
  intros Hsub Hsh Hd Hlen Hnd H.
  destruct (rotate_columns_Ok self subject m kind sensor s s' arr n k d
              Hsub Hsh Hd Hlen H) as (locs & rows' & ext & Hlocs & -> & Hrot).
  assert (0 < length (_data_fields self)) as Hc.
  { destruct locs as [|loc locs]; [by apply Forall2_nil_inv_r in Hlocs|].
    apply Forall2_cons_inv_r in Hlocs as (f & fs & Hf & _ & _).
    apply list_index_Ok in Hf as [Hf _]. apply lookup_lt_Some in Hf. lia. }
  assert (Forall (λ row, length row = length (_data_fields self))
                 (np.chunks (length (_data_fields self)) (n * k) d)) as Hrect
    by (apply Forall_length_chunks; lia).
  assert (Forall2 (rotations self [(m, Calibration.axis_cols kind sensor)])
                  (np.chunks (length (_data_fields self)) (n * k) d) rows')
    as Hrots.
  { eapply Forall2_impl; [exact Hrot|]. intros row row'.
    by apply rotated_row_rotations. }
  assert (Forall (λ row, length row = length (_data_fields self)) rows')
    as Hrect'.
  { clear -Hrots Hrect.
    induction Hrots as [|row row' rows rows' Hrow _ IH]; [constructor|].
    apply Forall_cons in Hrect as [Hl Hrect].
    constructor; [|by apply IH]. destruct Hrow as [Hl' _]. congruence. }
  assert (length rows' = n * k) as Hrows'.
  { rewrite <-(Forall2_length _ _ _ Hrot). apply length_chunks. }
  assert (buf arr < length (heap s)) as Hb by by eapply lookup_lt_Some.
  split; [done|]. split.
  - split; cbn [heap].
    + rewrite length_app, length_insert. lia.
    + intros b' Hne Hlt. rewrite lookup_app_l by by rewrite length_insert.
      by apply list_lookup_insert_ne.
  - exists (concat rows'). cbn [heap]. split.
    + rewrite lookup_app_l by by rewrite length_insert.
      by apply list_lookup_insert_eq.
    + split; [by rewrite (length_concat_rows _ _ Hrect'), Hrows'|].
      by rewrite chunks_concat.
Qed.

Lemma cali_sensor_rotations subject (transform_mat_dict : dict mat3) sensor
    s s' arr n k d :
  _data_all_sub self !! subject = Some arr →
  shape arr = [n; k; length (_data_fields self)] →
  heap s !! buf arr = Some d →
  length d = n * k * length (_data_fields self) →
  NoDup (Calibration.axis_cols "Accel" sensor
         ++ Calibration.axis_cols "Gyro" sensor) →
  Calibration.cali_sensor self subject transform_mat_dict sensor s
  = (Ok (), s') →
  0 < length (_data_fields self)
  ∧ is_Some (dict_get transform_mat_dict sensor)
  ∧ others_kept (buf arr) s s'
  ∧ ∃ d', heap s' !! buf arr = Some d'
          ∧ length d' = n * k * length (_data_fields self)
          ∧ Forall2 (rotations self (sensor_rotations transform_mat_dict [sensor]))
                    (np.chunks (length (_data_fields self)) (n * k) d)
                    (np.chunks (length (_data_fields self)) (n * k) d').
Proof.
  intros Hsub Hsh Hd Hlen Hnd H.
  apply NoDup_app in Hnd as (Hacc & Hdisj & Hgyr).
  unfold Calibration.cali_sensor in H.
  apply M_bind_Ok in H as (m & t & Hm & H). apply lift_Ok in Hm as [Hm ->].
  destruct (dict_get transform_mat_dict sensor) as [m'|] eqn:Hget; [|done].
  injection Hm as ->.
  apply M_bind_Ok in H as ([] & s1 & Hrun1 & Hrun2).
  destruct (rotate_columns_rotations subject m "Accel" sensor s s1 arr n k d
              Hsub Hsh Hd Hlen Hacc Hrun1) as (Hc & Hk1 & d1 & Hd1 & Hlen1 & Hrot1).
  destruct (rotate_columns_rotations subject m "Gyro" sensor s1 s' arr n k d1
              Hsub Hsh Hd1 Hlen1 Hgyr Hrun2) as (_ & Hk2 & d2 & Hd2 & Hlen2 & Hrot2).
  split; [done|]. split; [done|]. split; [by eapply others_kept_trans|].
  exists d2. split; [done|]. split; [done|].
  unfold sensor_rotations. cbn [flat_map]. rewrite Hget, app_nil_r.
  eapply (Forall2_rotations_app self [(m, Calibration.axis_cols "Accel" sensor)]
            [(m, Calibration.axis_cols "Gyro" sensor)]); [|done..].
  cbn [map snd concat]. by rewrite !app_nil_r.
Qed.

Lemma sensor_rotations_names (transform_mat_dict : dict mat3) sensors f :
  f ∈ concat (map snd (sensor_rotations transform_mat_dict sensors)) →
  f ∈ flat_map (λ sensor, Calibration.axis_cols "Accel" sensor
                          ++ Calibration.axis_cols "Gyro" sensor) sensors.
Proof.
  induction sensors as [|sensor sensors IH]; [done|].
  unfold sensor_rotations. cbn [flat_map].
  rewrite map_app, concat_app, !elem_of_app.
  intros [Hf|Hf]; [left|right; by apply IH].
  destruct (dict_get transform_mat_dict sensor);
    cbn [map snd concat] in Hf; [|by apply elem_of_nil in Hf].
  rewrite app_nil_r in Hf. by apply elem_of_app.
Qed.

Lemma elem_of_sensor_rotations (transform_mat_dict : dict mat3) sensors
    sensor kind m :
  sensor ∈ sensors → kind ∈ ["Accel"; "Gyro"] →
  dict_get transform_mat_dict sensor = Some m →
  (m, Calibration.axis_cols kind sensor)
  ∈ sensor_rotations transform_mat_dict sensors.
Proof.
  intros Hsensor Hkind Hm. unfold sensor_rotations.
  apply list_elem_of_In, in_flat_map. exists sensor.
  split; [by apply list_elem_of_In|]. rewrite Hm. apply list_elem_of_In.
  set_solver.
Qed.

Lemma cali_sensors_rotations subject (transform_mat_dict : dict mat3) sensors
    s s' us arr n k d :
  _data_all_sub self !! subject = Some arr →
  shape arr = [n; k; length (_data_fields self)] →
  heap s !! buf arr = Some d →
  length d = n * k * length (_data_fields self) →
  NoDup (flat_map (λ sensor, Calibration.axis_cols "Accel" sensor
                             ++ Calibration.axis_cols "Gyro" sensor) sensors) →
  mapM (Calibration.cali_sensor self subject transform_mat_dict) sensors s
  = (Ok us, s') →
  (sensors ≠ [] → 0 < length (_data_fields self))
  ∧ Forall (λ sensor, is_Some (dict_get transform_mat_dict sensor)) sensors
  ∧ others_kept (buf arr) s s'
  ∧ ∃ d', heap s' !! buf arr = Some d'
          ∧ length d' = n * k * length (_data_fields self)
          ∧ Forall2 (rotations self (sensor_rotations transform_mat_dict sensors))
                    (np.chunks (length (_data_fields self)) (n * k) d)
                    (np.chunks (length (_data_fields self)) (n * k) d').
Proof.
  intros Hsub Hsh. revert s us d.
  induction sensors as [|sensor sensors IH]; intros s us d Hd Hlen Hnd H.
  - injection H as <- <-. split; [done|]. split; [constructor|].
    split; [apply others_kept_refl|]. exists d. split; [done|]. split; [done|].
    apply Forall_Forall2_diag, Forall_forall. intros row _. apply rotations_nil.
  - rewrite mapM_cons in H. apply M_bind_Ok in H as ([] & s1 & H1 & H).
    apply M_bind_Ok in H as (us' & s2 & H2 & H). injection H as <- <-.
    cbn [flat_map] in Hnd. apply NoDup_app in Hnd as (Hnd1 & Hdisj & Hnd2).
    destruct (cali_sensor_rotations subject transform_mat_dict sensor s s1 arr
                n k d Hsub Hsh Hd Hlen Hnd1 H1)
      as (Hc & Hget & Hk1 & d1 & Hd1 & Hlen1 & Hrot1).
    destruct (IH s1 us' d1 Hd1 Hlen1 Hnd2 H2)
      as (_ & Hgets & Hk2 & d2 & Hd2 & Hlen2 & Hrot2).
    split; [done|]. split; [by constructor|].
    split; [by eapply others_kept_trans|].
    exists d2. split; [done|]. split; [done|].
    assert (sensor_rotations transform_mat_dict (sensor :: sensors)
            = sensor_rotations transform_mat_dict [sensor]
              ++ sensor_rotations transform_mat_dict sensors) as ->.
    { unfold sensor_rotations. cbn [flat_map]. by rewrite app_nil_r. }
    eapply Forall2_rotations_app; [|done..].
    intros f Hf Hf'. apply sensor_rotations_names in Hf, Hf'.
    cbn [flat_map] in Hf. rewrite app_nil_r in Hf. by apply (Hdisj f).
Qed.

Lemma rotated_fields_NoDup : NoDup Calibration.rotated_fields.
Proof. apply (bool_decide_unpack _). vm_compute. exact I. Qed.

Lemma cali_subject_known subject s s' :
  Calibration.cali_subject self subject s = (Ok (), s') →
  is_Some (_data_all_sub self !! subject).
Proof.
  unfold Calibration.cali_subject. intros H.
  apply M_bind_Ok in H as (transform_mat_dict & t & _ & H).
  apply M_bind_Ok in H as (us & s1 & Hloop & _).
  unfold Const.SENSOR_LIST in Hloop. rewrite mapM_cons in Hloop.
  apply M_bind_Ok in Hloop as ([] & s2 & H1 & _).
  unfold Calibration.cali_sensor in H1.
  apply M_bind_Ok in H1 as (m & t1 & _ & H1).
  apply M_bind_Ok in H1 as ([] & s3 & Hrot & _).
  unfold Calibration.rotate_columns in Hrot.
  apply M_bind_Ok in Hrot as (locs & t2 & _ & Hrot).
  apply M_bind_Ok in Hrot as (arr & t3 & Harr & _).
  apply lift_Ok in Harr as [Harr _]. unfold Kam.subject_data in Harr.
  by destruct (_data_all_sub self !! subject); [eauto|].
Qed.

Lemma cali_subject_rotations subject s s' arr n k d :
  _data_all_sub self !! subject = Some arr →
  shape arr = [n; k; length (_data_fields self)] →
  heap s !! buf arr = Some d →
  length d = n * k * length (_data_fields self) →
  Calibration.cali_subject self subject s = (Ok (), s') →
  0 < length (_data_fields self)
  ∧ others_kept (buf arr) s s'
  ∧ ∃ transform_mat_dict d',
      get_static_calibration subject = Ok transform_mat_dict
      ∧ Forall (λ sensor, is_Some (dict_get transform_mat_dict sensor))
               Const.SENSOR_LIST
      ∧ heap s' !! buf arr = Some d'
      ∧ length d' = n * k * length (_data_fields self)
      ∧ Forall2 (rotations self
                   (sensor_rotations transform_mat_dict Const.SENSOR_LIST))
                (np.chunks (length (_data_fields self)) (n * k) d)
                (np.chunks (length (_data_fields self)) (n * k) d').
Proof.
  intros Hsub Hsh Hd Hlen H. unfold Calibration.cali_subject in H.
  apply M_bind_Ok in H as (transform_mat_dict & t & Hm & H).
  apply lift_Ok in Hm as [Hm ->].
  apply M_bind_Ok in H as (us & s1 & Hloop & H). injection H as <-.
  destruct (cali_sensors_rotations subject transform_mat_dict Const.SENSOR_LIST
              s s1 us arr n k d Hsub Hsh Hd Hlen rotated_fields_NoDup Hloop)
    as (Hc & Hgets & Hk & d' & Hd' & Hlen' & Hrot).
  split; [by apply Hc|]. split; [done|]. by exists transform_mat_dict, d'.
Qed.

Lemma cali_subjects_rotations subjects s s' us :
  store_laid_out self s → store_separate self → NoDup subjects →
  mapM (Calibration.cali_subject self) subjects s = (Ok us, s') →
  length (heap s) ≤ length (heap s')
  ∧ ∀ sub arr, _data_all_sub self !! sub = Some arr →
      (sub ∉ subjects → heap s' !! buf arr = heap s !! buf arr)
      ∧ (sub ∈ subjects →
         ∃ transform_mat_dict n k d d',
           get_static_calibration sub = Ok transform_mat_dict
           ∧ Forall (λ sensor, is_Some (dict_get transform_mat_dict sensor))
                    Const.SENSOR_LIST
           ∧ 0 < length (_data_fields self)
           ∧ heap s !! buf arr = Some d ∧ heap s' !! buf arr = Some d'
           ∧ length d = n * k * length (_data_fields self)
           ∧ length d' = n * k * length (_data_fields self)
           ∧ Forall2 (rotations self
                        (sensor_rotations transform_mat_dict Const.SENSOR_LIST))
                     (np.chunks (length (_data_fields self)) (n * k) d)
                     (np.chunks (length (_data_fields self)) (n * k) d')).
Proof.
  intros Hlaid Hsep. revert s us Hlaid.
  induction subjects as [|sub0 rest IH]; intros s us Hlaid Hnd H.
  - injection H as <- <-. split; [done|]. intros sub arr Harr.
    split; [done|]. by intros ?%elem_of_nil.
  - rewrite mapM_cons in H. apply M_bind_Ok in H as ([] & s1 & H0 & H).
    apply M_bind_Ok in H as (us' & s2 & Hrest & H). injection H as <- <-.
    apply NoDup_cons in Hnd as [Hnotin Hnd].
    destruct (cali_subject_known _ _ _ H0) as [arr0 Harr0].
    destruct (Hlaid sub0 arr0 Harr0) as (n0 & k0 & d0 & Hsh0 & Hd0 & Hlen0).
    destruct (cali_subject_rotations sub0 s s1 arr0 n0 k0 d0 Harr0 Hsh0 Hd0
                Hlen0 H0)
      as (Hc & [Hgrow Hkept] & mats & d0' & Hmats & Hgets & Hd0' & Hlen0' & Hrot0).
    assert (store_laid_out self s1) as Hlaid1.
    { intros sub arr Harr. destruct (decide (buf arr = buf arr0)) as [Heq|Hne].
      - assert (sub = sub0) as -> by by eapply Hsep.
        assert (arr = arr0) as -> by congruence. by exists n0, k0, d0'.
      - destruct (Hlaid sub arr Harr) as (n & k & d & Hsh & Hd & Hlen).
        exists n, k, d. split; [done|]. split; [|done].
        rewrite Hkept; [done..|]. by eapply lookup_lt_Some. }
    destruct (IH s1 us' Hlaid1 Hnd Hrest) as [Hgrow' IHsub].
    split; [lia|]. intros sub arr Harr.
    destruct (IHsub sub arr Harr) as [Hout Hin].
    destruct (Hlaid sub arr Harr) as (n & k & d & Hsh & Hd & Hlen).
    assert (buf arr < length (heap s)) as Hb by by eapply lookup_lt_Some.
    split.
    + intros Hnot. apply not_elem_of_cons in Hnot as [Hne Hnot].
      rewrite Hout by done. apply Hkept; [|done].
      intros Heq. apply Hne. by eapply Hsep.
    + intros Hel. apply elem_of_cons in Hel as [->|Hel].
      * assert (arr = arr0) as -> by congruence.
        exists mats, n0, k0, d0, d0'. rewrite Hout by done. done.
      * destruct (Hin Hel)
          as (mats' & n' & k' & d1 & d' & Hm' & Hgets' & _ & Hd1 & Hd' & Hl1 & Hl' & Hrot).
        exists mats', n', k', d1, d'.
        assert (heap s1 !! buf arr = heap s !! buf arr) as Hsame.
        { apply Hkept; [|done]. intros Heq.
          assert (sub = sub0) as -> by by eapply Hsep. done. }
        rewrite <-Hsame. done.
Qed.
End rotation_loops.

Lemma calibration_example_separate : store_separate CalibrationExample.self.
Proof.
  intros sub1 sub2 arr1 arr2 H1 H2 _. cbn in H1, H2.
  apply lookup_insert_Some in H1 as [[<- _]|[_ H1]];
    [|by rewrite lookup_empty in H1].
  apply lookup_insert_Some in H2 as [[<- _]|[_ H2]];
    [done|by rewrite lookup_empty in H2].
Qed.

(** X21: what a calibration that returns has done. On a store whose arrays
    have one column per data field and buffers of their own, and for
    subjects listed once each, every sample of every listed subject has, for
    every sensor of [SENSOR_LIST], its three acceleration columns and its
    three angular velocity columns replaced by the product of the sensor's
    matrix (that of [get_static_calibration] for the subject) with the
    values these columns had before the calibration; the arrays of subjects
    that are not listed are what they were. *)
Theorem cali_via_gravity_rotates_every_sensor {St : Type}
    {static : StaticCalibration} (self : BaseModel) (subjects : list string)
    (s s' : state St) :
  store_laid_out self s → store_separate self → NoDup subjects →
  Calibration.cali_via_gravity self subjects s = (Ok (), s') →
  ∀ sub arr, _data_all_sub self !! sub = Some arr →
    (sub ∉ subjects → heap s' !! buf arr = heap s !! buf arr)
    ∧ (sub ∈ subjects →
       ∃ transform_mat_dict,
         get_static_calibration sub = Ok transform_mat_dict
         ∧ Forall2 (λ row row',
                      ∀ sensor kind,
                        sensor ∈ Const.SENSOR_LIST → kind ∈ ["Accel"; "Gyro"] →
                        ∃ m, dict_get transform_mat_dict sensor = Some m
                             ∧ rotated_by self m
                                 (Calibration.axis_cols kind sensor) row row')
                   (samples self s arr) (samples self s' arr)).
Proof.
  intros Hlaid Hsep Hnd H. unfold Calibration.cali_via_gravity in H.
  apply M_bind_Ok in H as (us & s1 & Hloop & H). injection H as <-.
  destruct (cali_subjects_rotations self subjects s s1 us Hlaid Hsep Hnd Hloop)
    as [_ Hall].
  intros sub arr Harr. destruct (Hall sub arr Harr) as [Hout Hin].
  split; [done|]. intros Hel.
  destruct (Hin Hel)
    as (mats & n & k & d & d' & Hm & Hgets & Hc & Hd & Hd' & Hl & Hl' & Hrot).
  exists mats. split; [done|].
  rewrite (samples_eq self s arr d Hd), (samples_eq self s1 arr d' Hd').
  rewrite Hl, Hl', Nat.div_mul by lia.
  eapply Forall2_impl; [exact Hrot|].
  intros row row' (_ & Hjs & _) sensor kind Hsensor Hkind.
  rewrite Forall_forall in Hgets. destruct (Hgets sensor Hsensor) as [m Hget].
  exists m. split; [done|]. rewrite Forall_forall in Hjs.
  apply (Hjs (m, Calibration.axis_cols kind sensor)).
  by apply elem_of_sensor_rotations.
Qed.

(** The example: the acceleration [(1, 2, 3)] of the first sensor in the
    first sample is turned by a quarter into [(-2, 1, 3)], and so is every
    acceleration and angular velocity of every sensor. *)
Lemma cali_via_gravity_rotates_every_sensor_witness :
  ∃ s',
    Calibration.cali_via_gravity (static := CalibrationExample.static)
      CalibrationExample.self ["s1"] CalibrationExample.loaded = (Ok (), s')
    ∧ take 6 <$> heap s' !! 0 = Some [-2; 1; 3;  -5; 4; 6]%float
    ∧ ∃ transform_mat_dict,
        CalibrationExample.static "s1" = Ok transform_mat_dict
        ∧ Forall2 (λ row row',
                     ∀ sensor kind,
                       sensor ∈ Const.SENSOR_LIST → kind ∈ ["Accel"; "Gyro"] →
                       ∃ m, dict_get transform_mat_dict sensor = Some m
                            ∧ rotated_by CalibrationExample.self m
                                (Calibration.axis_cols kind sensor) row row')
                  (samples CalibrationExample.self CalibrationExample.loaded
                           (NdArray 0 [1; 2; 105]))
                  (samples CalibrationExample.self s' (NdArray 0 [1; 2; 105])).
Proof.
  let run := eval vm_compute in
    (Calibration.cali_via_gravity (static := CalibrationExample.static)
       CalibrationExample.self ["s1"] CalibrationExample.loaded) in
  match run with (Ok _, ?s') => exists s' end.
  match goal with
  | |- ?run ∧ _ => assert (Hrun : run) by (vm_compute; reflexivity)
  end.
  split; [exact Hrun|]. split; [vm_compute; reflexivity|].
  refine (proj2 (cali_via_gravity_rotates_every_sensor
                   (static := CalibrationExample.static) CalibrationExample.self
                   ["s1"] CalibrationExample.loaded _
                   calibration_example_laid_out calibration_example_separate
                   (NoDup_singleton "s1") Hrun "s1" (NdArray 0 [1; 2; 105])
                   eq_refl) _).
  by left.
Defined.

(** ** Cross-validation of no subjects *)

Section no_subjects.
Context {St Mdl : Type}.
Context {scaler : Scaler St} {model : Model St Mdl}.
Context {metrics : Metrics} {shuffler : Shuffle}.
Context (self : BaseModel).

Lemma mean_results_of_nil :
  Kam.mean_results_of self []
  = if decide (output_fields self = []) then Ok [] else Raise ValueError.
Proof.
  unfold Kam.mean_results_of, output_fields.
  induction (_y_fields self) as [|[output_name fields] groups IH]; [done|].
  cbn [for_each flat_map]. destruct fields as [|f fields].
  - cbn [for_each map app mbind result_bind].
    destruct (for_each _ groups) as [mean_results|e]; cbn in IH |- *; done.
  - cbn [for_each map app]. rewrite filter_nil. cbn. by rewrite decide_False.
Qed.
End no_subjects.

(** X22: the cross-validation of an empty list of subjects trains and
    evaluates nothing and leaves the state as it is. It has no record to
    take a mean of: with an output field, [np.concatenate] of no arrays
    raises [ValueError]; only a model without output fields gets its two
    empty tables. *)
Theorem cross_validation_of_no_subjects {St Mdl : Type} {scaler : Scaler St}
    {model : Model St Mdl} {metrics : Metrics} {shuffler : Shuffle}
    (self : BaseModel) (test_set_sub_num : nat) (s : state St) :
  test_set_sub_num ≠ 0 →
  Kam.cross_validation self [] test_set_sub_num s
  = (if decide (output_fields self = []) then Ok ([], []) else Raise ValueError, s).
Proof.
  intros Hk. unfold Kam.cross_validation. rewrite decide_False by done.
  assert (cv_folds [] test_set_sub_num = []) as ->.
  { unfold cv_folds, folder_num. cbn [length].
    rewrite Nat.Div0.div_0_l, Nat.Div0.mod_0_l. done. }
  assert (Kam.run_folds self [] s = (Ok [], s)) as Hfolds by reflexivity.
  rewrite M_bind_run, Hfolds, M_bind_run. unfold lift.
  rewrite mean_results_of_nil. by case_decide.
Qed.

(** The example has an output field. *)
Lemma cross_validation_of_no_subjects_witness :
  Kam.cross_validation (model := Example.model) Example.self [] 1 Example.loaded
  = (Raise ValueError, Example.loaded).
Proof.
  exact (cross_validation_of_no_subjects (model := Example.model) Example.self 1
           Example.loaded ltac:(lia)).
Defined.

(** ** Weights as masks *)

Section mask.
Context {St : Type} {metrics : Metrics}.
Context (self : BaseModel).
Implicit Types (s : state St).

Lemma reads_bind {A B} (m : M St A) (k : A → M St B) s :
  (m s).2 = s → (∀ a, (k a s).2 = s) → ((m ≫= k) s).2 = s.
Proof.
  intros Hm Hk. rewrite M_bind_run.
  destruct (m s) as [[a|e] s1]; cbn in Hm; subst; [apply Hk|done].
Qed.

Lemma reads_lift {A} (r : result A) s : (lift r s).2 = s.
Proof. done. Qed.

Lemma reads_field_column arr col s : (Kam.field_column arr col s).2 = s.
Proof.
  unfold Kam.field_column. destruct (shape arr) as [|n [|k [|c [|]]]]; try done.
  apply reads_bind; [done|]. intros d.
  apply reads_bind; [apply reads_lift|]. by intros vals.
Qed.

Lemma bind_ext_at {A B} (m m' : M St A) (k k' : A → M St B) s :
  m s = m' s → (m s).2 = s → (∀ a, k a s = k' a s) →
  (m ≫= k) s = (m' ≫= k') s.
Proof.
  intros Hm Hs Hk. rewrite !M_bind_run, <-Hm.
  destruct (m s) as [[a|e] s1]; cbn in Hs; subst; [apply Hk|done].
Qed.

Lemma mapM_reads {A B} (f : A → M St B) l s :
  (∀ x, x ∈ l → (f x s).2 = s) → (mapM f l s).2 = s.
Proof.
  induction l as [|x l IH]; intros Hf; [done|]. rewrite mapM_cons.
  apply reads_bind; [apply Hf; by left|]. intros y.
  apply reads_bind; [|done]. apply IH. intros x' Hx'. apply Hf. by right.
Qed.

Lemma mapM_ext_at {A B} (f g : A → M St B) l s :
  (∀ x, x ∈ l → f x s = g x s) → (∀ x, x ∈ l → (f x s).2 = s) →
  mapM f l s = mapM g l s.
Proof.
  induction l as [|x l IH]; intros Hfg Hs; [done|]. rewrite !mapM_cons.
  apply bind_ext_at; [apply Hfg; by left|apply Hs; by left|]. intros y.
  apply bind_ext_at; [|apply mapM_reads|done].
  - apply IH; intros x' Hx'; [apply Hfg|apply Hs]; by right.
  - intros x' Hx'. apply Hs. by right.
Qed.

Lemma for_each_pick_map {A B} (f : A → B) (rows : list (list A)) col e :
  for_each (λ row, or_raise e (row !! col)) (map (map f) rows)
  = map f <$> for_each (λ row, or_raise e (row !! col)) rows.
Proof.
  induction rows as [|row rows IH]; [done|]. cbn [map for_each]. rewrite IH.
  change (map f row) with (f <$> row). rewrite list_lookup_fmap.
  destruct (row !! col); cbn; [|done]. by destruct (for_each _ rows).
Qed.

(** The mask of a weight array depends on where its values are 1. *)
Lemma mask_agree (f : float → bool) (w w' : ndarray) col s :
  shape w = shape w' →
  (map f <$> heap s !! buf w) = (map f <$> heap s !! buf w') →
  (weight_col ← Kam.field_column w col; mret (map (map f) weight_col)) s
  = (weight_col ← Kam.field_column w' col;
     mret (map (map f) weight_col) : M St _) s.
Proof.
  intros Hsh Hval. rewrite !M_bind_run. unfold Kam.field_column. rewrite <-Hsh.
  destruct (shape w) as [|n [|k [|c [|]]]]; try done.
  rewrite !M_bind_run. unfold Kam.load.
  destruct (heap s !! buf w) as [d|], (heap s !! buf w') as [d'|];
    cbn in Hval; try done.
  injection Hval as Hval. cbn [or_raise]. rewrite !M_bind_run. unfold lift.
  pose proof (for_each_pick_map f (np.chunks c (n * k) d) col IndexError) as H1.
  pose proof (for_each_pick_map f (np.chunks c (n * k) d') col IndexError) as H2.
  rewrite <-chunks_map in H1, H2. rewrite Hval, H2 in H1.
  destruct (for_each _ (np.chunks c (n * k) d)) as [v|e],
           (for_each _ (np.chunks c (n * k) d')) as [v'|e']; cbn in H1; try done.
  - injection H1 as H1. cbn. rewrite <-!chunks_map. by rewrite H1.
  - by injection H1 as ->.
Qed.
End mask.

(** X23: the weights of [get_all_scores] are a mask. Two weight
    dictionaries with the same groups, whose arrays have the same shapes and
    the value 1 in the same places, give the same result, records and
    exceptions alike: what a weight other than 1 is (0, 0.5, 2) changes
    nothing. *)
Theorem weights_are_a_mask {St : Type} {metrics : Metrics} (self : BaseModel)
    (y_true y_pred weights weights' : dict ndarray) (s : state St) :
  (∀ output_name,
     match dict_get weights output_name, dict_get weights' output_name with
     | Some w, Some w' =>
         shape w = shape w'
         ∧ (map (λ x, (x =? 1)%float) <$> heap s !! buf w)
           = (map (λ x, (x =? 1)%float) <$> heap s !! buf w')
     | None, None => True
     | _, _ => False
     end) →
  Kam.get_all_scores self y_true y_pred (Some weights) s
  = Kam.get_all_scores self y_true y_pred (Some weights') s.
Proof.
  intros Hw. unfold Kam.get_all_scores. cbv zeta.
  change (default [] (Some weights)) with weights.
  change (default [] (Some weights')) with weights'.
  assert (∀ (ws : dict ndarray) output_name col field,
            ((true_arr ← lift (or_raise KeyError (dict_get y_true output_name));
              y_true_one_field ← Kam.field_column true_arr col;
              pred_arr ← lift (or_raise KeyError (dict_get y_pred output_name));
              y_pred_one_field ← Kam.field_column pred_arr col;
              weight_one_field ←
                match dict_get ws output_name with
                | Some weight_arr =>
                    weight_col ← Kam.field_column weight_arr col;
                    mret (map (map (λ x, (x =? 1)%float)) weight_col)
                | None => mret (map (map (λ _, true)) y_true_one_field)
                end;
              cs ← lift (Kam.get_column_score y_true_one_field y_pred_one_field
                                              weight_one_field);
              mret {| subject := None; output := output_name; field := field;
                      r2 := col_r2 cs; r2_all := col_r2_all cs;
                      rmse := col_rmse cs; mae := col_mae cs;
                      r_rmse := col_r_rmse cs;
                      cor_value := col_cor_value cs |} : M St score) s).2 = s)
    as Hreads.
  { intros ws output_name col field.
    apply reads_bind; [apply reads_lift|]. intros true_arr.
    apply reads_bind; [apply reads_field_column|]. intros yt.
    apply reads_bind; [apply reads_lift|]. intros pred_arr.
    apply reads_bind; [apply reads_field_column|]. intros yp.
    apply reads_bind.
    { destruct (dict_get ws output_name); [|done].
      apply reads_bind; [apply reads_field_column|done]. }
    intros w. apply reads_bind; [apply reads_lift|done]. }
  apply bind_ext_at; [| |done].
  - apply mapM_ext_at.
    + intros [output_name fields] _. apply mapM_ext_at.
      * intros [col field] _.
        apply bind_ext_at; [done|apply reads_lift|]. intros true_arr.
        apply bind_ext_at; [done|apply reads_field_column|]. intros yt.
        apply bind_ext_at; [done|apply reads_lift|]. intros pred_arr.
        apply bind_ext_at; [done|apply reads_field_column|]. intros yp.
        apply bind_ext_at; [| |done].
        -- specialize (Hw output_name).
           destruct (dict_get weights output_name) as [w|],
                    (dict_get weights' output_name) as [w'|]; try done.
           destruct Hw as [Hsh Hval]. by apply mask_agree.
        -- destruct (dict_get weights output_name); [|done].
           apply reads_bind; [apply reads_field_column|done].
      * intros [col field] _. apply Hreads.
    + intros [output_name fields] _. apply mapM_reads.
      intros [col field] _. apply Hreads.
  - apply mapM_reads. intros [output_name fields] _. apply mapM_reads.
    intros [col field] _. apply Hreads.
Qed.

(** One step of two samples, the second left out of the score by a weight
    of 0 or by a weight of 2. *)
Lemma weights_are_a_mask_witness :
  let s := State [[5; 7]; [1; 3]; [1; 0]; [1; 2]]%float
                 (∅ : gmap string (option MinMaxScaler.fitted)) in
  Kam.get_all_scores (metrics := Reference.metrics) Example.self
    [("output", NdArray 0 [1; 2; 1])] [("output", NdArray 1 [1; 2; 1])]
    (Some [("output", NdArray 2 [1; 2; 1])]) s
  = Kam.get_all_scores (metrics := Reference.metrics) Example.self
      [("output", NdArray 0 [1; 2; 1])] [("output", NdArray 1 [1; 2; 1])]
      (Some [("output", NdArray 3 [1; 2; 1])]) s.
Proof.
  cbv zeta. apply weights_are_a_mask. intros output_name.
  unfold dict_get. cbn [list_find fst].
  destruct (decide ("output" = output_name)); cbn; [|done].
  split; [done|]. vm_compute. reflexivity.
Defined.
